(** * Chronoshift: registry, renderer and visual renderer

    A shallow embedding of [src/registry.ts], [src/renderer.ts] and
    [src/visual-renderer.ts], and the properties of the display-model
    interpretation layer proved over it; with them [src/main.ts], which
    drives the three, and what [systems/decimal-french.ts] and
    [systems/standard.ts] compute without the host: the numerals and the
    calendar of the Republic, the hands of the clock.

    - JavaScript numbers are IEEE 754 binary64 values: Rocq's primitive
      [float] with the same arithmetic and comparisons.
    - A statement that may throw is a computation in the [Completion] monad.
    - The functions that the code calls and does not define (the methods of a
      provider, [toString] and [valueOf] of an object) are the host's: a
      class says what a call of them returns or throws.
    - The DOM is a tree of element and text nodes; a node reference held by the
      code is a path into the tree of the container it lives in. *)

From Stdlib Require Import Floats.
From stdpp Require Import gmap strings list pretty.

Set Warnings "-register-all".
(* A decimal literal denotes the nearest binary64 value, as it does in the source. *)
Set Warnings "-inexact-float".

(** ** Completions: normal results and thrown exceptions *)

(** A [TypeError] of the language, or what a function of the program under
    test throws, by a number that the host gives it. *)
Inductive JsError : Type :=
| TypeError
| Thrown (what : nat).

Inductive Completion (A : Type) : Type :=
| Normal (a : A)
| Throw (e : JsError).
Arguments Normal {A} a.
Arguments Throw {A} e.

#[global] Instance Completion_ret : MRet Completion := fun A a => Normal a.
#[global] Instance Completion_bind : MBind Completion := fun A B f c =>
  match c with
  | Normal a => f a
  | Throw e => Throw e
  end.

(** [for (const x of xs) body], threading the state [s] through the body. *)
Fixpoint for_of {A St : Type} (body : St -> A -> Completion St) (s : St) (xs : list A)
  : Completion St :=
  match xs with
  | [] => Normal s
  | x :: xs' => s' ← body s x; for_of body s' xs'
  end.

(** ** JavaScript values *)

Module Js.

(** Functions are opaque and carry an identity; a plain object is its table
    of own properties, with [Object.prototype] behind it.  Symbols, bigints,
    accessors, proxies and other prototypes are left out. *)
Inductive JsVal : Type :=
| JUndefined
| JNull
| JBool (b : bool)
| JNum (x : float)
| JStr (s : string)
| JFun (ident : nat)
| JObj (props : gmap string JsVal).

Definition typeof (v : JsVal) : string :=
  match v with
  | JUndefined => "undefined"
  | JNull => "object"
  | JBool _ => "boolean"
  | JNum _ => "number"
  | JStr _ => "string"
  | JFun _ => "function"
  | JObj _ => "object"
  end.

(** ToBoolean: what [!v] and [if (v)] test. *)
Definition truthy (v : JsVal) : bool :=
  match v with
  | JUndefined | JNull => false
  | JBool b => b
  | JNum x => negb (PrimFloat.is_zero x || PrimFloat.is_nan x)
  | JStr s => negb (bool_decide (s = ""))
  | JFun _ | JObj _ => true
  end.

Definition is_nullish (v : JsVal) : bool :=
  match v with
  | JUndefined | JNull => true
  | _ => false
  end.

(** [a ?? b] *)
Definition nullish_coalesce (a b : JsVal) : JsVal :=
  if is_nullish a then b else a.

(** [v.k] on a receiver that is not null or undefined.  A missing own
    property reads as [undefined]; the properties that primitives, functions
    and objects inherit ([length], [name], [toString], ...) are not modelled:
    the code below reads the fields of a provider and of its visual only, on
    a function or a primitive none but [id] and [type], and none of them is
    inherited.  [toString] and [valueOf] are looked up by [method_result]. *)
Definition prop (v : JsVal) (k : string) : JsVal :=
  match v with
  | JObj props => default JUndefined (props !! k)
  | _ => JUndefined
  end.

(** [v.k] in general: reading a property of [null] or [undefined] throws. *)
Definition get_prop (v : JsVal) (k : string) : Completion JsVal :=
  if is_nullish v then Throw TypeError else Normal (prop v k).

End Js.
Import Js.

(** ** Calls and conversions

    A function of the program under test is opaque: what a call of it returns
    or throws is the host's to say, by the identity of the function and the
    receiver.  A call is taken to end, and to leave the values of the run as
    they are. *)

Class JsCalls : Type := {
  Call : nat -> JsVal -> Completion JsVal;
}.

Module Conversion.
Section WithCalls.
Context `{!JsCalls}.

(** [Type(v)] is Object. *)
Definition is_object (v : JsVal) : bool :=
  match v with
  | JFun _ | JObj _ => true
  | _ => false
  end.

(** One name of [OrdinaryToPrimitive(O, hint)], for the [method] that
    [Get(O, name)] has found: a method that is callable is called, and a
    result that is not an object ends the conversion; [None] goes on to the
    next name. *)
Definition try_method (o method : JsVal) : Completion (option JsVal) :=
  match method with
  | JFun f => result ← Call f o; mret (if is_object result then None else Some result)
  | _ => mret None
  end.

(** What [Get(O, name)] and the call of it come to, for a plain object [o]
    with the own properties [props]: its own property when it has one under
    the name, and the method of [Object.prototype] otherwise, of which
    [toString] returns ["[object Object]"] and [valueOf] the object
    itself. *)
Definition method_result (o : JsVal) (props : gmap string JsVal) (name : string)
  : Completion (option JsVal) :=
  match props !! name with
  | Some method => try_method o method
  | None => mret (if bool_decide (name = "toString") then Some (JStr "[object Object]") else None)
  end.

(** [OrdinaryToPrimitive(O, hint)], for its completion only: the two names
    in the order of the hint; when neither gives a primitive the conversion
    throws a [TypeError]. *)
Definition OrdinaryToPrimitive (o : JsVal) (props : gmap string JsVal)
    (first second : string) : Completion unit :=
  by_first ← method_result o props first;
  match by_first with
  | Some _ => mret tt
  | None =>
      by_second ← method_result o props second;
      match by_second with
      | Some _ => mret tt
      | None => Throw TypeError
      end
  end.

(** [ToString(v)], as a template literal performs it on [${v}] and a DOM
    setter on a string attribute, for its completion only.  A primitive has a
    string (a symbol would have none, and there are no symbols here), and so
    has a function, by [Function.prototype.toString]; a plain object goes
    through [OrdinaryToPrimitive(O, string)]. *)
Definition ToString (v : JsVal) : Completion unit :=
  match v with
  | JObj props => OrdinaryToPrimitive v props "toString" "valueOf"
  | _ => mret tt
  end.

(** [ToNumber(v)], as the conversion of an argument to a [long] performs
    it, for its completion only: a plain object goes through
    [OrdinaryToPrimitive(O, number)]; the primitives that are modelled and
    the functions have a number, if only [NaN]. *)
Definition ToNumber (v : JsVal) : Completion unit :=
  match v with
  | JObj props => OrdinaryToPrimitive v props "valueOf" "toString"
  | _ => mret tt
  end.

End WithCalls.
End Conversion.
Import Conversion.

(** ** registry.ts *)

Module Registry.

(** [Map<string, TimeSystemDefinition>]: insertion ordered, one entry per key. *)
Definition RegistryMap : Type := list (string * JsVal).

Definition Map_has (m : RegistryMap) (k : string) : bool :=
  bool_decide (k ∈ m.*1).

Fixpoint Map_get (m : RegistryMap) (k : string) : JsVal :=
  match m with
  | [] => JUndefined
  | (k', v) :: m' => if bool_decide (k' = k) then v else Map_get m' k
  end.

(** [set] keeps the position of an existing key and appends a new one. *)
Fixpoint Map_set (m : RegistryMap) (k : string) (v : JsVal) : RegistryMap :=
  match m with
  | [] => [(k, v)]
  | (k', v') :: m' =>
      if bool_decide (k' = k) then (k, v) :: m' else (k', v') :: Map_set m' k v
  end.

Definition Map_values (m : RegistryMap) : list JsVal := m.*2.

(** What [console.warn] was called with; the interpolated value is kept as
    it is rather than rendered into the message. *)
Inductive Warning : Type :=
| InvalidSystemDefinition (id : JsVal)
| DuplicateSystemID (id : string).

Record State : Type := mkState {
  registry : RegistryMap;
  console : list Warning;
}.

Definition validateSystem (s : JsVal) : bool :=
  if negb (truthy s) || negb (bool_decide (typeof s = "object")) then false
  else
    bool_decide (typeof (prop s "id") = "string") &&
    bool_decide (typeof (prop s "name") = "string") &&
    bool_decide (typeof (prop s "description") = "string") &&
    bool_decide (typeof (prop s "format") = "function").

(** [system.id] once [validateSystem] has narrowed [system]: a string. *)
Definition system_id (system : JsVal) : string :=
  match prop system "id" with
  | JStr id => id
  | _ => ""
  end.

Section WithCalls.
Context `{!JsCalls}.

(** One iteration of the module's registration loop.  The message of the
    first warning is a template literal over [id], which converts it to a
    string; that of the second is one over [system.id], a string. *)
Definition register_step (st : State) (system : JsVal) : Completion State :=
  if negb (validateSystem system) then
    id ← get_prop system "id";
    let id := nullish_coalesce id (JStr "unknown") in
    _ ← ToString id;
    mret (mkState (registry st) (console st ++ [InvalidSystemDefinition id]))
  else if Map_has (registry st) (system_id system) then
    mret (mkState (registry st)
            (console st ++ [DuplicateSystemID (system_id system)]))
  else
    mret (mkState (Map_set (registry st) (system_id system) system) (console st)).

(** The module initialisation, for a registration list [systems]. *)
Definition register (systems : list JsVal) : Completion State :=
  for_of register_step (mkState [] []) systems.

(** The candidates that the loop gets past: the valid ones, and the rejected
    ones that are not [null] or [undefined] and whose [id], or ['unknown']
    in its place, the warning can print. *)
Definition passes (system : JsVal) : bool :=
  validateSystem system ||
  negb (is_nullish system) &&
  match ToString (nullish_coalesce (prop system "id") (JStr "unknown")) with
  | Normal _ => true
  | Throw _ => false
  end.

End WithCalls.

Definition getAllSystems (r : RegistryMap) : list JsVal := Map_values r.

Definition getSystem (r : RegistryMap) (id : string) : JsVal := Map_get r id.

Definition getDefaultSystem (r : RegistryMap) : JsVal :=
  nullish_coalesce (Map_get r "standard") (nth 0 (Map_values r) JUndefined).

(** The registry in the words of the specification (section 4.1): going
    through the candidates in list order, a candidate is accepted when it is
    valid and its id is not taken yet. *)
Fixpoint accepted_entries (taken : list string) (candidates : list JsVal)
  : list (string * JsVal) :=
  match candidates with
  | [] => []
  | c :: rest =>
      if validateSystem c && negb (bool_decide (system_id c ∈ taken))
      then (system_id c, c) :: accepted_entries (taken ++ [system_id c]) rest
      else accepted_entries taken rest
  end.

(** A candidate with all four required fields, each of the right shape. *)
Definition well_formed (c : JsVal) : Prop :=
  exists props id name description format,
    c = JObj props /\
    props !! "id" = Some (JStr id) /\
    props !! "name" = Some (JStr name) /\
    props !! "description" = Some (JStr description) /\
    props !! "format" = Some (JFun format).

(** The first valid candidate of the list that has the given id. *)
Definition first_valid_with_id (candidates : list JsVal) (id : string) : option JsVal :=
  List.find (fun c => validateSystem c && bool_decide (system_id c = id)) candidates.

End Registry.
Import Registry.

(** ** main.ts, as far as the default system goes *)

Module Main.

(** [currentSystem.format(now)], the first statement of [tick] after taking the
    time: the function that gets called, by its identity. *)
Definition tick_format (currentSystem : JsVal) : Completion nat :=
  format ← get_prop currentSystem "format";
  match format with
  | JFun ident => Normal ident
  | _ => Throw TypeError
  end.

(** [init], up to the call of [format] in its first [tick]: on the saved
    system when the registry knows it, on the default system otherwise. *)
Definition init (r : RegistryMap) (saved : JsVal) : Completion nat :=
  let currentSystem := getDefaultSystem r in
  match saved with
  | JStr id =>
      if truthy saved && truthy (getSystem r id)
      then tick_format (getSystem r id)
      else tick_format currentSystem
  | _ => tick_format currentSystem
  end.

End Main.

(** ** The host environment

    What the ECMAScript specification leaves to the implementation, or what is
    too large to embed: the approximations [Math.cos] and [Math.sin], and the
    decimal rendering [String(x)] of a number. *)

Class JsHost : Type := {
  Math_cos : float -> float;
  Math_sin : float -> float;
  Number_toString : float -> string;
}.

(** [Math.PI], the binary64 value nearest to pi. *)
Definition Math_PI : float := 0x1.921fb54442d18p+1%float.

Definition is_negative_zero (x : float) : bool :=
  match PrimFloat.classify x with
  | NZero => true
  | _ => false
  end.

(** [Math.min(x, y)]: NaN if either argument is, and -0 below +0. *)
Definition Math_min (x y : float) : float :=
  if PrimFloat.is_nan x || PrimFloat.is_nan y then PrimFloat.nan
  else if PrimFloat.ltb x y then x
  else if PrimFloat.ltb y x then y
  else if is_negative_zero x then x
  else y.

(** A loop counter as a number; exact below 2^53. *)
Definition number_of_nat (n : nat) : float :=
  PrimFloat.of_uint63 (Uint63.of_Z (Z.of_nat n)).

(** A [Date], by its time value (milliseconds since the epoch). *)
Definition Date : Type := Z.

(** ** The DOM *)

Module Dom.

(** Namespaces play no part in what follows: [createElementNS] drops its
    first argument. *)
Inductive Node : Type :=
| Text (data : string)
| Elem (tag : string) (attrs : list (string * string)) (childNodes : list Node).

Definition createElement (tag : string) : Node := Elem tag [] [].

Definition createElementNS (ns tag : string) : Node := Elem tag [] [].

Definition svgNS : string := "http://www.w3.org/2000/svg".

Fixpoint attr_get (k : string) (attrs : list (string * string)) : option string :=
  match attrs with
  | [] => None
  | (k', v) :: attrs' => if bool_decide (k' = k) then Some v else attr_get k attrs'
  end.

Fixpoint attr_set (k v : string) (attrs : list (string * string))
  : list (string * string) :=
  match attrs with
  | [] => [(k, v)]
  | (k', v') :: attrs' =>
      if bool_decide (k' = k) then (k, v) :: attrs' else (k', v') :: attr_set k v attrs'
  end.

Definition getAttribute (k : string) (n : Node) : option string :=
  match n with
  | Elem _ attrs _ => attr_get k attrs
  | Text _ => None
  end.

Definition setAttribute (k v : string) (n : Node) : Node :=
  match n with
  | Elem tag attrs kids => Elem tag (attr_set k v attrs) kids
  | Text _ => n
  end.

(** [n.className = v] *)
Definition set_className (v : string) (n : Node) : Node := setAttribute "class" v n.

(** [n.textContent = s]: every child goes, and a text node comes unless [s]
    is empty. *)
Definition set_textContent (s : string) (n : Node) : Node :=
  match n with
  | Elem tag attrs _ => Elem tag attrs (if bool_decide (s = "") then [] else [Text s])
  | Text _ => Text s
  end.

(** [n.innerHTML = ''] *)
Definition clear_innerHTML (n : Node) : Node :=
  match n with
  | Elem tag attrs _ => Elem tag attrs []
  | Text _ => n
  end.

Definition childNodes_of (n : Node) : list Node :=
  match n with
  | Elem _ _ kids => kids
  | Text _ => []
  end.

(** [parent.appendChild(child)] for a [child] that is not in a tree yet. *)
Definition appendChild (child parent : Node) : Node :=
  match parent with
  | Elem tag attrs kids => Elem tag attrs (kids ++ [child])
  | Text _ => parent
  end.

Definition is_ascii_whitespace (c : Ascii.ascii) : bool :=
  bool_decide (Ascii.nat_of_ascii c ∈ [9; 10; 12; 13; 32]).

(** The tokens of a [class] attribute. *)
Fixpoint class_tokens_from (acc s : string) : list string :=
  match s with
  | EmptyString => if bool_decide (acc = "") then [] else [acc]
  | String c s' =>
      if is_ascii_whitespace c
      then (if bool_decide (acc = "") then class_tokens_from "" s'
            else acc :: class_tokens_from "" s')
      else class_tokens_from (acc +:+ String c "") s'
  end.

Definition class_tokens (s : string) : list string := class_tokens_from "" s.

Definition has_class (cls : string) (n : Node) : bool :=
  match getAttribute "class" n with
  | Some v => bool_decide (cls ∈ class_tokens v)
  | None => false
  end.

(** A node reference: the child indices leading to it from a root. *)
Definition Ref : Type := list nat.

Definition into_next (r : Ref) : Ref :=
  match r with
  | [] => []
  | i :: r' => S i :: r'
  end.

(** [n.querySelector('.cls')]: the first descendant of [n], in document order,
    whose class list has [cls]; [None] is [null]. *)
Fixpoint querySelector (cls : string) (n : Node) {struct n} : option Ref :=
  match n with
  | Text _ => None
  | Elem _ _ kids =>
      (fix first_in (ks : list Node) : option Ref :=
         match ks with
         | [] => None
         | k :: ks' =>
             if has_class cls k then Some [0]
             else match querySelector cls k with
                  | Some r => Some (0 :: r)
                  | None => into_next <$> first_in ks'
                  end
         end) kids
  end.

Fixpoint node_at (r : Ref) (root : Node) : option Node :=
  match r with
  | [] => Some root
  | i :: r' => k ← childNodes_of root !! i; node_at r' k
  end.

Fixpoint update_at (r : Ref) (f : Node -> Node) (root : Node) : Node :=
  match r with
  | [] => f root
  | i :: r' =>
      match root with
      | Elem tag attrs kids => Elem tag attrs (alter (update_at r' f) i kids)
      | Text _ => root
      end
  end.

(** [base.querySelector('.cls')] for a node [base] inside [root]. *)
Definition querySelector_from (root : Node) (base : Ref) (cls : string) : option Ref :=
  n ← node_at base root; r ← querySelector cls n; Some (base ++ r).

(** Calling a method on the result of a lookup: [null] throws. *)
Definition deref {A : Type} (o : option A) : Completion A :=
  match o with
  | Some a => Normal a
  | None => Throw TypeError
  end.

(** *** Observations on a tree, for the statements below *)

(** How many descendants of [n] have class [cls]. *)
Fixpoint count_class (cls : string) (n : Node) {struct n} : nat :=
  match n with
  | Text _ => 0
  | Elem _ _ kids =>
      (fix sum_over (ks : list Node) : nat :=
         match ks with
         | [] => 0
         | k :: ks' => (if has_class cls k then 1 else 0) + count_class cls k + sum_over ks'
         end) kids
  end.

(** What a node adds to the count of a class: itself and its descendants. *)
Definition weight (cls : string) (k : Node) : nat :=
  (if has_class cls k then 1 else 0) + count_class cls k.

(** The search of [querySelector] through a list of children. *)
Definition first_match (cls : string) (ks : list Node) : option Ref :=
  querySelector cls (Elem "" [] ks).

Definition shift_by (n : nat) (r : Ref) : Ref :=
  match r with
  | [] => []
  | i :: r' => (n + i) :: r'
  end.

(** The tree without the attributes that [drop] picks, given the class
    tokens of the element and the name of the attribute. *)
Fixpoint erase_attributes (drop : list string -> string -> bool) (n : Node) : Node :=
  match n with
  | Text data => Text data
  | Elem tag attrs kids =>
      let classes := default [] (class_tokens <$> attr_get "class" attrs) in
      Elem tag
        (List.filter (fun kv => negb (drop classes kv.1)) attrs)
        (List.map (erase_attributes drop) kids)
  end.

End Dom.
Import Dom.

(** ** types.ts *)

Module Types.

Record UnifiedDisplay : Type := mkUnifiedDisplay {
  unified_value : string;
  unified_prefix : option string;
  unified_suffix : option string;
  unified_label : option string;
  unified_sublabel : option string;
}.

Record SplitDate : Type := mkSplitDate {
  date_formatted : string;
  date_era : option string;
}.

Record SplitTime : Type := mkSplitTime {
  time_formatted : string;
  time_period : option string;
  time_unitLabels : option (list string);
}.

Record SplitDisplay : Type := mkSplitDisplay {
  split_date : SplitDate;
  split_time : SplitTime;
  split_separator : option string;
}.

(** [value: string | number] *)
Record Segment : Type := mkSegment {
  segment_value : string + float;
  segment_label : string;
  segment_sublabel : option string;
}.

Record SegmentedDisplay : Type := mkSegmentedDisplay {
  segments : list Segment;
  segmented_separator : option string;
}.

Inductive TimeDisplay : Type :=
| Unified (d : UnifiedDisplay)
| Split (d : SplitDisplay)
| Segmented (d : SegmentedDisplay).

(** [display.type] *)
Definition display_type (display : TimeDisplay) : string :=
  match display with
  | Unified _ => "unified"
  | Split _ => "split"
  | Segmented _ => "segmented"
  end.

Record ProgressBarVisual : Type := mkProgressBarVisual {
  bar_max : float;
  bar_getValue : Date -> float;
}.

Record ProgressRingVisual : Type := mkProgressRingVisual {
  ring_max : float;
  ring_getValue : Date -> float;
}.

Record Hands : Type := mkHands {
  hour : float;
  minute : float;
  second : option float;
}.

(** [divisions] is a count, as the loop over the markers needs it: a whole
    number that a [number] holds exactly. *)
Record ClockVisual : Type := mkClockVisual {
  divisions : nat;
  getHands : Date -> Hands;
}.

Inductive VisualDefinition : Type :=
| ProgressBar (visual : ProgressBarVisual)
| ProgressRing (visual : ProgressRingVisual)
| Clock (visual : ClockVisual).

End Types.
Import Types.

(** ** renderer.ts *)

Module Renderer.
Section WithHost.
Context `{!JsHost}.

(** [String(v)] for [v: string | number] *)
Definition String_of (v : string + float) : string :=
  match v with
  | inl s => s
  | inr x => Number_toString x
  end.

(** [createElement], then [className] and [textContent] set. *)
Definition new_element (tag cls text : string) : Node :=
  set_textContent text (set_className cls (createElement tag)).

(** [if (field) { ... }] for an optional string field: the block runs on a
    truthy value, so neither on [undefined] nor on the empty string. *)
Definition if_truthy (field : option string) (block : string -> Node -> Node)
    (n : Node) : Node :=
  match field with
  | Some s => if truthy (JStr s) then block s n else n
  | None => n
  end.

Definition renderUnified (d : UnifiedDisplay) (container : Node) : Node :=
  let main := set_className "display__main" (createElement "div") in
  let main :=
    if_truthy (unified_prefix d)
      (fun s => appendChild (new_element "span" "display__prefix" s)) main in
  let main := appendChild (new_element "span" "display__value" (unified_value d)) main in
  let main :=
    if_truthy (unified_suffix d)
      (fun s => appendChild (new_element "span" "display__suffix" s)) main in
  let container := appendChild main container in
  let container :=
    if_truthy (unified_label d)
      (fun s => appendChild (new_element "div" "display__label" s)) container in
  if_truthy (unified_sublabel d)
    (fun s => appendChild (new_element "div" "display__sublabel" s)) container.

Definition renderSplit (d : SplitDisplay) (container : Node) : Node :=
  let dateEl := new_element "div" "display__date" (date_formatted (split_date d)) in
  let dateEl :=
    if_truthy (date_era (split_date d))
      (fun s => appendChild (new_element "span" "display__era" (" " +:+ s))) dateEl in
  let timeEl := new_element "div" "display__time" (time_formatted (split_time d)) in
  let timeEl :=
    if_truthy (time_period (split_time d))
      (fun s => appendChild (new_element "span" "display__period" (" " +:+ s))) timeEl in
  let container := appendChild dateEl container in
  let sep := new_element "span" "display__separator" (default " • " (split_separator d)) in
  let container := appendChild sep container in
  appendChild timeEl container.

(** [xs.forEach((x, i) => ...)], the callback updating [s]; [i] counts from
    the given start. *)
Fixpoint forEach {A St : Type} (callback : St -> A -> nat -> St) (s : St) (i : nat)
    (xs : list A) : St :=
  match xs with
  | [] => s
  | x :: xs' => forEach callback (callback s x i) (S i) xs'
  end.

Definition segment_separator (d : SegmentedDisplay) : Node :=
  new_element "span" "display__seg-separator" (default ":" (segmented_separator d)).

Definition segment_element (seg : Segment) : Node :=
  let segEl := set_className "display__segment" (createElement "div") in
  let val := new_element "span" "display__seg-value" (String_of (segment_value seg)) in
  let segEl := appendChild val segEl in
  let label := new_element "span" "display__seg-label" (segment_label seg) in
  appendChild label segEl.

(** The callback of [d.segments.forEach]. *)
Definition segment_pass (d : SegmentedDisplay) (segments_div : Node) (seg : Segment)
    (i : nat) : Node :=
  let segments_div :=
    if bool_decide (0 < i)
    then appendChild (segment_separator d) segments_div
    else segments_div in
  appendChild (segment_element seg) segments_div.

Definition renderSegmented (d : SegmentedDisplay) (container : Node) : Node :=
  let segments_div := set_className "display__segments" (createElement "div") in
  let segments_div := forEach (segment_pass d) segments_div 0 (segments d) in
  appendChild segments_div container.

Definition render (display : TimeDisplay) (container : Node) : Node :=
  let container := clear_innerHTML container in
  let container := set_className ("display display--" +:+ display_type display) container in
  match display with
  | Unified d => renderUnified d container
  | Split d => renderSplit d container
  | Segmented d => renderSegmented d container
  end.

End WithHost.
End Renderer.

(** ** Notions for the properties of the renderer

    Not part of the source: what the statements below are written with. *)

Module RendererSpec.

(** Interleaving in the words of the specification: [sep] between consecutive
    elements only. *)
Fixpoint interleave {A : Type} (sep : A) (xs : list A) : list A :=
  match xs with
  | [] => []
  | x :: xs' =>
      match xs' with
      | [] => [x]
      | _ :: _ => x :: sep :: interleave sep xs'
      end
  end.

(** Whether an optional field is there for [if (field)]: present and not the
    empty string. *)
Definition field_painted (field : option string) : bool :=
  match field with
  | Some s => negb (bool_decide (s = ""))
  | None => false
  end.

(** The field with an empty string taken for a missing value. *)
Definition drop_empty (field : option string) : option string :=
  if field_painted field then field else None.

(** The nodes an [if (field) { ... }] block appends. *)
Definition optional_node (make : string -> Node) (field : option string) : list Node :=
  match field with
  | Some s => if field_painted field then [make s] else []
  | None => []
  end.

End RendererSpec.

(** ** visual-renderer.ts *)

Module VisualRenderer.
Section WithHost.
Context `{!JsHost}.

#[local] Open Scope float_scope.

Definition VISUAL_SIZE : float := 120.
Definition STROKE_WIDTH : float := 4.

(** A run of [n.setAttribute(k, v)] calls, in order. *)
Definition setAttributes (kvs : list (string * string)) (n : Node) : Node :=
  foldl (fun n kv => setAttribute kv.1 kv.2 n) n kvs.

(** The node [svg] is bound to: the one found under the container, or a new
    one, built by [build] and appended. *)
Definition svg_of (build : Node) (container : Node) : Node * Ref :=
  match querySelector_from container [] "visual__svg" with
  | Some svg => (container, svg)
  | None => (appendChild build container, [length (childNodes_of container)])
  end.

(** *** Progress bar *)

Definition bar_progress (visual : ProgressBarVisual) (date : Date) : float :=
  let value := bar_getValue visual date in
  Math_min (value / bar_max visual) 1.

(** The block under [if (!svg)], up to [container.appendChild(svg)]. *)
Definition build_bar_svg : Node :=
  let svg := createElementNS svgNS "svg" in
  let svg :=
    setAttributes
      [("class", "visual__svg visual__svg--bar");
       ("viewBox", "0 0 " +:+ Number_toString VISUAL_SIZE +:+ " 12");
       ("aria-hidden", "true")] svg in
  let track := createElementNS svgNS "rect" in
  let track :=
    setAttributes
      [("class", "visual__track"); ("x", "0"); ("y", "4");
       ("width", Number_toString VISUAL_SIZE); ("height", "4"); ("rx", "2")] track in
  let svg := appendChild track svg in
  let fill := createElementNS svgNS "rect" in
  let fill :=
    setAttributes
      [("class", "visual__fill"); ("x", "0"); ("y", "4"); ("height", "4"); ("rx", "2")]
      fill in
  appendChild fill svg.

Definition renderProgressBar (visual : ProgressBarVisual) (date : Date)
    (container : Node) : Completion Node :=
  let progress := bar_progress visual date in
  let '(container, svg) := svg_of build_bar_svg container in
  fill ← deref (querySelector_from container svg "visual__fill");
  mret (update_at fill
          (setAttribute "width" (Number_toString (progress * VISUAL_SIZE))) container).

(** *** Progress ring *)

Definition ring_progress (visual : ProgressRingVisual) (date : Date) : float :=
  let value := ring_getValue visual date in
  Math_min (value / ring_max visual) 1.

Definition ring_radius : float := (VISUAL_SIZE - STROKE_WIDTH) / 2.
Definition ring_circumference : float := 2 * Math_PI * ring_radius.

Definition build_ring_svg : Node :=
  let svg := createElementNS svgNS "svg" in
  let svg :=
    setAttributes
      [("class", "visual__svg visual__svg--ring");
       ("viewBox",
        "0 0 " +:+ Number_toString VISUAL_SIZE +:+ " " +:+ Number_toString VISUAL_SIZE);
       ("aria-hidden", "true")] svg in
  let center := VISUAL_SIZE / 2 in
  let track := createElementNS svgNS "circle" in
  let track :=
    setAttributes
      [("class", "visual__track"); ("cx", Number_toString center);
       ("cy", Number_toString center); ("r", Number_toString ring_radius);
       ("fill", "none"); ("stroke-width", Number_toString STROKE_WIDTH)] track in
  let svg := appendChild track svg in
  let arc := createElementNS svgNS "circle" in
  let arc :=
    setAttributes
      [("class", "visual__fill"); ("cx", Number_toString center);
       ("cy", Number_toString center); ("r", Number_toString ring_radius);
       ("fill", "none"); ("stroke-width", Number_toString STROKE_WIDTH);
       ("stroke-linecap", "round");
       ("stroke-dasharray", Number_toString ring_circumference);
       ("transform",
        "rotate(-90 " +:+ Number_toString center +:+ " " +:+ Number_toString center
        +:+ ")")] arc in
  appendChild arc svg.

Definition renderProgressRing (visual : ProgressRingVisual) (date : Date)
    (container : Node) : Completion Node :=
  let progress := ring_progress visual date in
  let '(container, svg) := svg_of build_ring_svg container in
  arc ← deref (querySelector_from container svg "visual__fill");
  let offset := ring_circumference * (1 - progress) in
  mret (update_at arc (setAttribute "stroke-dashoffset" (Number_toString offset)) container).

(** *** Clock *)

Definition clock_center : float := VISUAL_SIZE / 2.
Definition faceRadius : float := (VISUAL_SIZE - STROKE_WIDTH) / 2.

(** [(angle * Math.PI) / 180] *)
Definition to_radians (angle : float) : float := (angle * Math_PI) / 180.

(** One pass of the loop over the hour markers. *)
Definition marker (visual : ClockVisual) (i : nat) : Node :=
  let angle := (number_of_nat i / number_of_nat (divisions visual)) * 360 - 90 in
  let rad := to_radians angle in
  let innerRadius := faceRadius - 8 in
  let outerRadius := faceRadius - 3 in
  setAttributes
    [("class", "visual__marker");
     ("x1", Number_toString (clock_center + innerRadius * Math_cos rad));
     ("y1", Number_toString (clock_center + innerRadius * Math_sin rad));
     ("x2", Number_toString (clock_center + outerRadius * Math_cos rad));
     ("y2", Number_toString (clock_center + outerRadius * Math_sin rad));
     ("stroke-width", "2"); ("stroke-linecap", "round")]
    (createElementNS svgNS "line").

Definition hand_line (cls width : string) : Node :=
  setAttributes
    [("class", cls); ("x1", Number_toString clock_center);
     ("y1", Number_toString clock_center); ("stroke-width", width);
     ("stroke-linecap", "round")]
    (createElementNS svgNS "line").

Definition new_clock_svg : Node :=
  setAttributes
    [("class", "visual__svg visual__svg--clock");
     ("viewBox",
      "0 0 " +:+ Number_toString VISUAL_SIZE +:+ " " +:+ Number_toString VISUAL_SIZE);
     ("aria-hidden", "true")]
    (createElementNS svgNS "svg").

Definition clock_face : Node :=
  setAttributes
    [("class", "visual__face"); ("cx", Number_toString clock_center);
     ("cy", Number_toString clock_center); ("r", Number_toString faceRadius);
     ("fill", "none"); ("stroke-width", Number_toString STROKE_WIDTH)]
    (createElementNS svgNS "circle").

Definition centerDot : Node :=
  setAttributes
    [("class", "visual__center"); ("cx", Number_toString clock_center);
     ("cy", Number_toString clock_center); ("r", "3")]
    (createElementNS svgNS "circle").

(** The block under [if (!svg)], up to [container.appendChild(svg)]. *)
Definition build_clock_svg (visual : ClockVisual) (hands : Hands) : Node :=
  let svg := new_clock_svg in
  let svg := appendChild clock_face svg in
  let svg :=
    foldl (fun svg i => appendChild (marker visual i) svg) svg
      (seq 0 (divisions visual)) in
  let svg := appendChild (hand_line "visual__hand visual__hand--hour" "3") svg in
  let svg := appendChild (hand_line "visual__hand visual__hand--minute" "2") svg in
  let svg :=
    match second hands with
    | Some _ => appendChild (hand_line "visual__hand visual__hand--second" "1") svg
    | None => svg
    end in
  appendChild centerDot svg.

Definition hourAngle (visual : ClockVisual) (hands : Hands) : float :=
  (hour hands / number_of_nat (divisions visual)) * 360 - 90.

Definition minuteAngle (hands : Hands) : float := (minute hands / 100) * 360 - 90.

Definition secondAngle (second : float) : float := (second / 100) * 360 - 90.

Definition hourLength : float := faceRadius * 0.5.
Definition minuteLength : float := faceRadius * 0.7.
Definition secondLength : float := faceRadius * 0.8.

(** [hand.setAttribute('x2', ...); hand.setAttribute('y2', ...)] for the hand
    at [hand], of length [len] and at [angle] degrees. *)
Definition point_hand (hand : Ref) (len angle : float) (container : Node) : Node :=
  let rad := to_radians angle in
  let container :=
    update_at hand
      (setAttribute "x2" (Number_toString (clock_center + len * Math_cos rad)))
      container in
  update_at hand
    (setAttribute "y2" (Number_toString (clock_center + len * Math_sin rad)))
    container.

Definition renderClock (visual : ClockVisual) (date : Date) (container : Node)
  : Completion Node :=
  let hands := getHands visual date in
  let '(container, svg) := svg_of (build_clock_svg visual hands) container in
  hourHand ← deref (querySelector_from container svg "visual__hand--hour");
  let container := point_hand hourHand hourLength (hourAngle visual hands) container in
  minuteHand ← deref (querySelector_from container svg "visual__hand--minute");
  let container := point_hand minuteHand minuteLength (minuteAngle hands) container in
  match second hands with
  | Some s =>
      match querySelector_from container svg "visual__hand--second" with
      | Some secondHand => mret (point_hand secondHand secondLength (secondAngle s) container)
      | None => mret container
      end
  | None => mret container
  end.

Definition renderVisual (visual : VisualDefinition) (date : Date) (container : Node)
  : Completion Node :=
  match visual with
  | ProgressBar v => renderProgressBar v date container
  | ProgressRing v => renderProgressRing v date container
  | Clock v => renderClock v date container
  end.

End WithHost.
End VisualRenderer.

(** ** Notions for the properties of the visual renderer

    Not part of the source: the ticks of the host on one target, what is
    observed of the target, and its scaffold in closed form. *)

Module VisualSpec.
Import VisualRenderer.
Section WithHost.
Context `{!JsHost}.

(** The node that the renderer reaches as [svg.querySelector('.cls')], with
    [svg] bound to [container.querySelector('.visual__svg')]. *)
Definition scaffold_node (container : Node) (cls : string) : option Node :=
  svg ← querySelector_from container [] "visual__svg";
  r ← querySelector_from container svg cls;
  node_at r container.

(** The attributes that a repeated call recomputes: the width of the fill of
    a bar, the dash offset of the fill of a ring, the end point of the hands
    of a clock. *)
Definition dynamic_attribute (visual : VisualDefinition) (classes : list string)
    (name : string) : bool :=
  match visual with
  | ProgressBar _ =>
      bool_decide ("visual__fill" ∈ classes) && bool_decide (name = "width")
  | ProgressRing _ =>
      bool_decide ("visual__fill" ∈ classes) && bool_decide (name = "stroke-dashoffset")
  | Clock _ =>
      bool_decide ("visual__hand" ∈ classes) && bool_decide (name ∈ ["x2"; "y2"])
  end.

(** The static part of a target: everything but the dynamic attributes. *)
Definition scaffold (visual : VisualDefinition) (container : Node) : Node :=
  erase_attributes (dynamic_attribute visual) container.

(** The scaffold in closed form: what the target ends in after a call, by
    the values of the dynamic attributes. *)

Definition bar_svg (width : string) : Node :=
  update_at [1] (setAttribute "width" width) build_bar_svg.

Definition ring_svg (offset : string) : Node :=
  update_at [1] (setAttribute "stroke-dashoffset" offset) build_ring_svg.

Definition bar_width (visual : ProgressBarVisual) (date : Date) : string :=
  Number_toString (bar_progress visual date * VISUAL_SIZE)%float.

Definition ring_offset (visual : ProgressRingVisual) (date : Date) : string :=
  Number_toString (ring_circumference * (1 - ring_progress visual date))%float.

Definition clock_svg_attrs : list (string * string) :=
  [("class", "visual__svg visual__svg--clock");
   ("viewBox",
    "0 0 " +:+ Number_toString VISUAL_SIZE +:+ " " +:+ Number_toString VISUAL_SIZE);
   ("aria-hidden", "true")].

(** Where a hand ends: its [x2] and [y2]. *)
Definition hand_tip (len angle : float) : string * string :=
  (Number_toString (clock_center + len * Math_cos (to_radians angle))%float,
   Number_toString (clock_center + len * Math_sin (to_radians angle))%float).

Definition tipped (tip : string * string) (hand : Node) : Node :=
  setAttribute "y2" tip.2 (setAttribute "x2" tip.1 hand).

(** A hand, pointed or as the scaffold is built with it. *)
Definition hand_node (cls width : string) (tip : option (string * string)) : Node :=
  match tip with
  | Some t => tipped t (hand_line cls width)
  | None => hand_line cls width
  end.

(** What comes before the hands: the face and the markers. *)
Definition clock_before (visual : ClockVisual) : list Node :=
  clock_face :: (marker visual <$> seq 0 (divisions visual)).

(** The hands and the centre dot; [st] is [None] without a second hand. *)
Definition clock_hands (ht mt : option (string * string))
    (st : option (option (string * string))) : list Node :=
  [hand_node "visual__hand visual__hand--hour" "3" ht;
   hand_node "visual__hand visual__hand--minute" "2" mt] ++
  match st with
  | Some t => [hand_node "visual__hand visual__hand--second" "1" t]
  | None => []
  end ++ [centerDot].

Definition clock_svg (visual : ClockVisual) (ht mt : option (string * string))
    (st : option (option (string * string))) : Node :=
  Elem "svg" clock_svg_attrs (clock_before visual ++ clock_hands ht mt st).

(** The scaffold of a visual after a call, whatever its dynamic attributes
    hold. *)
Definition rendered (visual : VisualDefinition) (svg : Node) : Prop :=
  match visual with
  | ProgressBar _ => exists w, svg = bar_svg w
  | ProgressRing _ => exists o, svg = ring_svg o
  | Clock v => exists ht mt st, svg = clock_svg v ht mt st
  end.

(** What the renderer of the visual builds under [if (!svg)] at [date]. *)
Definition built_svg (visual : VisualDefinition) (date : Date) : Node :=
  match visual with
  | ProgressBar _ => build_bar_svg
  | ProgressRing _ => build_ring_svg
  | Clock v => build_clock_svg v (getHands v date)
  end.

(** [renderVisual] on every tick of [dates], on the same target. *)
Definition renderVisual_each (visual : VisualDefinition) (dates : list Date)
    (container : Node) : Completion Node :=
  for_of (fun container date => renderVisual visual date container) container dates.

End WithHost.
End VisualSpec.

(** ** Sample data *)

Module Samples.

(** A sample of candidates: the standard system, a second system, a later
    candidate that reuses the id of the first, and a candidate without
    [description] and [format]. *)
Definition sample_standard : JsVal :=
  JObj (list_to_map
          [("id", JStr "standard"); ("name", JStr "Standard Time");
           ("description", JStr "Gregorian calendar with 24-hour time");
           ("category", JStr "standard"); ("tickInterval", JNum 1000);
           ("format", JFun 0)]).

Definition sample_kiloseconds : JsVal :=
  JObj (list_to_map
          [("id", JStr "kiloseconds"); ("name", JStr "Kiloseconds");
           ("description", JStr "SI-prefix time: today measured in kiloseconds");
           ("category", JStr "metric"); ("tickInterval", JNum 1000);
           ("format", JFun 1)]).

Definition sample_duplicate : JsVal :=
  JObj (list_to_map
          [("id", JStr "standard"); ("name", JStr "Another Standard");
           ("description", JStr "Same id, registered later");
           ("category", JStr "standard"); ("format", JFun 2)]).

Definition sample_malformed : JsVal :=
  JObj (list_to_map [("id", JStr "standard"); ("name", JStr "No format")]).

(** Calls for the examples: every function returns the empty string. *)
Definition sample_calls : JsCalls := {| Call := fun _ _ => Normal (JStr "") |}.

(** A candidate that [validateSystem] rejects, whose [id] has no string:
    [{id: {toString: 5}, name: 'n'}]. *)
Definition sample_unprintable : JsVal :=
  JObj (list_to_map
          [("id", JObj (list_to_map [("toString", JNum 5)])); ("name", JStr "n")]).

(** A host for the examples.  Whole numbers print in decimal (a fraction is
    cut off); cosine and sine are short Taylor polynomials. *)
Definition whole_number_toString (x : float) : string :=
  match Prim2SF x with
  | S754_zero _ => "0"
  | S754_infinity s => if s then "-Infinity" else "Infinity"
  | S754_nan => "NaN"
  | S754_finite s m e => (if s then "-" else "") +:+ pretty (Z.shiftl (Z.pos m) e)
  end.

Definition taylor_cos (x : float) : float :=
  (1 - x * x / 2 + x * x * x * x / 24)%float.

Definition taylor_sin (x : float) : float :=
  (x - x * x * x / 6 + x * x * x * x * x / 120)%float.

Definition sample_host : JsHost :=
  {| Math_cos := taylor_cos; Math_sin := taylor_sin;
     Number_toString := whole_number_toString |}.

Definition sample_target : Node := Elem "div" [("id", "time-visual")] [].

(** [ProgressBar{max: 100, getValue: () => 50}] *)
Definition half_bar : ProgressBarVisual := mkProgressBarVisual 100 (fun _ => 50%float).

(** [Clock{divisions: 12}] at three o'clock. *)
Definition three_oclock : ClockVisual :=
  mkClockVisual 12 (fun _ => mkHands 3 0 None).

(** A clock whose hands have no second at instant 0 and one afterwards. *)
Definition late_second_clock : ClockVisual :=
  mkClockVisual 12
    (fun date => mkHands 3 0 (if bool_decide (date = 0%Z) then None else Some 50%float)).

Definition sample_epoch_seconds : JsVal :=
  JObj (list_to_map
          [("id", JStr "epoch-seconds"); ("name", JStr "Unix Epoch");
           ("description", JStr "Seconds since January 1, 1970 UTC");
           ("category", JStr "epoch"); ("format", JFun 3)]).

Definition sample_holocene : JsVal :=
  JObj (list_to_map
          [("id", JStr "holocene"); ("name", JStr "Holocene Era");
           ("description", JStr "Adds 10,000 years to represent the Human Era (HE)");
           ("category", JStr "calendar"); ("format", JFun 4)]).

(** [{type: 'unified', value: '42', label: 'widgets'}] *)
Definition widgets : UnifiedDisplay :=
  mkUnifiedDisplay "42" None None (Some "widgets") None.

Definition three_segments : SegmentedDisplay :=
  mkSegmentedDisplay
    [mkSegment (inl "10") "hours" None; mkSegment (inl "45") "minutes" None;
     mkSegment (inr 30%float) "seconds" None]
    None.

End Samples.
Import Samples.

(** ** More of the DOM: reading text, removing a node *)

Module DomMore.

(** [n.textContent], read: the text of the descendants, in document order. *)
Fixpoint textContent (n : Node) {struct n} : string :=
  match n with
  | Text data => data
  | Elem _ _ kids =>
      (fix text_of (ks : list Node) : string :=
         match ks with
         | [] => ""
         | k :: ks' => textContent k +:+ text_of ks'
         end) kids
  end.

(** [node.remove()] for the node at [r] under [root]. *)
Fixpoint remove_at (r : Ref) (root : Node) : Node :=
  match r with
  | [] => root
  | i :: r' =>
      match root with
      | Elem tag attrs kids =>
          match r' with
          | [] => Elem tag attrs (delete i kids)
          | _ :: _ => Elem tag attrs (alter (remove_at r') i kids)
          end
      | Text _ => root
      end
  end.

(** The text of a list of nodes, one after the other. *)
Definition texts (ks : list Node) : string :=
  foldr (fun k acc => textContent k +:+ acc) "" ks.

End DomMore.
Import DomMore.

(** ** Notions for reading a rendering *)

Module RendererText.
Import RendererSpec.

(** The text [if (field) ...] puts after a blank: for the era and the period. *)
Definition after_blank (field : option string) : string :=
  if field_painted field then " " +:+ default "" field else "".

End RendererText.
Import RendererText.

(** ** visual-renderer.ts: [clearVisual] *)

Module VisualClear.

Definition clearVisual (container : Node) : Node :=
  match querySelector_from container [] "visual__svg" with
  | Some svg => remove_at svg container
  | None => container
  end.

End VisualClear.
Import VisualClear.

(** ** Notions for the further properties of the visual renderer *)

Module VisualSpecMore.
Import VisualRenderer VisualSpec.

(** The class by which a scaffold tells its shape. *)
Definition shape_class (visual : VisualDefinition) : string :=
  match visual with
  | ProgressBar _ => "visual__svg--bar"
  | ProgressRing _ => "visual__svg--ring"
  | Clock _ => "visual__svg--clock"
  end.

Definition is_clock (visual : VisualDefinition) : bool :=
  match visual with
  | Clock _ => true
  | _ => false
  end.

(** The hands have a second at [date] exactly when they had one on the first
    of the calls at [dates] and then [date]; nothing is asked of a bar or a
    ring. *)
Definition steady (visual : VisualDefinition) (dates : list Date) (date : Date) : Prop :=
  match visual with
  | Clock v =>
      is_Some (second (getHands v (hd date dates))) <->
      is_Some (second (getHands v date))
  | _ => True
  end.

End VisualSpecMore.

(** ** main.ts

    The module state ([currentSystem], [tickHandle]), the four elements it
    holds, and what it uses of the window: the intervals that are set and the
    item [chronoshift-system] of the local storage.

    - The four elements are there and apart in the page, none inside
      another, so each is a tree of its own.
    - Reading and writing the local storage is taken not to throw.
    - A provider is checked by [validateSystem] for four of its fields only.
      What the code does with the others ([visual], [tickInterval],
      [learnMoreUrl]) and with what [format] returns is followed as far as
      the code itself settles it: a missing method is a [TypeError], a
      [visual] of no known type draws nothing.  Where a value leaves the type
      that [types.ts] declares for it in another way, the model stops and
      says so ([Beyond]). *)

Module App.
Import Renderer VisualRenderer VisualClear.

(** What a run of the code comes to: it returns, it throws, or it leaves
    what is modelled. *)
Inductive Outcome (A : Type) : Type :=
| Returns (a : A)
| Throws (e : JsError)
| Beyond.
Arguments Returns {A} a.
Arguments Throws {A} e.
Arguments Beyond {A}.

#[global] Instance Outcome_ret : MRet Outcome := fun A a => Returns a.
#[global] Instance Outcome_bind : MBind Outcome := fun A B f o =>
  match o with
  | Returns a => f a
  | Throws e => Throws e
  | Beyond => Beyond
  end.

Definition of_completion {A : Type} (c : Completion A) : Outcome A :=
  match c with
  | Normal a => Returns a
  | Throw e => Throws e
  end.

(** What the functions of a provider do when called.  Functions are opaque
    in [JsVal]: the host tells, by the identity of the function, the receiver
    and the date, whether the call returns a value of the declared type
    ([TimeDisplay], [number], the hands of a clock), throws, or returns
    something else ([Beyond]).  A call is taken to end, and to leave the page
    and the values of the run as they are. *)
Class Providers : Type := {
  call_format : nat -> JsVal -> Date -> Outcome TimeDisplay;
  call_getValue : nat -> JsVal -> Date -> Outcome float;
  call_getHands : nat -> JsVal -> Date -> Outcome Hands;
}.

(** [selected] is the selectedness of the options of [selector]: the index,
    among the child nodes, of the one option that is selected, if any.  It is
    kept for a selector that is a drop-down list ([dropdown] below) and has no
    meaning for another element.  [learnMore_href] is what was last assigned
    to [href]; [learnMore_display] is the [display] of the inline style. *)
Record Page : Type := mkPage {
  selector : Node;
  selected : option nat;
  visualContainer : Node;
  display : Node;
  learnMore_href : JsVal;
  learnMore_display : string;
  currentSystem : JsVal;
  tickHandle : option nat;
  intervals : list (nat * JsVal);
  next_handle : nat;
  saved_system : option string;
}.

Definition with_selector (v : Node) (p : Page) : Page :=
  mkPage v (selected p) (visualContainer p) (display p) (learnMore_href p)
    (learnMore_display p) (currentSystem p) (tickHandle p) (intervals p)
    (next_handle p) (saved_system p).

Definition with_selected (v : option nat) (p : Page) : Page :=
  mkPage (selector p) v (visualContainer p) (display p) (learnMore_href p)
    (learnMore_display p) (currentSystem p) (tickHandle p) (intervals p)
    (next_handle p) (saved_system p).

Definition with_visualContainer (v : Node) (p : Page) : Page :=
  mkPage (selector p) (selected p) v (display p) (learnMore_href p)
    (learnMore_display p) (currentSystem p) (tickHandle p) (intervals p)
    (next_handle p) (saved_system p).

Definition with_display (v : Node) (p : Page) : Page :=
  mkPage (selector p) (selected p) (visualContainer p) v (learnMore_href p)
    (learnMore_display p) (currentSystem p) (tickHandle p) (intervals p)
    (next_handle p) (saved_system p).

Definition with_learnMore (href : JsVal) (style_display : string) (p : Page) : Page :=
  mkPage (selector p) (selected p) (visualContainer p) (display p) href
    style_display (currentSystem p) (tickHandle p) (intervals p)
    (next_handle p) (saved_system p).

Definition with_currentSystem (v : JsVal) (p : Page) : Page :=
  mkPage (selector p) (selected p) (visualContainer p) (display p)
    (learnMore_href p) (learnMore_display p) v (tickHandle p) (intervals p)
    (next_handle p) (saved_system p).

Definition with_tickHandle (v : option nat) (p : Page) : Page :=
  mkPage (selector p) (selected p) (visualContainer p) (display p)
    (learnMore_href p) (learnMore_display p) (currentSystem p) v (intervals p)
    (next_handle p) (saved_system p).

Definition with_intervals (v : list (nat * JsVal)) (next : nat) (p : Page) : Page :=
  mkPage (selector p) (selected p) (visualContainer p) (display p)
    (learnMore_href p) (learnMore_display p) (currentSystem p) (tickHandle p) v
    next (saved_system p).

Definition with_saved_system (v : option string) (p : Page) : Page :=
  mkPage (selector p) (selected p) (visualContainer p) (display p)
    (learnMore_href p) (learnMore_display p) (currentSystem p) (tickHandle p)
    (intervals p) (next_handle p) v.

(** [clearInterval(handle)]; [None] is [undefined], which clears nothing. *)
Definition clearInterval (handle : option nat) (p : Page) : Page :=
  match handle with
  | Some h => with_intervals (filter (fun t => t.1 <> h) (intervals p)) (next_handle p) p
  | None => p
  end.

(** *** The select element

    What HTML lays down for a [select] that shows as a drop-down list: no
    [multiple] and no [size] attribute, the options its own children (no
    [optgroup]), each with its value in the attribute [value], as the options
    have it that [populateSelector] appends. *)

Definition is_element (name : string) (n : Node) : bool :=
  match n with
  | Elem tag _ _ => bool_decide (tag = name)
  | Text _ => false
  end.

Definition has_attribute (k : string) (n : Node) : bool :=
  match getAttribute k n with
  | Some _ => true
  | None => false
  end.

Definition dropdown (select : Node) : bool :=
  is_element "select" select &&
  negb (has_attribute "multiple" select) &&
  negb (has_attribute "size" select) &&
  forallb (fun kid => negb (is_element "optgroup" kid) &&
                      (negb (is_element "option" kid) || has_attribute "value" kid))
    (childNodes_of select).

(** [option.value] of an option with the attribute. *)
Definition option_value (option : Node) : string :=
  default "" (getAttribute "value" option).

(** The index of the first child that passes [test]. *)
Fixpoint first_where (test : Node -> bool) (kids : list Node) : option nat :=
  match kids with
  | [] => None
  | kid :: kids' => if test kid then Some 0%nat else S <$> first_where test kids'
  end.

(** An option that is not disabled. *)
Definition is_enabled_option (kid : Node) : bool :=
  is_element "option" kid && negb (has_attribute "disabled" kid).

(** The selectedness setting algorithm: when no option is selected, the
    first one that is not disabled becomes selected. *)
Definition selectedness_setting (select : Node) (selected : option nat) : option nat :=
  match selected with
  | Some i => Some i
  | None => first_where is_enabled_option (childNodes_of select)
  end.

(** [select.value]: the value of the selected option, or the empty string. *)
Definition select_value (select : Node) (selected : option nat) : string :=
  match selected with
  | Some i =>
      match childNodes_of select !! i with
      | Some option => option_value option
      | None => ""
      end
  | None => ""
  end.

(** [select.value = v]: the first option of that value becomes the selected
    one, disabled or not; no option is selected when there is none. *)
Definition set_select_value (v : string) (select : Node) : option nat :=
  first_where (fun kid => is_element "option" kid && bool_decide (option_value kid = v))
    (childNodes_of select).

(** The selection that a page may be found with: an option when one is
    selected, and none only if there is no option to select. *)
Definition selection_fits (select : Node) (selected : option nat) : bool :=
  match selected with
  | Some i =>
      match childNodes_of select !! i with
      | Some kid => is_element "option" kid
      | None => false
      end
  | None => bool_decide (first_where is_enabled_option (childNodes_of select) = None)
  end.

Definition selector_value (p : Page) : string := select_value (selector p) (selected p).

(** [selector.value = v] *)
Definition set_selector_value (v : string) (p : Page) : Outcome Page :=
  if dropdown (selector p)
  then Returns (with_selected (set_select_value v (selector p)) p)
  else Beyond.

(** [selector.appendChild(option)], for an option that is not selected: in
    a drop-down list the insertion runs the selectedness setting algorithm. *)
Definition append_option (option : Node) (p : Page) : Page :=
  let p := with_selector (appendChild option (selector p)) p in
  if dropdown (selector p)
  then with_selected (selectedness_setting (selector p) (selected p)) p
  else p.

(** [sys.name] and [sys.description] once [validateSystem] has narrowed
    [sys]: strings. *)
Definition system_name (sys : JsVal) : string :=
  match prop sys "name" with
  | JStr name => name
  | _ => ""
  end.

Definition system_description (sys : JsVal) : string :=
  match prop sys "description" with
  | JStr description => description
  | _ => ""
  end.

(** The body of the loop of [populateSelector], up to [appendChild]. *)
Definition new_option (sys : JsVal) : Node :=
  let option := createElement "option" in
  let option := setAttribute "value" (system_id sys) option in
  let option := set_textContent (system_name sys) option in
  setAttribute "title" (system_description sys) option.

(** [x] as a count: a whole number from 0 on and below 2^53, by the [nat]
    that [number_of_nat] takes to it. *)
Definition whole_number (x : float) : option nat :=
  match Prim2SF x with
  | S754_zero false => Some 0%nat
  | S754_finite false m e =>
      if (e <=? 0)%Z then
        let n := Z.to_nat (Z.shiftl (Z.pos m) e) in
        if PrimFloat.eqb x (number_of_nat n) then Some n else None
      else None
  | _ => None
  end.

Section WithHost.
Context `{!JsHost} `{!JsCalls} `{!Providers}.

(** [window.setInterval(tick, delay)]: the delay is converted to a number
    first, and the handle is one that was never given out. *)
Definition setInterval (delay : JsVal) (p : Page) : Completion (nat * Page) :=
  _ ← ToNumber delay;
  mret (next_handle p,
        with_intervals (intervals p ++ [(next_handle p, delay)]) (S (next_handle p)) p).

(** [visual.getValue] or [visual.getHands], as the callee of a call. *)
Definition method_of (visual : JsVal) (name : string) : Outcome nat :=
  match prop visual name with
  | JFun f => Returns f
  | _ => Throws TypeError
  end.

(** [visual.max], a [number] by its type. *)
Definition number_of (v : JsVal) : Outcome float :=
  match v with
  | JNum x => Returns x
  | _ => Beyond
  end.

(** [visual.divisions], a count by its use. *)
Definition count_of (v : JsVal) : Outcome nat :=
  match v with
  | JNum x =>
      match whole_number x with
      | Some n => Returns n
      | None => Beyond
      end
  | _ => Beyond
  end.

(** The [switch] of [renderVisual] and the first statements of the function
    it goes to, on the object at [visual]: the case, if [visual.type] has
    one; in it the call of the accessor, which comes first; then the number
    beside it.  The visual that comes out has the accessor return what the
    call returned. *)
Definition read_visual (visual : JsVal) (date : Date) : Outcome (option VisualDefinition) :=
  match prop visual "type" with
  | JStr type =>
      if bool_decide (type = "progress-bar") then
        getValue ← method_of visual "getValue";
        value ← call_getValue getValue visual date;
        max ← number_of (prop visual "max");
        mret (Some (ProgressBar (mkProgressBarVisual max (fun _ => value))))
      else if bool_decide (type = "progress-ring") then
        getValue ← method_of visual "getValue";
        value ← call_getValue getValue visual date;
        max ← number_of (prop visual "max");
        mret (Some (ProgressRing (mkProgressRingVisual max (fun _ => value))))
      else if bool_decide (type = "clock") then
        getHands ← method_of visual "getHands";
        hands ← call_getHands getHands visual date;
        divisions ← count_of (prop visual "divisions");
        mret (Some (Clock (mkClockVisual divisions (fun _ => hands))))
      else mret None
  | _ => mret None
  end.

(** [renderVisual(visual, date, container)] on the object at [visual]. *)
Definition renderVisual_of (visual : JsVal) (date : Date) (container : Node)
  : Outcome Node :=
  definition ← read_visual visual date;
  match definition with
  | Some definition => of_completion (renderVisual definition date container)
  | None => mret container
  end.

Variable r : RegistryMap.

Definition populateSelector (p : Page) : Page :=
  foldl (fun p sys => append_option (new_option sys) p) p (getAllSystems r).

(** [tick], with the time that [new Date()] gives. *)
Definition tick (now : Date) (p : Page) : Outcome Page :=
  format ← of_completion (Main.tick_format (currentSystem p));
  output ← call_format format (currentSystem p) now;
  let p := with_display (render output (display p)) p in
  let visual := prop (currentSystem p) "visual" in
  if truthy visual then
    container ← renderVisual_of visual now (visualContainer p);
    mret (with_visualContainer container p)
  else mret p.

(** The assignment to [href] converts the value to a string. *)
Definition updateLearnMoreLink (p : Page) : Completion Page :=
  learnMoreUrl ← get_prop (currentSystem p) "learnMoreUrl";
  if truthy learnMoreUrl then
    _ ← ToString learnMoreUrl;
    mret (with_learnMore learnMoreUrl "" p)
  else mret (with_learnMore (learnMore_href p) "none" p).

(** [sys.tickInterval ?? 1000] *)
Definition tick_delay (sys : JsVal) : JsVal :=
  nullish_coalesce (prop sys "tickInterval") (JNum 1000).

Definition switchSystem (id : string) (now : Date) (p : Page) : Outcome Page :=
  let sys := getSystem r id in
  if negb (truthy sys) then mret p
  else
    let p := with_visualContainer (clearVisual (visualContainer p)) p in
    let p := with_currentSystem sys p in
    let p := clearInterval (tickHandle p) p in
    p ← tick now p;
    '(handle, p) ← of_completion (setInterval (tick_delay sys) p);
    let p := with_tickHandle (Some handle) p in
    p ← of_completion (updateLearnMoreLink p);
    mret (with_saved_system (Some id) p).

(** [init], up to the registration of the listener; [None] is the [null]
    that [getItem] returns for an item that is not there. *)
Definition init (now : Date) (p : Page) : Outcome Page :=
  let p := populateSelector p in
  let otherwise :=
    p ← tick now p;
    '(handle, p) ← of_completion (setInterval (tick_delay (currentSystem p)) p);
    let p := with_tickHandle (Some handle) p in
    of_completion (updateLearnMoreLink p) in
  match saved_system p with
  | Some saved =>
      if truthy (JStr saved) && truthy (getSystem r saved) then
        p ← set_selector_value saved p;
        switchSystem saved now p
      else otherwise
  | None => otherwise
  end.

(** What happens once [init] has returned: the user picks the option at
    the child [choice] of the selector, or the interval of handle [handle]
    comes due. *)
Inductive Event : Type :=
| Change (choice : nat) (now : Date)
| Due (handle : nat) (now : Date).

(** The list offers the user the options that are not disabled, unless it
    is disabled itself, and a [change] comes of the choice of another option
    than the selected one. *)
Definition offered (p : Page) (choice : nat) : bool :=
  negb (has_attribute "disabled" (selector p)) &&
  match childNodes_of (selector p) !! choice with
  | Some kid => is_enabled_option kid
  | None => false
  end &&
  negb (bool_decide (selected p = Some choice)).

(** The listener of [change] reads [e.target.value], the value of the
    selector after the choice.  A choice that is not offered and an interval
    that is not set are no events: the page stays as it is. *)
Definition dispatch (p : Page) (e : Event) : Outcome Page :=
  match e with
  | Change choice now =>
      if negb (dropdown (selector p)) then Beyond
      else if offered p choice then
        let p := with_selected (Some choice) p in
        switchSystem (selector_value p) now p
      else mret p
  | Due handle now =>
      if bool_decide (handle ∈ (intervals p).*1) then tick now p else mret p
  end.

(** The events in turn, as long as none of them throws. *)
Fixpoint run (events : list Event) (p : Page) : Outcome Page :=
  match events with
  | [] => mret p
  | e :: events' => p' ← dispatch p e; run events' p'
  end.

(** The page as the module finds it: the module state as its declarations
    leave it, no interval set, a selector that is a drop-down list with the
    selection that goes with its options, and a visual container that is an
    element without a scaffold. *)
Definition loaded (p : Page) : Prop :=
  currentSystem p = getDefaultSystem r /\
  tickHandle p = None /\
  intervals p = [] /\
  dropdown (selector p) = true /\
  selection_fits (selector p) (selected p) = true /\
  (exists tag attrs kids, visualContainer p = Elem tag attrs kids) /\
  querySelector "visual__svg" (visualContainer p) = None.

(** The values of the options of the selector. *)
Definition option_values (p : Page) : list string :=
  omap (getAttribute "value") (childNodes_of (selector p)).

(** [visual.type] is one of the cases of the [switch]. *)
Definition has_case (visual : JsVal) : bool :=
  match prop visual "type" with
  | JStr type =>
      bool_decide (type = "progress-bar") || bool_decide (type = "progress-ring") ||
      bool_decide (type = "clock")
  | _ => false
  end.

(** A provider that keeps to the types it is declared with, as far as the
    page uses it: [format] returns a display at every date; a [visual] that
    has a case has the accessor and the number of its type, and the accessor
    returns at every date; [tickInterval] converts to a number, and
    [learnMoreUrl] to a string. *)
Definition well_behaved (sys : JsVal) : Prop :=
  (forall format now,
     Main.tick_format sys = Normal format ->
     exists output, call_format format sys now = Returns output) /\
  (truthy (prop sys "visual") = true ->
   forall now, exists definition, read_visual (prop sys "visual") now = Returns definition) /\
  ToNumber (tick_delay sys) = Normal tt /\
  (truthy (prop sys "learnMoreUrl") = true ->
   ToString (prop sys "learnMoreUrl") = Normal tt).

(** The visual container between events, for the container [container0] that
    the module found: it holds the scaffold of the visual of the current
    system, at its end, when that system has a visual with a case, and is as
    it was found otherwise. *)
Definition fits (container0 : Node) (sys : JsVal) (container : Node) : Prop :=
  if truthy (prop sys "visual") && has_case (prop sys "visual")
  then exists date definition svg,
         read_visual (prop sys "visual") date = Returns (Some definition) /\
         container = appendChild svg container0 /\
         VisualSpec.rendered definition svg
  else container = container0.

(** The page as a call of [switchSystem] may find it, at the load or later:
    at most the scaffold of some visual in the container, at most the
    interval of [tickHandle] set, at most a rendering in the display. *)
Definition ready (container0 display0 : Node) (p : Page) : Prop :=
  (visualContainer p = container0 \/
   exists svg,
     visualContainer p = appendChild svg container0 /\
     has_class "visual__svg" svg = true) /\
  ((tickHandle p = None /\ intervals p = []) \/
   exists handle delay, tickHandle p = Some handle /\ intervals p = [(handle, delay)]) /\
  (display p = display0 \/ exists output, display p = render output display0).

(** The page between events. *)
Definition settled (container0 display0 : Node) (p : Page) : Prop :=
  currentSystem p ∈ getAllSystems r /\
  (exists handle,
     tickHandle p = Some handle /\
     intervals p = [(handle, tick_delay (currentSystem p))]) /\
  fits container0 (currentSystem p) (visualContainer p) /\
  (exists format now output,
     Main.tick_format (currentSystem p) = Normal format /\
     call_format format (currentSystem p) now = Returns output /\
     display p = render output display0) /\
  (if truthy (prop (currentSystem p) "learnMoreUrl")
   then learnMore_href p = prop (currentSystem p) "learnMoreUrl" /\
        learnMore_display p = ""
   else learnMore_display p = "none") /\
  dropdown (selector p) = true.

End WithHost.
End App.
(** ** systems/decimal-french.ts: the date

    The numbers of this part are integers far below 2^53, where binary64
    arithmetic is exact: they are modelled in [Z], [%] as [Z.rem] and
    [Math.floor] of a quotient as [Z.div]. *)

Module DecimalFrench.

Definition MONTHS : list string :=
  ["Vendémiaire"; "Brumaire"; "Frimaire"; "Nivôse"; "Pluviôse"; "Ventôse";
   "Germinal"; "Floréal"; "Prairial"; "Messidor"; "Thermidor"; "Fructidor"].

Definition COMPLEMENTARY : list string :=
  ["La Fête de la Vertu"; "La Fête du Génie"; "La Fête du Travail";
   "La Fête de l'Opinion"; "La Fête des Récompenses"; "La Fête de la Révolution"].

Definition lookup : list (Z * string) :=
  [(1000, "M"); (900, "CM"); (500, "D"); (400, "CD"); (100, "C"); (90, "XC");
   (50, "L"); (40, "XL"); (10, "X"); (9, "IX"); (5, "V"); (4, "IV"); (1, "I")]%Z.

(** [while (num >= value) { result += numeral; num -= value; }], for [fuel]
    passes at most. *)
Fixpoint while_at_least (fuel : nat) (value : Z) (numeral : string)
    (result : string) (num : Z) : string * Z :=
  match fuel with
  | O => (result, num)
  | S fuel' =>
      if (value <=? num)%Z
      then while_at_least fuel' value numeral (result +:+ numeral) (num - value)
      else (result, num)
  end.

(** No pass leaves [num] larger and each takes one off it at least: [num]
    passes are enough for every loop. *)
Definition toRomanNumeral (num : Z) : string :=
  (foldl (fun st entry => while_at_least (Z.to_nat num) entry.1 entry.2 st.1 st.2)
     ("", num) lookup).1.

Definition isRepublicanLeapYear (year : Z) : bool :=
  if (year <? 3)%Z then false
  else if (year <=? 20)%Z then (Z.rem (year - 3) 4 =? 0)%Z
  else (Z.rem year 4 =? 0)%Z && (negb (Z.rem year 100 =? 0)%Z || (Z.rem year 400 =? 0)%Z).

Record Republican : Type := mkRepublican {
  year : Z;
  month : Z;
  day : Z;
  isComplementary : bool;
}.

(** The loop [while (true)] that counts through the years, for [fuel] passes
    at most; [None] when they run out. *)
Fixpoint count_years (fuel : nat) (remainingDays year : Z) : option (Z * Z) :=
  match fuel with
  | O => None
  | S fuel' =>
      let daysInYear := if isRepublicanLeapYear year then 366%Z else 365%Z in
      if (remainingDays <? daysInYear)%Z then Some (remainingDays, year)
      else count_years fuel' (remainingDays - daysInYear)%Z (year + 1)%Z
  end.

(** [gregorianToRepublican], from [daysSinceEpoch] on; the host computes that
    from the date and the local midnight of 22 September 1792. *)
Definition gregorianToRepublican (daysSinceEpoch : Z) : option Republican :=
  if (daysSinceEpoch <? 0)%Z then Some (mkRepublican 0 0 1 false)
  else
    match count_years (S (Z.to_nat daysSinceEpoch)) daysSinceEpoch 1 with
    | Some (remainingDays, year) =>
        if (360 <=? remainingDays)%Z
        then Some (mkRepublican year (-1) (remainingDays - 360) true)
        else Some (mkRepublican year (remainingDays / 30) (Z.rem remainingDays 30 + 1) false)
    | None => None
    end.

(** [xs[i]]: [undefined], here [None], out of the array. *)
Definition index {A : Type} (xs : list A) (i : Z) : option A :=
  if (i <? 0)%Z then None else xs !! Z.to_nat i.

(** [dateStr] in [format]. *)
Definition dateStr (rep : Republican) : string :=
  if isComplementary rep
  then default ("Jour complémentaire " +:+ pretty (day rep + 1)%Z)
         (index COMPLEMENTARY (day rep))
  else pretty (day rep) +:+ " " +:+ default "undefined" (index MONTHS (month rep)).

(** [date.era] in [format]. *)
Definition era (rep : Republican) : string := "An " +:+ toRomanNumeral (year rep).

(** *** Notions for the statements below *)

Definition roman_digit (c : Ascii.ascii) : Z :=
  match String c "" with
  | "M" => 1000
  | "D" => 500
  | "C" => 100
  | "L" => 50
  | "X" => 10
  | "V" => 5
  | "I" => 1
  | _ => 0
  end.

(** The number that a Roman numeral stands for: a digit before a larger one
    is taken off. *)
Fixpoint roman_value (s : string) : Z :=
  match s with
  | EmptyString => 0
  | String c s' =>
      match s' with
      | EmptyString => roman_digit c
      | String c' _ =>
          if (roman_digit c <? roman_digit c')%Z
          then (roman_value s' - roman_digit c)%Z
          else (roman_value s' + roman_digit c)%Z
      end
  end.

Fixpoint repeat_string (n : nat) (s : string) : string :=
  match n with
  | O => ""
  | S n' => s +:+ repeat_string n' s
  end.

(** One entry of the table without the loop: the numeral as often as the
    value goes into the number, and the rest. *)
Definition take_entry (st : string * Z) (entry : Z * string) : string * Z :=
  (st.1 +:+ repeat_string (Z.to_nat (st.2 / entry.1)) entry.2, (st.2 mod entry.1)%Z).

Definition days_in_year (year : Z) : Z :=
  if isRepublicanLeapYear year then 366 else 365.

(** The days of the [n] years from [year] on. *)
Fixpoint days_of_years (n : nat) (year : Z) : Z :=
  match n with
  | O => 0
  | S n' => (days_in_year year + days_of_years n' (year + 1))%Z
  end.

(** The days of the years before [year], from year 1 on. *)
Definition days_before (year : Z) : Z := days_of_years (Z.to_nat (year - 1)) 1.

(** The day of the year that a date names, from 0. *)
Definition day_of_year (rep : Republican) : Z :=
  if isComplementary rep then (360 + day rep)%Z
  else (30 * month rep + (day rep - 1))%Z.

End DecimalFrench.

(** ** systems/standard.ts: the clock *)

Module Standard.

#[local] Open Scope float_scope.

(** [getHands] of the visual, for the hour, the minute and the second that
    the date has in local time; [getHours()] is below 24, and [%] is the
    remainder of natural numbers there. *)
Definition getHands (getHours getMinutes getSeconds : nat) : Hands :=
  let hours := number_of_nat (getHours mod 12) in
  let minutes := number_of_nat getMinutes in
  let seconds := number_of_nat getSeconds in
  mkHands (hours + minutes / 60) ((minutes + seconds / 60) * (100 / 60))
    (Some (seconds * (100 / 60))).

(** [standard.visual], for a host that tells the local time of a date. *)
Definition visual (local_time : Date -> nat * nat * nat) : ClockVisual :=
  mkClockVisual 12
    (fun date => let '(h, m, s) := local_time date in getHands h m s).

(** All three hands are within the face: below the divisions for the hour,
    below 100 for the minute and the second, and none negative. *)
Definition hands_within (divisions : float) (hands : Hands) : bool :=
  PrimFloat.leb 0 (hour hands) && PrimFloat.ltb (hour hands) divisions &&
  PrimFloat.leb 0 (minute hands) && PrimFloat.ltb (minute hands) 100 &&
  match second hands with
  | Some s => PrimFloat.leb 0 s && PrimFloat.ltb s 100
  | None => false
  end.

End Standard.

(** ** More sample data *)

Module MoreSamples.

(** [ProgressRing{max: 1000, getValue: () => 1500}] *)
Definition overfull_ring : ProgressRingVisual :=
  mkProgressRingVisual 1000 (fun _ => 1500%float).

End MoreSamples.
Import MoreSamples.

(** ** Sample data for the page *)

Module AppSamples.
Import App.

(** The standard system with its clock and the kiloseconds with their bar,
    as far as the page reads them. *)
Definition sample_clock_system : JsVal :=
  JObj (list_to_map
          [("id", JStr "standard"); ("name", JStr "Standard Time");
           ("description", JStr "Gregorian calendar with 24-hour time");
           ("category", JStr "standard"); ("tickInterval", JNum 1000);
           ("learnMoreUrl", JStr "https://en.wikipedia.org/wiki/Gregorian_calendar");
           ("visual",
            JObj (list_to_map
                    [("type", JStr "clock"); ("divisions", JNum 12);
                     ("getHands", JFun 10)]));
           ("format", JFun 0)]).

Definition sample_bar_system : JsVal :=
  JObj (list_to_map
          [("id", JStr "kiloseconds"); ("name", JStr "Kiloseconds");
           ("description", JStr "SI-prefix time: today measured in kiloseconds");
           ("category", JStr "metric"); ("tickInterval", JNum 1000);
           ("learnMoreUrl", JStr "https://en.wikipedia.org/wiki/Metric_time");
           ("visual",
            JObj (list_to_map
                    [("type", JStr "progress-bar"); ("max", JNum 86.4);
                     ("getValue", JFun 11)]));
           ("format", JFun 1)]).

Definition sample_systems : list JsVal :=
  [sample_clock_system; sample_epoch_seconds; sample_bar_system].

Definition sample_registry : RegistryMap :=
  [("standard", sample_clock_system); ("epoch-seconds", sample_epoch_seconds);
   ("kiloseconds", sample_bar_system)].

(** Providers for the examples: every [format] returns the same display,
    every [getValue] the half of a hundred and every [getHands] three
    o'clock, except for the functions 20, which throws, and 21, which
    returns something of another type. *)
Definition sample_providers : Providers :=
  {| call_format := fun f _ _ =>
       if bool_decide (f = 20%nat) then Throws (Thrown 0)
       else if bool_decide (f = 21%nat) then Beyond
       else Returns (Unified widgets);
     call_getValue := fun f _ _ =>
       if bool_decide (f = 20%nat) then Throws (Thrown 0)
       else if bool_decide (f = 21%nat) then Beyond
       else Returns 50%float;
     call_getHands := fun f _ date =>
       if bool_decide (f = 20%nat) then Throws (Thrown 0)
       else if bool_decide (f = 21%nat) then Beyond
       else Returns (getHands three_oclock date) |}.

(** The page of the specification before the module runs, with [saved] in
    the local storage. *)
Definition sample_page (saved : option string) : Page :=
  mkPage (Elem "select" [("id", "system-selector")] []) None
    sample_target (Elem "div" [("id", "time-display")] [])
    JUndefined "" (getDefaultSystem sample_registry) None [] 1 saved.

(** The user picks the kiloseconds, the interval comes due, the user picks
    the epoch seconds, and then an option that is not there. *)
Definition sample_events : list Event :=
  [Change 2 1%Z; Due 2 2%Z; Change 1 3%Z; Change 7 4%Z].

(** A provider with the four fields that [validateSystem] asks for, and
    [value] at [field]. *)
Definition sample_with (field : string) (value : JsVal) : JsVal :=
  JObj (<[field := value]>
          (list_to_map
             [("id", JStr "standard"); ("name", JStr "Standard Time");
              ("description", JStr "Gregorian calendar with 24-hour time");
              ("format", JFun 0)])).

(** The page with the provider [sys] as the current system. *)
Definition sample_page_of (sys : JsVal) : Page :=
  mkPage (Elem "select" [("id", "system-selector")] []) None
    sample_target (Elem "div" [("id", "time-display")] [])
    JUndefined "" sys None [] 1 None.

End AppSamples.
Import AppSamples.
(** * Properties *)

Lemma for_of_app {A St} (body : St -> A -> Completion St) s xs ys :
  for_of body s (xs ++ ys) = (s' ← for_of body s xs; for_of body s' ys).
Proof.
  revert s. induction xs as [|x xs IH]; intros s; simpl; [done|].
  destruct (body s x) as [s'|e]; simpl; [apply IH | done].
Qed.

(** ** The registry *)

Module RegistryFacts.

Lemma validateSystem_inv s :
  validateSystem s = true ->
  exists props id, s = JObj props /\ prop s "id" = JStr id /\ system_id s = id.
Proof.
  unfold validateSystem, system_id. destruct s; simpl; try done.
  - destruct b; done.
  - destruct (PrimFloat.is_zero x || PrimFloat.is_nan x); done.
  - destruct (bool_decide (s = "")); done.
  - intros Hv. exists props.
    destruct (default JUndefined (props !! "id")); simpl in Hv; try done.
    eauto.
Qed.

Lemma validateSystem_not_nullish s : validateSystem s = true -> is_nullish s = false.
Proof. intros (props & id & -> & _)%validateSystem_inv. done. Qed.

Lemma Map_has_true (m : RegistryMap) k : Map_has m k = true <-> k ∈ m.*1.
Proof. unfold Map_has. apply bool_decide_eq_true. Qed.

Lemma Map_set_fresh (m : RegistryMap) k v : k ∉ m.*1 -> Map_set m k v = m ++ [(k, v)].
Proof.
  induction m as [|[k' v'] m IH]; simpl; [done|].
  intros Hk. apply not_elem_of_cons in Hk as [Hne Hk].
  rewrite bool_decide_eq_false_2 by done. by rewrite IH.
Qed.

Section WithCalls.
Context `{!JsCalls}.


(** The step of the loop, on a candidate that it gets past. *)
Lemma register_step_normal st s :
  passes s = true ->
  exists log,
    register_step st s =
      Normal (mkState
                (registry st ++
                   if validateSystem s && negb (bool_decide (system_id s ∈ (registry st).*1))
                   then [(system_id s, s)] else [])
                log).
Proof.
  unfold passes, register_step, get_prop.
  destruct (validateSystem s); simpl.
  - intros _. unfold Map_has.
    destruct (decide (system_id s ∈ (registry st).*1)) as [Hin|Hout].
    + rewrite !bool_decide_eq_true_2 by done. simpl. rewrite app_nil_r. eauto.
    + rewrite !bool_decide_eq_false_2 by done. simpl.
      rewrite Map_set_fresh by done. eauto.
  - destruct (is_nullish s); simpl; [done|].
    destruct (ToString _) as [[]|e]; simpl; [|done].
    intros _. rewrite app_nil_r. eauto.
Qed.

(** On any other candidate the step ends the loop with an exception: reading
    [id] of [null] or [undefined] throws, and so does printing an [id] that
    has no string. *)
Lemma register_step_throws st s :
  passes s = false -> exists e, register_step st s = Throw e.
Proof.
  unfold passes, register_step, get_prop.
  destruct (validateSystem s); simpl; [done|].
  destruct (is_nullish s); simpl; [by eexists|].
  destruct (ToString _) as [[]|e]; simpl; [done|]. by eexists.
Qed.

Lemma register_step_nullish st s : is_nullish s = true -> register_step st s = Throw TypeError.
Proof.
  intros Hs. unfold register_step, get_prop. rewrite Hs.
  destruct (validateSystem s) eqn:Hv; [|done].
  apply validateSystem_not_nullish in Hv. congruence.
Qed.

(** The loop computes the registry of the specification, from any state. *)
Lemma for_of_register_step systems st :
  Forall (fun s => passes s = true) systems ->
  exists log,
    for_of register_step st systems =
      Normal (mkState (registry st ++ accepted_entries (registry st).*1 systems) log).
Proof.
  intros Hall. revert st. induction Hall as [|s systems Hs _ IH]; intros st; simpl.
  - rewrite app_nil_r. destruct st. eauto.
  - destruct (register_step_normal st s Hs) as [log ->]. simpl.
    destruct (IH (mkState
                    (registry st ++
                       (if validateSystem s &&
                           negb (bool_decide (system_id s ∈ (registry st).*1))
                        then [(system_id s, s)] else [])) log)) as [log' ->].
    exists log'. simpl. do 2 f_equal.
    destruct (validateSystem s && negb (bool_decide (system_id s ∈ (registry st).*1))).
    + rewrite fmap_app. simpl. by rewrite <- app_assoc.
    + by rewrite !app_nil_r.
Qed.

Lemma register_refines systems :
  Forall (fun s => passes s = true) systems ->
  exists log, register systems = Normal (mkState (accepted_entries [] systems) log).
Proof. intros Hall. apply (for_of_register_step systems (mkState [] []) Hall). Qed.

(** Registration throws when the loop meets a candidate that it does not
    get past. *)
Lemma register_throws systems :
  Exists (fun s => passes s = false) systems -> exists e, register systems = Throw e.
Proof.
  unfold register. generalize (mkState [] []).
  induction systems as [|s systems IH]; intros st Hex; [by apply Exists_nil in Hex|].
  simpl. destruct (passes s) eqn:Hs.
  - destruct (register_step_normal st s Hs) as [log ->]. simpl. apply IH.
    apply Exists_cons in Hex as [?|?]; [congruence | done].
  - destruct (register_step_throws st s Hs) as [e ->]. by exists e.
Qed.

Lemma passes_dec (systems : list JsVal) :
  Forall (fun s => passes s = true) systems \/
  Exists (fun s => passes s = false) systems.
Proof.
  induction systems as [|s systems [IH|IH]].
  - left. constructor.
  - destruct (passes s) eqn:Hs.
    + left. by constructor.
    + right. by left.
  - right. by right.
Qed.

(** A registration that completes has got past every candidate. *)
Lemma register_normal_passes systems st :
  register systems = Normal st -> Forall (fun s => passes s = true) systems.
Proof.
  intros Hreg. destruct (passes_dec systems) as [Hall|Hex]; [done|].
  destruct (register_throws systems Hex) as [e He]. congruence.
Qed.

(** A registration that completes has built the registry of the
    specification. *)
Lemma register_normal_inv systems st :
  register systems = Normal st -> registry st = accepted_entries [] systems.
Proof.
  intros Hreg.
  destruct (register_refines systems (register_normal_passes _ _ Hreg)) as [log Hlog].
  rewrite Hlog in Hreg. by inversion Hreg.
Qed.

End WithCalls.

Lemma accepted_entries_valid taken systems k v :
  (k, v) ∈ accepted_entries taken systems ->
  validateSystem v = true /\ system_id v = k /\ v ∈ systems /\ k ∉ taken.
Proof.
  revert taken. induction systems as [|s systems IH]; intros taken; simpl.
  - by intros ?%elem_of_nil.
  - destruct (validateSystem s) eqn:Hv; simpl.
    + destruct (decide (system_id s ∈ taken)) as [Hin|Hout].
      * rewrite bool_decide_eq_true_2 by done. simpl.
        intros (? & ? & ? & ?)%IH. repeat split; try done. by right.
      * rewrite bool_decide_eq_false_2 by done. simpl.
        intros [Heq|Hin]%elem_of_cons.
        -- inversion Heq; subst. repeat split; try done. by left.
        -- apply IH in Hin as (? & ? & ? & Hk). repeat split; try done; [by right|].
           intros ?. apply Hk. apply elem_of_app. by left.
    + intros (? & ? & ? & ?)%IH. repeat split; try done. by right.
Qed.

Lemma accepted_entries_NoDup taken systems : NoDup (accepted_entries taken systems).*1.
Proof.
  revert taken. induction systems as [|s systems IH]; intros taken; simpl.
  - constructor.
  - destruct (validateSystem s && negb (bool_decide (system_id s ∈ taken))); [|apply IH].
    simpl. constructor; [|apply IH].
    intros ((k & v) & Hk & Hin)%list_elem_of_fmap. simpl in Hk. subst k.
    apply accepted_entries_valid in Hin as (_ & _ & _ & Hout).
    apply Hout. apply elem_of_app. right. by left.
Qed.

Lemma accepted_entries_sublist taken systems :
  sublist (accepted_entries taken systems).*2 systems.
Proof.
  revert taken. induction systems as [|s systems IH]; intros taken; simpl.
  - constructor.
  - destruct (validateSystem s && negb (bool_decide (system_id s ∈ taken))); simpl.
    + by apply sublist_skip.
    + by apply sublist_cons.
Qed.

Lemma Map_get_absent (m : RegistryMap) k : k ∉ m.*1 -> Map_get m k = JUndefined.
Proof.
  induction m as [|[k' v'] m IH]; simpl; [done|].
  intros [Hne Hk]%not_elem_of_cons. rewrite bool_decide_eq_false_2 by done. by apply IH.
Qed.

(** Lookup by id finds the first valid candidate with that id, unless the id
    is taken already. *)
Lemma Map_get_accepted_entries taken systems id :
  Map_get (accepted_entries taken systems) id =
    if bool_decide (id ∈ taken) then JUndefined
    else default JUndefined (first_valid_with_id systems id).
Proof.
  unfold first_valid_with_id.
  revert taken. induction systems as [|s systems IH]; intros taken; simpl.
  - by destruct (bool_decide (id ∈ taken)).
  - destruct (validateSystem s) eqn:Hv; simpl; [|apply IH].
    destruct (decide (system_id s ∈ taken)) as [Hin|Hout].
    + rewrite bool_decide_eq_true_2 by done. simpl. rewrite IH.
      destruct (decide (system_id s = id)) as [<-|Hne].
      * by rewrite !bool_decide_eq_true_2.
      * by rewrite (bool_decide_eq_false_2 (system_id s = id)).
    + rewrite bool_decide_eq_false_2 by done. simpl.
      destruct (decide (system_id s = id)) as [<-|Hne].
      * rewrite bool_decide_eq_true_2 by done. simpl.
        by rewrite bool_decide_eq_false_2.
      * rewrite !(bool_decide_eq_false_2 (system_id s = id)) by done. rewrite IH.
        destruct (decide (id ∈ taken)).
        -- rewrite !bool_decide_eq_true_2; [done | done |].
           apply elem_of_app. by left.
        -- rewrite !bool_decide_eq_false_2; [done | done |].
           intros [?|Heq%list_elem_of_singleton]%elem_of_app; congruence.
Qed.

Lemma Map_get_elem_of (m : RegistryMap) k v :
  NoDup m.*1 -> (k, v) ∈ m -> Map_get m k = v.
Proof.
  induction m as [|[k' v'] m IH]; simpl; [by intros _ ?%elem_of_nil|].
  intros [Hk' Hnd]%NoDup_cons [Heq|Hin]%elem_of_cons.
  - inversion Heq; subst. by rewrite bool_decide_eq_true_2.
  - rewrite bool_decide_eq_false_2; [by apply IH|].
    intros ->. apply Hk'. by apply (list_elem_of_fmap_2 fst) in Hin.
Qed.

Lemma typeof_string v : typeof v = "string" -> exists s, v = JStr s.
Proof. destruct v; simpl; try done. eauto. Qed.

Lemma typeof_function v : typeof v = "function" -> exists f, v = JFun f.
Proof. destruct v; simpl; try done. eauto. Qed.

Lemma default_undefined_inv (o : option JsVal) v :
  default JUndefined o = v -> v <> JUndefined -> o = Some v.
Proof. destruct o; simpl; congruence. Qed.

(** [validateSystem] accepts exactly the well-formed candidates. *)
Lemma validateSystem_well_formed c : validateSystem c = true <-> well_formed c.
Proof.
  split.
  - intros Hv. destruct (validateSystem_inv c Hv) as (props & id0 & -> & _ & _).
    unfold validateSystem in Hv. simpl in Hv.
    apply andb_prop in Hv as [Hv Hformat]. apply andb_prop in Hv as [Hv Hdescription].
    apply andb_prop in Hv as [Hid Hname].
    apply bool_decide_eq_true in Hid, Hname, Hdescription, Hformat.
    destruct (typeof_string _ Hid) as [id Hid'].
    destruct (typeof_string _ Hname) as [name Hname'].
    destruct (typeof_string _ Hdescription) as [description Hdescription'].
    destruct (typeof_function _ Hformat) as [format Hformat'].
    exists props, id, name, description, format.
    repeat split; by apply default_undefined_inv.
  - intros (props & id & name & description & format & -> & Hi & Hn & Hd & Hf).
    unfold validateSystem. simpl. by rewrite Hi, Hn, Hd, Hf.
Qed.

Lemma filter_none {A} (P : A -> Prop) `{!forall x, Decision (P x)} (l : list A) :
  Forall (fun x => ~ P x) l -> filter P l = [].
Proof. induction 1 as [|x l Hx _ IH]; [done|]. by rewrite filter_cons_False. Qed.

Lemma accepted_entries_first_valid taken l1 c l2 :
  validateSystem c = true ->
  system_id c ∉ taken ->
  (forall p, p ∈ l1 -> validateSystem p = true -> system_id p <> system_id c) ->
  (system_id c, c) ∈ accepted_entries taken (l1 ++ c :: l2).
Proof.
  intros Hv. revert taken. induction l1 as [|s l1 IH]; intros taken Hout Hfirst; simpl.
  - rewrite Hv, bool_decide_eq_false_2 by done. simpl. by left.
  - destruct (validateSystem s && negb (bool_decide (system_id s ∈ taken))) eqn:Hs.
    + right. apply IH.
      * apply andb_prop in Hs as [Hs _].
        intros [?|Heq%list_elem_of_singleton]%elem_of_app; [done|].
        eapply Hfirst; [by left | done | done].
      * intros p Hp. apply Hfirst. by right.
    + apply IH; [done|]. intros p Hp. apply Hfirst. by right.
Qed.

End RegistryFacts.

Module RegistryProperties.
Import RegistryFacts.

Lemma first_valid_with_id_None systems id :
  (forall p, p ∈ systems -> validateSystem p = true -> system_id p <> id) ->
  first_valid_with_id systems id = None.
Proof.
  unfold first_valid_with_id. induction systems as [|s systems IH]; simpl; [done|].
  intros Hno. destruct (validateSystem s) eqn:Hv; simpl.
  - rewrite bool_decide_eq_false_2; [|apply Hno; [by left | done]].
    apply IH. intros p Hp. apply Hno. by right.
  - apply IH. intros p Hp. apply Hno. by right.
Qed.

Lemma first_valid_with_id_Some systems id v :
  first_valid_with_id systems id = Some v ->
  v ∈ systems /\ validateSystem v = true /\ system_id v = id.
Proof.
  unfold first_valid_with_id. intros [Hin Hv]%find_some.
  apply andb_prop in Hv as [Hv Hid%bool_decide_eq_true].
  by rewrite <- list_elem_of_In in Hin.
Qed.

Section WithCalls.
Context `{!JsCalls}.

Lemma getSystem_accepted systems st id :
  register systems = Normal st ->
  getSystem (registry st) id = default JUndefined (first_valid_with_id systems id).
Proof.
  intros ->%register_normal_inv. unfold getSystem.
  rewrite Map_get_accepted_entries. rewrite bool_decide_eq_false_2; [done|].
  by intros ?%elem_of_nil.
Qed.

Lemma getAllSystems_accepted systems st x :
  register systems = Normal st ->
  x ∈ getAllSystems (registry st) ->
  validateSystem x = true /\ x ∈ systems /\ getSystem (registry st) (system_id x) = x.
Proof.
  intros Hreg. pose proof (register_normal_inv _ _ Hreg) as Hr.
  unfold getAllSystems, Map_values, getSystem. rewrite Hr.
  intros ([k v] & -> & Hin)%list_elem_of_fmap. simpl.
  pose proof (accepted_entries_valid _ _ _ _ Hin) as (Hv & Hk & Hsys & _).
  repeat split; try done.
  rewrite Hk. apply Map_get_elem_of; [apply accepted_entries_NoDup | done].
Qed.

(** The candidate [undefined] is rejected by [validateSystem], and building
    the warning for it throws: the loop reads [system.id] on it. *)
Lemma register_undefined_throws :
  validateSystem JUndefined = false /\
  register [sample_standard; JUndefined] = Throw TypeError /\
  register [JNull] = Throw TypeError.
Proof. repeat split. Qed.


(** C2.  For every registration list that has two valid providers [p] and
    [q] with the same id, [p] being the first valid one with that id, once
    the registration has completed: [getSystem] of the id returns [p];
    whatever [getAllSystems] lists under that id is [p], and it lists one
    provider under it, so the later [q] is not listed; no two providers of
    [getAllSystems] share an id, each is what [getSystem] returns for its id,
    and [getAllSystems] keeps the order of the registration list. *)
Theorem first_registered_wins (l1 l2 l3 : list JsVal) (p q : JsVal) (st : State) :
  let systems := l1 ++ p :: l2 ++ q :: l3 in
  register systems = Normal st ->
  validateSystem p = true ->
  validateSystem q = true ->
  system_id q = system_id p ->
  (forall x, x ∈ l1 -> validateSystem x = true -> system_id x <> system_id p) ->
  getSystem (registry st) (system_id p) = p /\
  (forall x, x ∈ getAllSystems (registry st) -> system_id x = system_id q -> x = p) /\
  length (filter (fun x => system_id x = system_id q) (getAllSystems (registry st))) = 1 /\
  NoDup (system_id <$> getAllSystems (registry st)) /\
  (forall x, x ∈ getAllSystems (registry st) ->
     getSystem (registry st) (system_id x) = x) /\
  sublist (getAllSystems (registry st)) systems.
Proof.
  intros systems Hreg Hp Hq Hid Hfirst.
  rewrite (register_normal_inv _ _ Hreg).
  pose proof (accepted_entries_NoDup [] systems) as Hnd.
  assert ((system_id p, p) ∈ accepted_entries [] systems) as Hin.
  { apply accepted_entries_first_valid; [done | by intros ?%elem_of_nil | done]. }
  assert (system_id <$> (accepted_entries [] systems).*2 = (accepted_entries [] systems).*1)
    as Hids.
  { rewrite <- list_fmap_compose. apply list_fmap_ext.
    intros i [k v] Hkv%list_elem_of_lookup_2. simpl.
    by apply accepted_entries_valid in Hkv as (_ & ? & _). }
  assert (forall x, x ∈ (accepted_entries [] systems).*2 ->
                    system_id x = system_id q -> x = p) as Honly.
  { intros x ([k v] & -> & Hx)%list_elem_of_fmap Hk. simpl in *.
    pose proof (accepted_entries_valid _ _ _ _ Hx) as (_ & Hkv & _).
    rewrite <- (Map_get_elem_of _ _ _ Hnd Hx), <- (Map_get_elem_of _ _ _ Hnd Hin).
    congruence. }
  unfold getSystem, getAllSystems, Map_values. repeat split.
  - by apply Map_get_elem_of.
  - exact Honly.
  - apply (list_elem_of_fmap_2 snd) in Hin. simpl in Hin.
    apply list_elem_of_split in Hin as (k1 & k2 & Hsplit).
    rewrite Hsplit in Hids, Honly |- *.
    rewrite <- Hids in Hnd. rewrite fmap_app, fmap_cons in Hnd.
    apply NoDup_app in Hnd as (_ & Hk1 & [Hk2 _]%NoDup_cons).
    rewrite filter_app, filter_cons_True by done.
    rewrite (filter_none _ k1), (filter_none _ k2); [done | |].
    + apply Forall_forall. intros x Hx Hxid. apply Hk2.
      rewrite <- Hid, <- Hxid. by apply list_elem_of_fmap_2.
    + apply Forall_forall. intros x Hx Hxid. apply (Hk1 (system_id x)).
      * by apply list_elem_of_fmap_2.
      * rewrite Hxid, Hid. by left.
  - by rewrite Hids.
  - intros x ([k v] & -> & Hx)%list_elem_of_fmap. simpl.
    pose proof (accepted_entries_valid _ _ _ _ Hx) as (_ & -> & _).
    by apply Map_get_elem_of.
  - apply accepted_entries_sublist.
Qed.

(** C3.  On the registry that a registration builds: when it has a provider
    with id ["standard"], [getDefaultSystem] returns that provider, wherever
    it stands; when it has none, [getDefaultSystem] returns the first
    provider in registration order; when it is empty, [getDefaultSystem] has
    no provider to return (the result is [undefined]) and the application's
    [init] throws on its first tick, whatever preference was saved. *)
Theorem getDefaultSystem_spec (systems : list JsVal) (st : State) :
  register systems = Normal st ->
  (forall p, p ∈ getAllSystems (registry st) -> system_id p = "standard" ->
     getDefaultSystem (registry st) = p) /\
  (forall p rest,
     getAllSystems (registry st) = p :: rest ->
     (forall x, x ∈ getAllSystems (registry st) -> system_id x <> "standard") ->
     getDefaultSystem (registry st) = p) /\
  (getAllSystems (registry st) = [] ->
     getDefaultSystem (registry st) = JUndefined /\
     forall saved, Main.init (registry st) saved = Throw TypeError).
Proof.
  intros Hreg. split; [|split].
  - intros p Hp Hstd.
    destruct (getAllSystems_accepted _ _ _ Hreg Hp) as (Hv & _ & Hget).
    unfold getDefaultSystem. unfold getSystem in Hget. rewrite <- Hstd, Hget.
    unfold nullish_coalesce. by rewrite validateSystem_not_nullish.
  - intros p rest Hall Hnone. unfold getDefaultSystem.
    rewrite Map_get_absent.
    + unfold getAllSystems in Hall. by rewrite Hall.
    + intros ([k v] & Hk & Hkv)%list_elem_of_fmap. simpl in Hk. subst k.
      apply (Hnone v).
      * by apply (list_elem_of_fmap_2 snd) in Hkv.
      * rewrite (register_normal_inv _ _ Hreg) in Hkv.
        by apply accepted_entries_valid in Hkv as (_ & ? & _).
  - intros Hnil. unfold getAllSystems, Map_values in Hnil.
    apply fmap_nil_inv in Hnil. rewrite Hnil. split; [done|].
    intros saved.
    by destruct saved as [| | | |s| |]; simpl; try destruct (bool_decide (s = "")).
Qed.

End WithCalls.



Lemma first_registered_wins_witness :
  exists st,
    @register sample_calls [sample_standard; sample_kiloseconds; sample_duplicate] =
      Normal st /\
    getSystem (registry st) "standard" = sample_standard /\
    length (filter (fun x => system_id x = "standard") (getAllSystems (registry st))) = 1.
Proof.
  eexists. split; [reflexivity|].
  destruct (@first_registered_wins sample_calls [] [sample_kiloseconds] []
              sample_standard sample_duplicate _ eq_refl eq_refl eq_refl eq_refl)
    as (Hget & _ & Hone & _).
  - by intros x ?%elem_of_nil.
  - split; [exact Hget | exact Hone].
Defined.

Lemma getDefaultSystem_spec_witness :
  exists st,
    @register sample_calls [sample_kiloseconds; sample_standard] = Normal st /\
    getDefaultSystem (registry st) = sample_standard.
Proof.
  eexists. split; [reflexivity|].
  apply (@getDefaultSystem_spec sample_calls [sample_kiloseconds; sample_standard] _ eq_refl).
  - right. left.
  - reflexivity.
Defined.

End RegistryProperties.
(** ** The DOM *)

Module DomFacts.

Lemma attr_get_set k v attrs : attr_get k (attr_set k v attrs) = Some v.
Proof.
  induction attrs as [|[k' v'] attrs IH]; simpl.
  - by rewrite bool_decide_eq_true_2.
  - destruct (decide (k' = k)) as [->|Hne].
    + rewrite bool_decide_eq_true_2 by done. simpl. by rewrite bool_decide_eq_true_2.
    + rewrite bool_decide_eq_false_2 by done. simpl. by rewrite bool_decide_eq_false_2.
Qed.

Lemma attr_get_set_ne k k' v attrs :
  k <> k' -> attr_get k' (attr_set k v attrs) = attr_get k' attrs.
Proof.
  intros Hne. induction attrs as [|[k0 v0] attrs IH]; simpl.
  - by rewrite bool_decide_eq_false_2.
  - destruct (decide (k0 = k)) as [->|Hne0].
    + rewrite bool_decide_eq_true_2 by done. simpl. by rewrite !bool_decide_eq_false_2.
    + rewrite (bool_decide_eq_false_2 (k0 = k)) by done. simpl. by rewrite IH.
Qed.

Lemma attr_set_idemp k v attrs : attr_set k v (attr_set k v attrs) = attr_set k v attrs.
Proof.
  induction attrs as [|[k' v'] attrs IH]; simpl.
  - by rewrite bool_decide_eq_true_2.
  - destruct (decide (k' = k)) as [->|Hne].
    + rewrite bool_decide_eq_true_2 by done. simpl. by rewrite bool_decide_eq_true_2.
    + rewrite bool_decide_eq_false_2 by done. simpl.
      rewrite bool_decide_eq_false_2 by done. by rewrite IH.
Qed.

(** The count of the matching descendants, child by child. *)
Lemma count_class_Elem cls tag attrs kids :
  count_class cls (Elem tag attrs kids) =
    sum_list_with (fun k => (if has_class cls k then 1 else 0) + count_class cls k) kids.
Proof. simpl. induction kids as [|k kids IH]; simpl; [done|]. by rewrite IH. Qed.

Lemma count_class_weight cls tag attrs kids :
  count_class cls (Elem tag attrs kids) = sum_list_with (weight cls) kids.
Proof. apply count_class_Elem. Qed.

Lemma weight_Elem cls tag c kids :
  weight cls (Elem tag [("class", c)] kids) =
    (if bool_decide (cls ∈ class_tokens c) then 1 else 0) + sum_list_with (weight cls) kids.
Proof.
  unfold weight at 1. rewrite count_class_weight. unfold has_class.
  cbn [getAttribute attr_get]. by rewrite bool_decide_eq_true_2.
Qed.

Lemma weight_Text cls data : weight cls (Text data) = 0.
Proof. done. Qed.

(** Induction on a tree, with the property at hand for every child. *)
Lemma Node_ind_children (P : Node -> Prop) :
  (forall data, P (Text data)) ->
  (forall tag attrs kids, Forall P kids -> P (Elem tag attrs kids)) ->
  forall n, P n.
Proof.
  intros HText HElem. fix IH 1. intros [data|tag attrs kids].
  - apply HText.
  - apply HElem. induction kids as [|k kids IHkids]; constructor; [apply IH | apply IHkids].
Qed.

Lemma querySelector_Elem cls tag attrs ks :
  querySelector cls (Elem tag attrs ks) = first_match cls ks.
Proof. done. Qed.

Lemma first_match_cons cls k ks :
  first_match cls (k :: ks) =
    if has_class cls k then Some [0]
    else match querySelector cls k with
         | Some r => Some (0 :: r)
         | None => into_next <$> first_match cls ks
         end.
Proof. done. Qed.

Lemma first_match_None_cons cls k ks :
  first_match cls (k :: ks) = None ->
  has_class cls k = false /\ querySelector cls k = None /\ first_match cls ks = None.
Proof.
  rewrite first_match_cons. destruct (has_class cls k); [done|].
  destruct (querySelector cls k); [done|].
  destruct (first_match cls ks); [done|]. done.
Qed.

(** Past children without a match, the search goes on in the next ones. *)
Lemma first_match_app cls ks ks' :
  first_match cls ks = None ->
  first_match cls (ks ++ ks') = shift_by (length ks) <$> first_match cls ks'.
Proof.
  induction ks as [|k ks IH]; simpl app.
  - intros _. destruct (first_match cls ks') as [[|i r]|]; done.
  - intros (Hk & Hq & Hks)%first_match_None_cons.
    rewrite first_match_cons, Hk, Hq, (IH Hks).
    destruct (first_match cls ks') as [[|i r]|]; done.
Qed.

Lemma first_match_None_app cls ks ks' :
  first_match cls ks = None -> first_match cls ks' = None ->
  first_match cls (ks ++ ks') = None.
Proof. intros Hks Hks'. by rewrite first_match_app, Hks'. Qed.

(** No match among the descendants: none to count. *)
Lemma querySelector_None_count cls n : querySelector cls n = None -> count_class cls n = 0.
Proof.
  induction n as [data|tag attrs kids IH] using Node_ind_children; [done|].
  rewrite querySelector_Elem, count_class_Elem.
  induction IH as [|k kids IHk _ IHkids]; [done|].
  intros (Hk & Hq & Hks)%first_match_None_cons.
  cbn [sum_list_with]. rewrite Hk, (IHk Hq), (IHkids Hks). done.
Qed.

Lemma node_at_last tag attrs ks n r :
  node_at (length ks :: r) (Elem tag attrs (ks ++ [n])) = node_at r n.
Proof.
  cbn [node_at childNodes_of]. rewrite lookup_app_r by lia.
  by rewrite Nat.sub_diag.
Qed.

Lemma update_at_last tag attrs ks n r f :
  update_at (length ks :: r) f (Elem tag attrs (ks ++ [n])) =
    Elem tag attrs (ks ++ [update_at r f n]).
Proof.
  cbn [update_at]. f_equal.
  replace (length ks) with (length ks + 0) by lia. by rewrite alter_app_r.
Qed.

(** A lookup below the last child of the root. *)
Lemma querySelector_from_last tag attrs ks n cls :
  querySelector_from (Elem tag attrs (ks ++ [n])) [length ks] cls =
    (fun r => length ks :: r) <$> querySelector cls n.
Proof.
  unfold querySelector_from. rewrite node_at_last. cbn [node_at mbind option_bind].
  by destruct (querySelector cls n).
Qed.

(** A root with a matching last child and no match before it. *)
Lemma querySelector_from_root_last tag attrs ks n cls :
  first_match cls ks = None ->
  has_class cls n = true ->
  querySelector_from (Elem tag attrs (ks ++ [n])) [] cls = Some [length ks].
Proof.
  intros Hks Hn. unfold querySelector_from. cbn [node_at mbind option_bind].
  rewrite querySelector_Elem, first_match_app by done.
  rewrite first_match_cons, Hn. simpl. by rewrite Nat.add_0_r.
Qed.

Lemma count_class_last cls tag attrs ks n :
  first_match cls ks = None ->
  count_class cls (Elem tag attrs (ks ++ [n])) =
    (if has_class cls n then 1 else 0) + count_class cls n.
Proof.
  intros Hks. rewrite count_class_Elem, sum_list_with_app.
  rewrite <- (count_class_Elem cls "" []).
  rewrite querySelector_None_count by done. simpl. lia.
Qed.

Lemma erase_attributes_Elem drop tag attrs kids :
  erase_attributes drop (Elem tag attrs kids) =
    Elem tag
      (List.filter
         (fun kv => negb (drop (default [] (class_tokens <$> attr_get "class" attrs)) kv.1))
         attrs)
      (List.map (erase_attributes drop) kids).
Proof. done. Qed.

Lemma erase_attributes_last drop tag attrs ks n n' :
  erase_attributes drop n = erase_attributes drop n' ->
  erase_attributes drop (Elem tag attrs (ks ++ [n])) =
    erase_attributes drop (Elem tag attrs (ks ++ [n'])).
Proof.
  intros Hn. rewrite !erase_attributes_Elem, !map_app. cbn [List.map]. by rewrite Hn.
Qed.

End DomFacts.

(** ** The renderer *)

Module RendererFacts.
Import DomFacts Renderer RendererSpec.

Lemma interleave_cons {A} (sep x : A) (xs : list A) :
  interleave sep (x :: xs) = x :: (xs ≫= fun y => [sep; y]).
Proof.
  revert x. induction xs as [|y xs IH]; intros x; [done|].
  change (interleave sep (x :: y :: xs)) with (x :: sep :: interleave sep (y :: xs)).
  by rewrite IH.
Qed.







Section WithHost.
Context `{!JsHost}.

(** The loop of [renderSegmented] after its first pass: every pass appends a
    separator and a segment. *)
Lemma forEach_later_segments d tag attrs ks i segs :
  0 < i ->
  forEach (segment_pass d) (Elem tag attrs ks) i segs =
  Elem tag attrs (ks ++ (segs ≫= fun seg => [segment_separator d; segment_element seg])).
Proof.
  revert ks i. induction segs as [|seg segs IH]; intros ks i Hi; simpl.
  - by rewrite app_nil_r.
  - unfold segment_pass at 2. rewrite bool_decide_eq_true_2 by done. simpl.
    rewrite IH by lia. by rewrite <- !app_assoc.
Qed.

Lemma forEach_segments d tag attrs segs :
  forEach (segment_pass d) (Elem tag attrs []) 0 segs =
  Elem tag attrs (interleave (segment_separator d) (segment_element <$> segs)).
Proof.
  destruct segs as [|seg segs]; [done|].
  rewrite fmap_cons, interleave_cons. cbn [forEach].
  unfold segment_pass at 2. rewrite bool_decide_eq_false_2 by lia. simpl.
  rewrite forEach_later_segments by lia. simpl.
  do 2 f_equal. induction segs as [|s segs IH]; [done|].
  simpl. do 2 f_equal. exact IH.
Qed.

Lemma renderSegmented_Elem d tag attrs kids :
  renderSegmented d (Elem tag attrs kids) =
    Elem tag attrs
      (kids ++
       [Elem "div" [("class", "display__segments")]
          (interleave (segment_separator d) (segment_element <$> segments d))]).
Proof.
  unfold renderSegmented. unfold set_className, createElement. simpl.
  by rewrite forEach_segments.
Qed.

Lemma if_truthy_Elem field make tag attrs ks :
  if_truthy field (fun s => appendChild (make s)) (Elem tag attrs ks) =
    Elem tag attrs (ks ++ optional_node make field).
Proof.
  unfold if_truthy, optional_node, field_painted. destruct field as [s|]; simpl.
  - destruct (bool_decide (s = "")); simpl; by rewrite ?app_nil_r.
  - by rewrite app_nil_r.
Qed.

Lemma optional_node_drop_empty make field :
  optional_node make (drop_empty field) = optional_node make field.
Proof.
  unfold drop_empty. destruct (field_painted field) eqn:Hf; [done|].
  unfold optional_node. rewrite Hf. by destruct field.
Qed.

Lemma renderUnified_Elem d tag attrs ks :
  renderUnified d (Elem tag attrs ks) =
    Elem tag attrs
      (ks ++
       [Elem "div" [("class", "display__main")]
          (optional_node (new_element "span" "display__prefix") (unified_prefix d) ++
           [new_element "span" "display__value" (unified_value d)] ++
           optional_node (new_element "span" "display__suffix") (unified_suffix d))] ++
       optional_node (new_element "div" "display__label") (unified_label d) ++
       optional_node (new_element "div" "display__sublabel") (unified_sublabel d)).
Proof.
  unfold renderUnified.
  change (set_className "display__main" (createElement "div"))
    with (Elem "div" [("class", "display__main")] []).
  rewrite if_truthy_Elem. cbn [appendChild]. rewrite if_truthy_Elem.
  cbn [appendChild]. rewrite !if_truthy_Elem. by rewrite <- !app_assoc.
Qed.

Lemma renderSplit_Elem d tag attrs ks :
  renderSplit d (Elem tag attrs ks) =
    Elem tag attrs
      (ks ++
       [Elem "div" [("class", "display__date")]
          (childNodes_of (new_element "div" "display__date" (date_formatted (split_date d)))
           ++ optional_node (fun s => new_element "span" "display__era" (" " +:+ s))
                (date_era (split_date d)));
        new_element "span" "display__separator" (default " • " (split_separator d));
        Elem "div" [("class", "display__time")]
          (childNodes_of (new_element "div" "display__time" (time_formatted (split_time d)))
           ++ optional_node (fun s => new_element "span" "display__period" (" " +:+ s))
                (time_period (split_time d)))]).
Proof.
  unfold renderSplit.
  change (new_element "div" "display__date" (date_formatted (split_date d)))
    with (Elem "div" [("class", "display__date")]
            (childNodes_of
               (new_element "div" "display__date" (date_formatted (split_date d))))).
  change (new_element "div" "display__time" (time_formatted (split_time d)))
    with (Elem "div" [("class", "display__time")]
            (childNodes_of
               (new_element "div" "display__time" (time_formatted (split_time d))))).
  rewrite !if_truthy_Elem. cbn [appendChild]. by rewrite <- !app_assoc.
Qed.

Lemma weight_new_element cls tag c text :
  weight cls (new_element tag c text) = if bool_decide (cls ∈ class_tokens c) then 1 else 0.
Proof.
  unfold weight, new_element, set_textContent, set_className, createElement, has_class.
  cbn [setAttribute getAttribute attr_set attr_get].
  rewrite bool_decide_eq_true_2 by done.
  destruct (bool_decide (text = "")); simpl; lia.
Qed.

Lemma sum_weight_optional_node cls tag c pre field :
  sum_list_with (weight cls)
    (optional_node (fun s => new_element tag c (pre +:+ s)) field) =
    if field_painted field
    then (if bool_decide (cls ∈ class_tokens c) then 1 else 0)
    else 0.
Proof.
  unfold optional_node. destruct field as [s|]; [|done].
  destruct (field_painted (Some s)); [|done].
  cbn [sum_list_with]. rewrite weight_new_element. lia.
Qed.

Lemma sum_weight_plain_node cls tag c field :
  sum_list_with (weight cls) (optional_node (new_element tag c) field) =
    if field_painted field
    then (if bool_decide (cls ∈ class_tokens c) then 1 else 0)
    else 0.
Proof. apply (sum_weight_optional_node cls tag c ""). Qed.

Lemma if_truthy_Text field make data :
  if_truthy field (fun s => appendChild (make s)) (Text data) = Text data.
Proof.
  unfold if_truthy. destruct field as [s|]; [|done]. by destruct (truthy (JStr s)).
Qed.

(** What [render] leaves under an element: its tag, its attributes with
    [class] set, and what the display paints on an empty element. *)
Lemma render_Elem display tag attrs kids :
  render display (Elem tag attrs kids) =
    Elem tag
      (attr_set "class" ("display display--" +:+ display_type display) attrs)
      (childNodes_of (render display (createElement "div"))).
Proof.
  unfold render, clear_innerHTML, set_className, setAttribute, createElement.
  destruct display as [d|d|d].
  - by rewrite !renderUnified_Elem.
  - by rewrite !renderSplit_Elem.
  - by rewrite !renderSegmented_Elem.
Qed.

Lemma render_Text display data : render display (Text data) = Text data.
Proof.
  unfold render. destruct display as [d|d|d]; cbn [clear_innerHTML set_className setAttribute].
  - unfold renderUnified. cbn [appendChild]. by rewrite !if_truthy_Text.
  - reflexivity.
  - reflexivity.
Qed.

End WithHost.
End RendererFacts.

Module RendererProperties.
Import DomFacts Renderer RendererSpec RendererFacts.
Section WithHost.
Context `{!JsHost}.

(** C4.  [render] is idempotent: rendering the same display twice into a
    target leaves it as rendering once does.  What [render] leaves does not
    depend on the children the target had: they are removed, the target's
    class is set to the classification of the variant, and the children
    painted are a function of the display alone. *)
Theorem render_idempotent (display : TimeDisplay) (container : Node) :
  render display (render display container) = render display container /\
  (forall tag attrs kids,
     render display (Elem tag attrs kids) = render display (Elem tag attrs []) /\
     getAttribute "class" (render display (Elem tag attrs kids)) =
       Some ("display display--" +:+ display_type display)) /\
  (exists painted, forall tag attrs kids,
     childNodes_of (render display (Elem tag attrs kids)) = painted).
Proof.
  split; [|split].
  - destruct container as [data|tag attrs kids].
    + by rewrite !render_Text.
    + rewrite !render_Elem. by rewrite attr_set_idemp.
  - intros tag attrs kids. rewrite !render_Elem. split; [done|].
    simpl. apply attr_get_set.
  - exists (childNodes_of (render display (createElement "div"))).
    intros tag attrs kids. by rewrite render_Elem.
Qed.


(** C9.  [render] treats an optional text field that holds the empty string
    as it treats a missing one.  For a unified display the target gets a
    prefix, suffix, label or sublabel node exactly when that field is present
    and not empty; for a split display the same holds of the era and period
    spans; and the whole output is the one for the display with its empty
    fields left out. *)
Theorem empty_field_is_absent (tag : string) (attrs : list (string * string))
    (kids : list Node) :
  field_painted (Some "") = field_painted None /\
  (forall d : UnifiedDisplay,
     let out := render (Unified d) (Elem tag attrs kids) in
     count_class "display__prefix" out = (if field_painted (unified_prefix d) then 1 else 0) /\
     count_class "display__suffix" out = (if field_painted (unified_suffix d) then 1 else 0) /\
     count_class "display__label" out = (if field_painted (unified_label d) then 1 else 0) /\
     count_class "display__sublabel" out =
       (if field_painted (unified_sublabel d) then 1 else 0) /\
     out =
       render
         (Unified
            (mkUnifiedDisplay (unified_value d) (drop_empty (unified_prefix d))
               (drop_empty (unified_suffix d)) (drop_empty (unified_label d))
               (drop_empty (unified_sublabel d))))
         (Elem tag attrs kids)) /\
  (forall d : SplitDisplay,
     let out := render (Split d) (Elem tag attrs kids) in
     count_class "display__era" out =
       (if field_painted (date_era (split_date d)) then 1 else 0) /\
     count_class "display__period" out =
       (if field_painted (time_period (split_time d)) then 1 else 0) /\
     out =
       render
         (Split
            (mkSplitDisplay
               (mkSplitDate (date_formatted (split_date d))
                  (drop_empty (date_era (split_date d))))
               (mkSplitTime (time_formatted (split_time d))
                  (drop_empty (time_period (split_time d)))
                  (time_unitLabels (split_time d)))
               (split_separator d)))
         (Elem tag attrs kids)).
Proof.
  split; [done|]. split.
  - intros d. cbv zeta. unfold render.
    cbn [clear_innerHTML set_className setAttribute].
    rewrite !renderUnified_Elem.
    cbn [unified_value unified_prefix unified_suffix unified_label unified_sublabel].
    rewrite !optional_node_drop_empty. split_and!; [..|done];
      rewrite count_class_weight; cbn [app];
      rewrite ?sum_list_with_app; cbn [sum_list_with];
      rewrite weight_Elem, ?sum_list_with_app; cbn [sum_list_with];
      rewrite !sum_weight_plain_node, weight_new_element;
      destruct (field_painted (unified_prefix d)), (field_painted (unified_suffix d)),
        (field_painted (unified_label d)), (field_painted (unified_sublabel d));
      vm_compute; reflexivity.
  - intros d. cbv zeta. unfold render.
    cbn [clear_innerHTML set_className setAttribute].
    rewrite !renderSplit_Elem.
    cbn [split_date split_time split_separator date_formatted date_era
           time_formatted time_period time_unitLabels].
    rewrite !optional_node_drop_empty. split_and!; [..|done];
      rewrite count_class_weight; cbn [app sum_list_with];
      rewrite !weight_Elem, !sum_list_with_app, !sum_weight_optional_node,
        weight_new_element;
      unfold new_element, set_textContent; cbn [childNodes_of];
      destruct (bool_decide (date_formatted (split_date d) = "")),
        (bool_decide (time_formatted (split_time d) = ""));
      cbn [sum_list_with]; rewrite ?weight_Text;
      destruct (field_painted (date_era (split_date d))),
        (field_painted (time_period (split_time d)));
      vm_compute; reflexivity.
Qed.

End WithHost.


End RendererProperties.

(** ** The visual renderer *)

(** Both sides of an equivalence between [is_Some] facts, the options known. *)
Ltac is_Some_iff := split; intros [? ?]; first [done | by eexists].

Module VisualFacts.
Import DomFacts VisualRenderer VisualSpec.
Section WithHost.
Context `{!JsHost}.

(** On a target without a scaffold, [svg] is a new last child. *)
Lemma svg_of_fresh build tag attrs ks :
  first_match "visual__svg" ks = None ->
  svg_of build (Elem tag attrs ks) = (Elem tag attrs (ks ++ [build]), [length ks]).
Proof.
  intros Hks. unfold svg_of, querySelector_from. cbn [node_at mbind option_bind].
  by rewrite querySelector_Elem, Hks.
Qed.

(** On a target whose last child is the scaffold, [svg] is that child. *)
Lemma svg_of_found build tag attrs ks svg :
  first_match "visual__svg" ks = None ->
  has_class "visual__svg" svg = true ->
  svg_of build (Elem tag attrs (ks ++ [svg])) = (Elem tag attrs (ks ++ [svg]), [length ks]).
Proof. intros Hks Hsvg. unfold svg_of. by rewrite querySelector_from_root_last. Qed.

Lemma scaffold_node_last tag attrs ks svg cls :
  first_match "visual__svg" ks = None ->
  has_class "visual__svg" svg = true ->
  scaffold_node (Elem tag attrs (ks ++ [svg])) cls =
    (r ← querySelector cls svg; node_at r svg).
Proof.
  intros Hks Hsvg. unfold scaffold_node.
  rewrite querySelector_from_root_last by done. cbn [mbind option_bind].
  rewrite querySelector_from_last.
  destruct (querySelector cls svg) as [r|]; [|done].
  cbn [fmap option_fmap option_map mbind option_bind]. apply node_at_last.
Qed.

(** *** Progress bar and progress ring: the scaffold in closed form *)

Lemma bar_svg_again w0 w : update_at [1] (setAttribute "width" w) (bar_svg w0) = bar_svg w.
Proof. vm_compute. reflexivity. Qed.

Lemma ring_svg_again o0 o :
  update_at [1] (setAttribute "stroke-dashoffset" o) (ring_svg o0) = ring_svg o.
Proof. vm_compute. reflexivity. Qed.

Lemma renderProgressBar_fresh visual date tag attrs ks :
  first_match "visual__svg" ks = None ->
  renderProgressBar visual date (Elem tag attrs ks) =
    Normal (Elem tag attrs (ks ++ [bar_svg (bar_width visual date)])).
Proof.
  intros Hks. unfold renderProgressBar. rewrite svg_of_fresh by done.
  rewrite querySelector_from_last.
  replace (querySelector "visual__fill" build_bar_svg) with (Some [1])
    by (vm_compute; reflexivity).
  cbn [fmap option_fmap option_map deref mbind Completion_bind mret Completion_ret].
  by rewrite update_at_last.
Qed.

Lemma renderProgressBar_again visual date tag attrs ks w0 :
  first_match "visual__svg" ks = None ->
  renderProgressBar visual date (Elem tag attrs (ks ++ [bar_svg w0])) =
    Normal (Elem tag attrs (ks ++ [bar_svg (bar_width visual date)])).
Proof.
  intros Hks. unfold renderProgressBar.
  rewrite svg_of_found; [|done|by vm_compute].
  rewrite querySelector_from_last.
  replace (querySelector "visual__fill" (bar_svg w0)) with (Some [1])
    by (vm_compute; reflexivity).
  cbn [fmap option_fmap option_map deref mbind Completion_bind mret Completion_ret].
  by rewrite update_at_last, bar_svg_again.
Qed.

Lemma renderProgressRing_fresh visual date tag attrs ks :
  first_match "visual__svg" ks = None ->
  renderProgressRing visual date (Elem tag attrs ks) =
    Normal (Elem tag attrs (ks ++ [ring_svg (ring_offset visual date)])).
Proof.
  intros Hks. unfold renderProgressRing. rewrite svg_of_fresh by done.
  rewrite querySelector_from_last.
  replace (querySelector "visual__fill" build_ring_svg) with (Some [1])
    by (vm_compute; reflexivity).
  cbn [fmap option_fmap option_map deref mbind Completion_bind mret Completion_ret].
  by rewrite update_at_last.
Qed.

Lemma renderProgressRing_again visual date tag attrs ks o0 :
  first_match "visual__svg" ks = None ->
  renderProgressRing visual date (Elem tag attrs (ks ++ [ring_svg o0])) =
    Normal (Elem tag attrs (ks ++ [ring_svg (ring_offset visual date)])).
Proof.
  intros Hks. unfold renderProgressRing.
  rewrite svg_of_found; [|done|by vm_compute].
  rewrite querySelector_from_last.
  replace (querySelector "visual__fill" (ring_svg o0)) with (Some [1])
    by (vm_compute; reflexivity).
  cbn [fmap option_fmap option_map deref mbind Completion_bind mret Completion_ret].
  by rewrite update_at_last, ring_svg_again.
Qed.

(** *** Clock: the scaffold in closed form *)

Lemma foldl_appendChild {A} (make : A -> Node) tag attrs ks (xs : list A) :
  foldl (fun svg x => appendChild (make x) svg) (Elem tag attrs ks) xs =
    Elem tag attrs (ks ++ (make <$> xs)).
Proof.
  revert ks. induction xs as [|x xs IH]; intros ks; simpl.
  - by rewrite app_nil_r.
  - rewrite IH. by rewrite <- app_assoc.
Qed.

Lemma build_clock_svg_closed visual hands :
  build_clock_svg visual hands =
    clock_svg visual None None (match second hands with Some _ => Some None | None => None end).
Proof.
  unfold build_clock_svg, clock_svg, clock_hands, clock_before.
  change new_clock_svg with (Elem "svg" clock_svg_attrs []).
  cbn [appendChild app]. rewrite foldl_appendChild.
  destruct (second hands); cbn [appendChild hand_node]; by rewrite <- !app_assoc.
Qed.

Lemma length_clock_before visual : length (clock_before visual) = S (divisions visual).
Proof. unfold clock_before. simpl. by rewrite length_fmap, length_seq. Qed.

Lemma marker_shape visual i :
  exists attrs,
    marker visual i = Elem "line" (("class", "visual__marker") :: attrs) [].
Proof. eexists. vm_compute. reflexivity. Qed.

(** A search for anything but the face or a marker goes past them. *)
Lemma clock_before_no_match visual cls :
  cls <> "visual__face" -> cls <> "visual__marker" ->
  first_match cls (clock_before visual) = None.
Proof.
  intros Hface Hmarker. unfold clock_before.
  rewrite first_match_cons.
  replace (has_class cls clock_face) with (bool_decide (cls ∈ ["visual__face"]))
    by reflexivity.
  rewrite bool_decide_eq_false_2 by (by intros ?%list_elem_of_singleton).
  replace (querySelector cls clock_face) with (@None Ref) by reflexivity.
  replace (first_match cls (marker visual <$> seq 0 (divisions visual)))
    with (@None Ref); [done|].
  generalize (seq 0 (divisions visual)). intros l.
  induction l as [|i l IH]; [done|].
  rewrite fmap_cons, first_match_cons. destruct (marker_shape visual i) as [attrs ->].
  replace (has_class cls (Elem "line" (("class", "visual__marker") :: attrs) []))
    with (bool_decide (cls ∈ ["visual__marker"])) by reflexivity.
  rewrite bool_decide_eq_false_2 by (by intros ?%list_elem_of_singleton).
  cbn [querySelector]. by rewrite <- IH.
Qed.

Lemma first_match_hour ht mt st :
  first_match "visual__hand--hour" (clock_hands ht mt st) = Some [0].
Proof. destruct ht as [[??]|]; vm_compute; reflexivity. Qed.

Lemma first_match_minute ht mt st :
  first_match "visual__hand--minute" (clock_hands ht mt st) = Some [1].
Proof. destruct ht as [[??]|], mt as [[??]|]; vm_compute; reflexivity. Qed.

Lemma first_match_second ht mt st :
  first_match "visual__hand--second" (clock_hands ht mt st) =
    match st with Some _ => Some [2] | None => None end.
Proof.
  destruct ht as [[??]|], mt as [[??]|], st as [[[??]|]|]; vm_compute; reflexivity.
Qed.

Lemma alter_hour t ht mt st :
  alter (tipped t) 0 (clock_hands ht mt st) = clock_hands (Some t) mt st.
Proof. destruct t, ht as [[??]|]; vm_compute; reflexivity. Qed.

Lemma alter_minute t ht mt st :
  alter (tipped t) 1 (clock_hands ht mt st) = clock_hands ht (Some t) st.
Proof. destruct t, mt as [[??]|]; vm_compute; reflexivity. Qed.

Lemma alter_second t ht mt t0 :
  alter (tipped t) 2 (clock_hands ht mt (Some t0)) = clock_hands ht mt (Some (Some t)).
Proof. destruct t, t0 as [[??]|]; vm_compute; reflexivity. Qed.

Lemma has_class_clock_svg visual ht mt st :
  has_class "visual__svg" (clock_svg visual ht mt st) = true.
Proof. reflexivity. Qed.

(** A lookup of a hand from the scaffold of a clock. *)
Lemma query_hand tag attrs ks visual ht mt st cls :
  cls <> "visual__face" -> cls <> "visual__marker" ->
  querySelector_from (Elem tag attrs (ks ++ [clock_svg visual ht mt st])) [length ks] cls =
    (fun r => length ks :: shift_by (S (divisions visual)) r) <$>
      first_match cls (clock_hands ht mt st).
Proof.
  intros Hface Hmarker. rewrite querySelector_from_last. unfold clock_svg.
  rewrite querySelector_Elem, first_match_app by by apply clock_before_no_match.
  rewrite length_clock_before. by destruct (first_match cls (clock_hands ht mt st)).
Qed.

(** Pointing the hand at place [j] after the face and the markers. *)
Lemma point_hand_at tag attrs ks visual ht mt st j len angle :
  point_hand [length ks; S (divisions visual) + j] len angle
    (Elem tag attrs (ks ++ [clock_svg visual ht mt st])) =
  Elem tag attrs
    (ks ++
     [Elem "svg" clock_svg_attrs
        (clock_before visual ++
         alter (tipped (hand_tip len angle)) j (clock_hands ht mt st))]).
Proof.
  unfold point_hand, clock_svg. rewrite !update_at_last. cbn [update_at].
  rewrite <- length_clock_before, !alter_app_r.
  do 4 f_equal. by rewrite list_alter_alter_eq.
Qed.

(** One call of [renderClock] on a target that ends in the scaffold of a
    clock: the hour and minute hands are pointed, and the second hand is when
    the scaffold has one and the hands have a second. *)
Lemma renderClock_step visual date tag attrs ks ht mt st container :
  svg_of (build_clock_svg visual (getHands visual date)) container =
    (Elem tag attrs (ks ++ [clock_svg visual ht mt st]), [length ks]) ->
  renderClock visual date container =
    Normal
      (Elem tag attrs
         (ks ++
          [clock_svg visual
             (Some (hand_tip hourLength (hourAngle visual (getHands visual date))))
             (Some (hand_tip minuteLength (minuteAngle (getHands visual date))))
             (match st with
              | Some t0 =>
                  Some (match second (getHands visual date) with
                        | Some s => Some (hand_tip secondLength (secondAngle s))
                        | None => t0
                        end)
              | None => None
              end)])).
Proof.
  intros Hsvg. unfold renderClock. rewrite Hsvg.
  rewrite query_hand, first_match_hour by done.
  cbn [fmap option_fmap option_map deref mbind Completion_bind shift_by].
  rewrite point_hand_at, alter_hour. fold (clock_svg visual
    (Some (hand_tip hourLength (hourAngle visual (getHands visual date)))) mt st).
  rewrite query_hand, first_match_minute by done.
  cbn [fmap option_fmap option_map deref mbind Completion_bind shift_by].
  rewrite point_hand_at, alter_minute. fold (clock_svg visual
    (Some (hand_tip hourLength (hourAngle visual (getHands visual date))))
    (Some (hand_tip minuteLength (minuteAngle (getHands visual date)))) st).
  destruct (second (getHands visual date)) as [s|].
  - rewrite query_hand, first_match_second by done.
    destruct st as [t0|]; cbn [fmap option_fmap option_map shift_by]; [|done].
    by rewrite point_hand_at, alter_second.
  - by destruct st.
Qed.

Lemma renderClock_fresh visual date tag attrs ks :
  first_match "visual__svg" ks = None ->
  renderClock visual date (Elem tag attrs ks) =
    Normal
      (Elem tag attrs
         (ks ++
          [clock_svg visual
             (Some (hand_tip hourLength (hourAngle visual (getHands visual date))))
             (Some (hand_tip minuteLength (minuteAngle (getHands visual date))))
             (match second (getHands visual date) with
              | Some s => Some (Some (hand_tip secondLength (secondAngle s)))
              | None => None
              end)])).
Proof.
  intros Hks.
  rewrite (renderClock_step visual date tag attrs ks None None
             (match second (getHands visual date) with
              | Some _ => Some None
              | None => None
              end)).
  - by destruct (second (getHands visual date)).
  - rewrite svg_of_fresh by done. by rewrite build_clock_svg_closed.
Qed.

Lemma renderClock_again visual date tag attrs ks ht mt st :
  first_match "visual__svg" ks = None ->
  renderClock visual date (Elem tag attrs (ks ++ [clock_svg visual ht mt st])) =
    Normal
      (Elem tag attrs
         (ks ++
          [clock_svg visual
             (Some (hand_tip hourLength (hourAngle visual (getHands visual date))))
             (Some (hand_tip minuteLength (minuteAngle (getHands visual date))))
             (match st with
              | Some t0 =>
                  Some (match second (getHands visual date) with
                        | Some s => Some (hand_tip secondLength (secondAngle s))
                        | None => t0
                        end)
              | None => None
              end)])).
Proof.
  intros Hks. apply (renderClock_step visual date tag attrs ks ht mt st).
  by apply svg_of_found.
Qed.

(** *** The nodes of the scaffold, as the renderer reaches them *)

Lemma node_at_clock_hand visual ht mt st j :
  node_at [S (divisions visual) + j] (clock_svg visual ht mt st) =
    clock_hands ht mt st !! j.
Proof.
  unfold clock_svg. cbn [node_at childNodes_of].
  rewrite <- length_clock_before, lookup_app_r by lia.
  replace (length (clock_before visual) + j - length (clock_before visual)) with j by lia.
  by destruct (clock_hands ht mt st !! j).
Qed.

Lemma querySelector_clock_svg visual ht mt st cls :
  cls <> "visual__face" -> cls <> "visual__marker" ->
  querySelector cls (clock_svg visual ht mt st) =
    shift_by (S (divisions visual)) <$> first_match cls (clock_hands ht mt st).
Proof.
  intros Hface Hmarker. rewrite <- length_clock_before.
  apply (first_match_app cls (clock_before visual) (clock_hands ht mt st)).
  by apply clock_before_no_match.
Qed.

Lemma scaffold_node_clock tag attrs ks visual ht mt st cls :
  first_match "visual__svg" ks = None ->
  cls <> "visual__face" -> cls <> "visual__marker" ->
  scaffold_node (Elem tag attrs (ks ++ [clock_svg visual ht mt st])) cls =
    (r ← first_match cls (clock_hands ht mt st);
     node_at (shift_by (S (divisions visual)) r) (clock_svg visual ht mt st)).
Proof.
  intros Hks Hface Hmarker. rewrite scaffold_node_last by done.
  rewrite querySelector_clock_svg by done.
  by destruct (first_match cls (clock_hands ht mt st)).
Qed.



Lemma scaffold_node_second tag attrs ks visual ht mt st :
  first_match "visual__svg" ks = None ->
  scaffold_node (Elem tag attrs (ks ++ [clock_svg visual ht mt st])) "visual__hand--second" =
    hand_node "visual__hand visual__hand--second" "1" <$> st.
Proof.
  intros Hks. rewrite scaffold_node_clock, first_match_second by done.
  destruct st as [t|]; [|done].
  cbn [mbind option_bind shift_by]. by rewrite node_at_clock_hand.
Qed.

Lemma hand_node_attributes cls width tip :
  getAttribute "x1" (hand_node cls width tip) = Some (Number_toString clock_center) /\
  getAttribute "y1" (hand_node cls width tip) = Some (Number_toString clock_center) /\
  getAttribute "x2" (hand_node cls width tip) = fst <$> tip /\
  getAttribute "y2" (hand_node cls width tip) = snd <$> tip.
Proof. destruct tip as [[x y]|]; repeat split. Qed.

(** *** What stays the same from call to call *)

(** An erasure that keeps [class] keeps the count of every class. *)
Lemma count_class_erase drop cls n :
  (forall classes, drop classes "class" = false) ->
  count_class cls (erase_attributes drop n) = count_class cls n.
Proof.
  intros Hdrop.
  assert (forall attrs classes,
            attr_get "class"
              (List.filter (fun kv : string * string => negb (drop classes kv.1)) attrs) =
            attr_get "class" attrs) as Hget.
  { intros attrs classes. induction attrs as [|[k v] attrs IH]; [done|].
    cbn [List.filter attr_get fst]. destruct (decide (k = "class")) as [->|Hne].
    - rewrite Hdrop. cbn [negb attr_get]. by rewrite !bool_decide_eq_true_2.
    - rewrite (bool_decide_eq_false_2 (k = "class")) by done.
      destruct (drop classes k); cbn [negb attr_get]; [done|].
      by rewrite bool_decide_eq_false_2. }
  assert (forall k, has_class cls (erase_attributes drop k) = has_class cls k) as Hhas.
  { intros [data|tag attrs kids]; [done|].
    rewrite erase_attributes_Elem. unfold has_class. cbn [getAttribute].
    by rewrite Hget. }
  induction n as [data|tag attrs kids IH] using Node_ind_children; [done|].
  rewrite erase_attributes_Elem, !count_class_Elem.
  induction IH as [|k kids IHk _ IHkids]; [done|].
  cbn [List.map sum_list_with]. by rewrite Hhas, IHk, IHkids.
Qed.

Lemma dynamic_attribute_keeps_class visual classes :
  dynamic_attribute visual classes "class" = false.
Proof.
  destruct visual; cbn [dynamic_attribute];
    by rewrite andb_false_intro2.
Qed.

Lemma scaffold_bar_svg visual w w0 :
  scaffold (ProgressBar visual) (bar_svg w) = scaffold (ProgressBar visual) (bar_svg w0).
Proof. vm_compute. reflexivity. Qed.

Lemma scaffold_ring_svg visual o o0 :
  scaffold (ProgressRing visual) (ring_svg o) = scaffold (ProgressRing visual) (ring_svg o0).
Proof. vm_compute. reflexivity. Qed.

Lemma scaffold_clock_svg v visual ht mt st ht' mt' st' :
  is_Some st <-> is_Some st' ->
  scaffold (Clock v) (clock_svg visual ht mt st) =
    scaffold (Clock v) (clock_svg visual ht' mt' st').
Proof.
  intros Hst. unfold scaffold, clock_svg. rewrite !erase_attributes_Elem, !map_app.
  do 2 f_equal.
  destruct st as [t|], st' as [t'|];
    try (exfalso; destruct Hst as [H1 H2];
         first [by destruct H1 as [? ?] | by destruct H2 as [? ?]]).
  - destruct ht as [[??]|], mt as [[??]|], t as [[??]|],
      ht' as [[??]|], mt' as [[??]|], t' as [[??]|]; vm_compute; reflexivity.
  - destruct ht as [[??]|], mt as [[??]|], ht' as [[??]|], mt' as [[??]|];
      vm_compute; reflexivity.
Qed.

(** *** The state of a target between calls *)

Lemma rendered_has_class visual svg :
  rendered visual svg -> has_class "visual__svg" svg = true.
Proof.
  destruct visual as [v|v|v]; simpl.
  - by intros [w ->].
  - by intros [o ->].
  - by intros (ht & mt & st & ->).
Qed.

Lemma renderVisual_fresh visual date tag attrs ks :
  first_match "visual__svg" ks = None ->
  exists svg,
    renderVisual visual date (Elem tag attrs ks) = Normal (Elem tag attrs (ks ++ [svg])) /\
    rendered visual svg /\
    scaffold visual svg = scaffold visual (built_svg visual date).
Proof.
  intros Hks. destruct visual as [v|v|v]; cbn [renderVisual rendered built_svg].
  - rewrite renderProgressBar_fresh by done.
    eexists. split; [done|]. split; [eauto|]. vm_compute. reflexivity.
  - rewrite renderProgressRing_fresh by done.
    eexists. split; [done|]. split; [eauto|]. vm_compute. reflexivity.
  - rewrite renderClock_fresh by done.
    eexists. split; [done|]. split; [eauto 10|].
    rewrite build_clock_svg_closed. apply scaffold_clock_svg.
    destruct (second (getHands v date)); is_Some_iff.
Qed.

Lemma renderVisual_again visual date tag attrs ks svg :
  first_match "visual__svg" ks = None ->
  rendered visual svg ->
  exists svg',
    renderVisual visual date (Elem tag attrs (ks ++ [svg])) =
      Normal (Elem tag attrs (ks ++ [svg'])) /\
    rendered visual svg' /\
    scaffold visual svg' = scaffold visual svg.
Proof.
  intros Hks. destruct visual as [v|v|v]; cbn [renderVisual rendered].
  - intros [w ->]. rewrite renderProgressBar_again by done.
    eexists. split; [done|]. split; [eauto|]. apply scaffold_bar_svg.
  - intros [o ->]. rewrite renderProgressRing_again by done.
    eexists. split; [done|]. split; [eauto|]. apply scaffold_ring_svg.
  - intros (ht & mt & st & ->). rewrite renderClock_again by done.
    eexists. split; [done|]. split; [eauto 10|].
    apply scaffold_clock_svg. destruct st; is_Some_iff.
Qed.

(** Any number of further calls keeps the target in that state, with the same
    scaffold. *)
Lemma renderVisual_each_again visual dates tag attrs ks svg :
  first_match "visual__svg" ks = None ->
  rendered visual svg ->
  exists svg',
    renderVisual_each visual dates (Elem tag attrs (ks ++ [svg])) =
      Normal (Elem tag attrs (ks ++ [svg'])) /\
    rendered visual svg' /\
    scaffold visual svg' = scaffold visual svg.
Proof.
  intros Hks. revert svg. induction dates as [|date dates IH]; intros svg Hsvg.
  - exists svg. done.
  - destruct (renderVisual_again visual date tag attrs ks svg Hks Hsvg)
      as (svg1 & Hrun & Hsvg1 & Hsame).
    destruct (IH svg1 Hsvg1) as (svg' & Hrun' & Hsvg' & Hsame').
    exists svg'. unfold renderVisual_each in *. cbn [for_of]. rewrite Hrun.
    cbn [mbind Completion_bind]. rewrite Hrun'. split; [done|]. split; [done|].
    congruence.
Qed.

(** The calls of a clock keep the scaffold with or without its second hand,
    as it was built. *)
Lemma renderClock_each v dates tag attrs ks ht mt st :
  first_match "visual__svg" ks = None ->
  exists ht' mt' st',
    renderVisual_each (Clock v) dates (Elem tag attrs (ks ++ [clock_svg v ht mt st])) =
      Normal (Elem tag attrs (ks ++ [clock_svg v ht' mt' st'])) /\
    (is_Some st' <-> is_Some st).
Proof.
  intros Hks. revert ht mt st. induction dates as [|date dates IH]; intros ht mt st.
  - exists ht, mt, st. done.
  - unfold renderVisual_each in *. cbn [for_of renderVisual].
    rewrite renderClock_again by done. cbn [mbind Completion_bind].
    edestruct IH as (ht' & mt' & st' & -> & Hst).
    exists ht', mt', st'. split; [done|]. rewrite Hst.
    destruct st; is_Some_iff.
Qed.

End WithHost.
End VisualFacts.

(** ** Numbers *)

Module FloatFacts.

Lemma SFcompare_refl x : x <> S754_nan -> SFcompare x x = Some Eq.
Proof.
  destruct x as [s|s| |s m e]; intros Hnan; try done.
  - by destruct s.
  - simpl. destruct s; by rewrite Z.compare_refl, Pcompare_refl.
Qed.

Lemma SFcompare_antisym x y c :
  SFcompare x y = Some c -> SFcompare y x = Some (CompOpp c).
Proof.
  destruct x as [s1|s1| |s1 m1 e1], y as [s2|s2| |s2 m2 e2]; simpl; try done;
    intros [= <-]; try (by destruct s1); try (by destruct s2);
    try (by destruct s1, s2).
  destruct s1, s2; try done;
    rewrite (Z.compare_antisym e1 e2), (ZC4 m2 m1);
    destruct (e1 ?= e2)%Z; simpl; try done;
    by destruct (Pos.compare_cont Eq m1 m2).
Qed.

Lemma SFcompare_Some_not_nan x y c : SFcompare x y = Some c -> x <> S754_nan /\ y <> S754_nan.
Proof. destruct x, y; simpl; try done. Qed.

Lemma is_nan_false_of_compare x y c :
  SFcompare (Prim2SF x) (Prim2SF y) = Some c -> PrimFloat.is_nan x = false.
Proof.
  intros [Hx _]%SFcompare_Some_not_nan. unfold PrimFloat.is_nan.
  rewrite FloatAxioms.eqb_spec. unfold SFeqb. by rewrite SFcompare_refl.
Qed.

(** Below 1 [Math.min(q, 1)] is [q]: there is no lower clamp. *)
Lemma Math_min_below q : PrimFloat.ltb q 1 = true -> Math_min q 1 = q.
Proof.
  intros Hlt. unfold Math_min. rewrite Hlt.
  rewrite FloatAxioms.ltb_spec in Hlt. unfold SFltb in Hlt.
  destruct (SFcompare (Prim2SF q) (Prim2SF 1)) as [c|] eqn:Hc; [|done].
  by rewrite (is_nan_false_of_compare _ _ _ Hc).
Qed.

(** From 1 on [Math.min(q, 1)] is 1. *)
Lemma Math_min_clamp q : PrimFloat.leb 1 q = true -> Math_min q 1 = 1%float.
Proof.
  intros Hle. unfold Math_min.
  rewrite FloatAxioms.leb_spec in Hle. unfold SFleb in Hle.
  destruct (SFcompare (Prim2SF 1) (Prim2SF q)) as [c|] eqn:Hc; [|done].
  pose proof (SFcompare_antisym _ _ _ Hc) as Hc'.
  rewrite (is_nan_false_of_compare _ _ _ Hc'). cbn [orb].
  change (PrimFloat.is_nan 1) with false. cbn [orb].
  rewrite !FloatAxioms.ltb_spec. unfold SFltb. rewrite Hc, Hc'.
  destruct c; simpl; try done.
  unfold is_negative_zero. rewrite FloatAxioms.classify_spec.
  change (Prim2SF 1) with (S754_finite false 4503599627370496 (-52)) in Hc.
  destruct (Prim2SF q) as [s|s| |s m e]; simpl in Hc; try done.
  - by destruct s.
  - unfold SF64classify, SFclassify.
    by destruct s, (Z.pos (digits2_pos m) =? prec)%Z.
Qed.

End FloatFacts.

Module VisualProperties.
Import DomFacts VisualRenderer VisualSpec VisualFacts FloatFacts.
Section WithHost.
Context `{!JsHost}.

#[local] Open Scope float_scope.

Lemma count_class_clock_svg cls visual ht mt st :
  cls <> "visual__face" -> cls <> "visual__marker" ->
  count_class cls (clock_svg visual ht mt st) =
    sum_list_with (weight cls) (clock_hands ht mt st).
Proof.
  intros Hface Hmarker. unfold clock_svg.
  rewrite count_class_weight, sum_list_with_app.
  rewrite <- (count_class_weight cls "" [] (clock_before visual)).
  rewrite querySelector_None_count; [done|].
  by apply clock_before_no_match.
Qed.

(** C6.  On a target that had no scaffold, after any number of earlier calls
    for the progress bar, [renderVisual] completes and leaves the fill with
    the width [String(Math.min(getValue(date) / max, 1) * 120)], next to a
    track of width [String(120)].  A quotient of 1 or more gives the full
    width 120; a quotient below 1 is taken as it is, negative ones too (no
    lower clamp); [max = 100] and a value of 50 give 60, half of 120; a value
    of 150 gives 120; a value of -50 gives -60. *)
Theorem progress_bar_fill (visual : ProgressBarVisual) (dates : list Date) (date : Date)
    (tag : string) (attrs : list (string * string)) (kids : list Node) :
  querySelector "visual__svg" (Elem tag attrs kids) = None ->
  exists c0 c' fill track,
    renderVisual_each (ProgressBar visual) dates (Elem tag attrs kids) = Normal c0 /\
    renderVisual (ProgressBar visual) date c0 = Normal c' /\
    scaffold_node c' "visual__fill" = Some fill /\
    getAttribute "width" fill =
      Some (Number_toString
              (Math_min (bar_getValue visual date / bar_max visual) 1 * VISUAL_SIZE)) /\
    scaffold_node c' "visual__track" = Some track /\
    getAttribute "width" track = Some (Number_toString VISUAL_SIZE) /\
    (forall q, PrimFloat.leb 1 q = true -> Math_min q 1 * VISUAL_SIZE = VISUAL_SIZE) /\
    (forall q, PrimFloat.ltb q 1 = true -> Math_min q 1 = q) /\
    Math_min (50 / 100) 1 * VISUAL_SIZE = VISUAL_SIZE / 2 /\
    Math_min (150 / 100) 1 * VISUAL_SIZE = VISUAL_SIZE /\
    Math_min (-50 / 100) 1 * VISUAL_SIZE = -60.
Proof.
  rewrite querySelector_Elem. intros Hks.
  assert (exists c0,
            renderVisual_each (ProgressBar visual) dates (Elem tag attrs kids) = Normal c0 /\
            renderVisual (ProgressBar visual) date c0 =
              Normal (Elem tag attrs (kids ++ [bar_svg (bar_width visual date)])))
    as (c0 & Hrun & Hcall).
  { destruct dates as [|d dates].
    - eexists. split; [done|]. by apply renderProgressBar_fresh.
    - destruct (renderVisual_each_again (ProgressBar visual) dates tag attrs kids
                  (bar_svg (bar_width visual d)) Hks) as (svg & Hrun & [w ->] & _).
      { by eexists. }
      eexists. split.
      + unfold renderVisual_each in *. cbn [for_of renderVisual].
        rewrite renderProgressBar_fresh by done. exact Hrun.
      + by apply renderProgressBar_again. }
  exists c0. eexists. eexists. eexists.
  split; [exact Hrun|]. split; [exact Hcall|].
  rewrite !scaffold_node_last by done.
  split; [vm_compute; reflexivity|]. split; [reflexivity|].
  split; [vm_compute; reflexivity|]. split; [reflexivity|].
  split; [|split; [|by vm_compute]].
  - intros q Hq. by rewrite Math_min_clamp.
  - apply Math_min_below.
Qed.

(** The target of a clock between calls: from a target without a scaffold,
    the calls at [date] and then at [dates] leave the scaffold of a clock,
    with a second hand exactly when the hands had a second at [date]. *)
Lemma renderClock_run visual date dates tag attrs ks :
  first_match "visual__svg" ks = None ->
  exists ht1 mt1 st1 ht mt st,
    renderVisual (Clock visual) date (Elem tag attrs ks) =
      Normal (Elem tag attrs (ks ++ [clock_svg visual ht1 mt1 st1])) /\
    renderVisual_each (Clock visual) dates
      (Elem tag attrs (ks ++ [clock_svg visual ht1 mt1 st1])) =
      Normal (Elem tag attrs (ks ++ [clock_svg visual ht mt st])) /\
    (is_Some st1 <-> is_Some (second (getHands visual date))) /\
    (is_Some st <-> is_Some st1).
Proof.
  intros Hks.
  destruct (renderClock_each visual dates tag attrs ks
              (Some (hand_tip hourLength (hourAngle visual (getHands visual date))))
              (Some (hand_tip minuteLength (minuteAngle (getHands visual date))))
              (match second (getHands visual date) with
               | Some s => Some (Some (hand_tip secondLength (secondAngle s)))
               | None => None
               end) Hks) as (ht & mt & st & Hrun & Hst).
  do 6 eexists. split; [by apply renderClock_fresh|]. split; [exact Hrun|].
  split; [|exact Hst].
  destruct (second (getHands visual date)); is_Some_iff.
Qed.



(** C10.  For a clock, on a target that had no scaffold: the first call adds
    a second-hand node exactly when the hands have a second on that call;
    every later call completes, whatever its hands hold, and the target has a
    second-hand node after it exactly when the first call made one; the count
    of second-hand nodes stays what the first call left. *)
Theorem second_hand_fixed_by_first_call (visual : ClockVisual) (date : Date)
    (dates : list Date) (tag : string) (attrs : list (string * string))
    (kids : list Node) :
  querySelector "visual__svg" (Elem tag attrs kids) = None ->
  exists c1 cn,
    renderVisual (Clock visual) date (Elem tag attrs kids) = Normal c1 /\
    renderVisual_each (Clock visual) dates c1 = Normal cn /\
    (is_Some (scaffold_node c1 "visual__hand--second") <->
     is_Some (second (getHands visual date))) /\
    (is_Some (scaffold_node cn "visual__hand--second") <->
     is_Some (second (getHands visual date))) /\
    count_class "visual__hand--second" c1 =
      (count_class "visual__hand--second" (Elem tag attrs kids) +
       match second (getHands visual date) with Some _ => 1 | None => 0 end)%nat /\
    count_class "visual__hand--second" cn = count_class "visual__hand--second" c1.
Proof.
  rewrite querySelector_Elem. intros Hks.
  destruct (renderClock_run visual date dates tag attrs kids Hks)
    as (ht1 & mt1 & st1 & ht & mt & st & Hfirst & Hrest & Hst1 & Hst).
  do 2 eexists. split; [exact Hfirst|]. split; [exact Hrest|].
  rewrite !scaffold_node_second by done.
  assert (forall ht mt st,
            count_class "visual__hand--second"
              (Elem tag attrs (kids ++ [clock_svg visual ht mt st])) =
            (count_class "visual__hand--second" (Elem tag attrs kids) +
             match st with Some _ => 1 | None => 0 end)%nat) as Hcount.
  { intros ht0 mt0 st0. rewrite !count_class_weight, sum_list_with_app.
    f_equal. cbn [sum_list_with]. unfold weight.
    rewrite count_class_clock_svg by done.
    destruct ht0 as [[??]|], mt0 as [[??]|], st0 as [[[??]|]|]; vm_compute; reflexivity. }
  split; [|split; [|split]].
  - rewrite <- Hst1. destruct st1; is_Some_iff.
  - rewrite <- Hst1, <- Hst. destruct st; is_Some_iff.
  - rewrite Hcount. f_equal.
    destruct st1, (second (getHands visual date)); try done.
    + destruct Hst1 as [Hst1 _]. by destruct Hst1 as [? ?]; [eauto|].
    + destruct Hst1 as [_ Hst1]. by destruct Hst1 as [? ?]; [eauto|].
  - rewrite !Hcount. f_equal.
    destruct st, st1; try done.
    + destruct Hst as [Hst _]. by destruct Hst as [? ?]; [eauto|].
    + destruct Hst as [_ Hst]. by destruct Hst as [? ?]; [eauto|].
Qed.

(** C8.  For every visual, on a target that had no scaffold: the first call
    completes and appends one node, the scaffold that the renderer of the
    shape builds (svg, track or face, markers, hand lines); every later call
    completes
    and leaves a target that differs from the one after the first call in
    dynamic attributes only (the width of the fill, the dash offset, the end
    points of the hands): the scaffold is the same tree, so no node is added,
    the count of nodes of every class is unchanged, and there is one
    [visual__svg] node under the target. *)
Theorem scaffold_built_once (visual : VisualDefinition) (date : Date) (dates : list Date)
    (tag : string) (attrs : list (string * string)) (kids : list Node) :
  querySelector "visual__svg" (Elem tag attrs kids) = None ->
  exists svg c1 cn,
    renderVisual visual date (Elem tag attrs kids) = Normal c1 /\
    c1 = Elem tag attrs (kids ++ [svg]) /\
    has_class "visual__svg" svg = true /\
    scaffold visual svg = scaffold visual (built_svg visual date) /\
    renderVisual_each visual dates c1 = Normal cn /\
    scaffold visual cn = scaffold visual c1 /\
    (forall cls, count_class cls cn = count_class cls c1) /\
    count_class "visual__svg" cn = 1%nat.
Proof.
  rewrite querySelector_Elem. intros Hks.
  destruct (renderVisual_fresh visual date tag attrs kids Hks)
    as (svg & Hfirst & Hsvg & Hbuilt).
  destruct (renderVisual_each_again visual dates tag attrs kids svg Hks Hsvg)
    as (svg' & Hrest & Hsvg' & Hsame).
  assert (scaffold visual (Elem tag attrs (kids ++ [svg'])) =
          scaffold visual (Elem tag attrs (kids ++ [svg]))) as Hscaffold.
  { unfold scaffold in *. by apply erase_attributes_last. }
  exists svg. do 2 eexists. split; [exact Hfirst|]. split; [done|].
  split; [by apply (rendered_has_class visual)|]. split; [exact Hbuilt|].
  split; [exact Hrest|].
  split; [exact Hscaffold|]. split.
  - intros cls.
    rewrite <- (count_class_erase (dynamic_attribute visual) cls
                  (Elem tag attrs (kids ++ [svg'])))
      by apply dynamic_attribute_keeps_class.
    rewrite <- (count_class_erase (dynamic_attribute visual) cls
                  (Elem tag attrs (kids ++ [svg])))
      by apply dynamic_attribute_keeps_class.
    unfold scaffold in Hscaffold. by rewrite Hscaffold.
  - rewrite count_class_last by done. rewrite (rendered_has_class visual svg' Hsvg').
    destruct visual as [v|v|v]; cbn [rendered] in Hsvg'.
    + destruct Hsvg' as [w ->]. vm_compute. reflexivity.
    + destruct Hsvg' as [o ->]. vm_compute. reflexivity.
    + destruct Hsvg' as (ht & mt & st & ->). rewrite count_class_clock_svg by done.
      destruct ht as [[??]|], mt as [[??]|], st as [[[??]|]|]; vm_compute; reflexivity.
Qed.

End WithHost.

Lemma progress_bar_fill_witness :
  exists c' fill,
    @renderVisual sample_host (ProgressBar half_bar) 0%Z sample_target = Normal c' /\
    scaffold_node c' "visual__fill" = Some fill /\
    getAttribute "width" fill = Some "60".
Proof.
  destruct (@progress_bar_fill sample_host half_bar [] 0%Z
              "div" [("id", "time-visual")] [] eq_refl)
    as (c0 & c' & fill & track & Hrun & Hcall & Hfill & Hwidth & _).
  injection Hrun as <-.
  exists c', fill. split; [exact Hcall|]. split; [exact Hfill|].
  rewrite Hwidth. vm_compute. reflexivity.
Defined.


Lemma scaffold_built_once_witness :
  exists c1 cn,
    @renderVisual sample_host (ProgressBar half_bar) 0%Z sample_target = Normal c1 /\
    @renderVisual_each sample_host (ProgressBar half_bar) [1%Z; 2%Z] c1 = Normal cn /\
    count_class "visual__svg" cn = 1 /\
    count_class "visual__track" cn = count_class "visual__track" c1.
Proof.
  destruct (@scaffold_built_once sample_host (ProgressBar half_bar) 0%Z [1%Z; 2%Z]
              "div" [("id", "time-visual")] [] eq_refl)
    as (svg & c1 & cn & Hfirst & _ & _ & _ & Hrest & _ & Hcount & Hone).
  exists c1, cn. split; [exact Hfirst|]. split; [exact Hrest|].
  split; [exact Hone | apply Hcount].
Defined.

Lemma second_hand_fixed_by_first_call_witness :
  exists c1 cn,
    @renderVisual sample_host (Clock late_second_clock) 0%Z sample_target = Normal c1 /\
    @renderVisual_each sample_host (Clock late_second_clock) [1%Z; 2%Z] c1 = Normal cn /\
    scaffold_node cn "visual__hand--second" = None.
Proof.
  destruct (@second_hand_fixed_by_first_call sample_host late_second_clock 0%Z [1%Z; 2%Z]
              "div" [("id", "time-visual")] [] eq_refl)
    as (c1 & cn & Hfirst & Hrest & _ & Hnode & _).
  exists c1, cn. split; [exact Hfirst|]. split; [exact Hrest|].
  destruct (scaffold_node cn "visual__hand--second") as [n|]; [|reflexivity].
  destruct Hnode as [Hnode _]. destruct Hnode as [s Hs]; [by eexists|].
  discriminate Hs.
Defined.

End VisualProperties.

(** ** The code on sample inputs *)

Module Examples.
Import Renderer VisualRenderer VisualSpec.

Example register_three_ids :
  exists st,
    @register sample_calls [sample_epoch_seconds; sample_standard; sample_holocene] =
      Normal st /\
    getAllSystems (registry st) = [sample_epoch_seconds; sample_standard; sample_holocene] /\
    getDefaultSystem (registry st) = sample_standard /\
    getSystem (registry st) "kiloseconds" = JUndefined /\
    console st = [].
Proof. eexists. split; [reflexivity|]. vm_compute. done. Qed.

Example register_warns :
  exists st,
    @register sample_calls [sample_standard; JNum 7; sample_malformed; sample_duplicate] =
      Normal st /\
    getAllSystems (registry st) = [sample_standard] /\
    console st =
      [InvalidSystemDefinition (JStr "unknown");
       InvalidSystemDefinition (JStr "standard");
       DuplicateSystemID "standard"].
Proof. eexists. split; [reflexivity|]. vm_compute. done. Qed.

(** A rejected candidate whose [id] has no string ends the registration. *)
Example register_unprintable_id :
  @register sample_calls [sample_standard; sample_unprintable; sample_kiloseconds] =
    Throw TypeError.
Proof. reflexivity. Qed.

Example render_widgets :
  @render sample_host (Unified widgets) sample_target =
    Elem "div" [("id", "time-visual"); ("class", "display display--unified")]
      [Elem "div" [("class", "display__main")]
         [Elem "span" [("class", "display__value")] [Text "42"]];
       Elem "div" [("class", "display__label")] [Text "widgets"]].
Proof. reflexivity. Qed.

Example render_split_default_separator :
  @render sample_host
    (Split (mkSplitDisplay (mkSplitDate "1 Vendémiaire" (Some "An I"))
              (mkSplitTime "5:00:00" None None) None))
    sample_target =
    Elem "div" [("id", "time-visual"); ("class", "display display--split")]
      [Elem "div" [("class", "display__date")]
         [Text "1 Vendémiaire"; Elem "span" [("class", "display__era")] [Text " An I"]];
       Elem "span" [("class", "display__separator")] [Text " • "];
       Elem "div" [("class", "display__time")] [Text "5:00:00"]].
Proof. reflexivity. Qed.

Example render_three_segments :
  childNodes_of (@render sample_host (Segmented three_segments) sample_target) =
    [Elem "div" [("class", "display__segments")]
       [Elem "div" [("class", "display__segment")]
          [Elem "span" [("class", "display__seg-value")] [Text "10"];
           Elem "span" [("class", "display__seg-label")] [Text "hours"]];
        Elem "span" [("class", "display__seg-separator")] [Text ":"];
        Elem "div" [("class", "display__segment")]
          [Elem "span" [("class", "display__seg-value")] [Text "45"];
           Elem "span" [("class", "display__seg-label")] [Text "minutes"]];
        Elem "span" [("class", "display__seg-separator")] [Text ":"];
        Elem "div" [("class", "display__segment")]
          [Elem "span" [("class", "display__seg-value")] [Text "30"];
           Elem "span" [("class", "display__seg-label")] [Text "seconds"]]]].
Proof. vm_compute. reflexivity. Qed.

Example render_half_bar :
  @renderVisual sample_host (ProgressBar half_bar) 0%Z sample_target =
    Normal
      (Elem "div" [("id", "time-visual")]
         [Elem "svg"
            [("class", "visual__svg visual__svg--bar"); ("viewBox", "0 0 120 12");
             ("aria-hidden", "true")]
            [Elem "rect"
               [("class", "visual__track"); ("x", "0"); ("y", "4"); ("width", "120");
                ("height", "4"); ("rx", "2")] [];
             Elem "rect"
               [("class", "visual__fill"); ("x", "0"); ("y", "4"); ("height", "4");
                ("rx", "2"); ("width", "60")] []]]).
Proof. vm_compute. reflexivity. Qed.

(** A bar after a clock on the same target, without [clearVisual] between:
    the scaffold of the clock has no fill, and the call throws. *)
Example bar_on_clock_scaffold_throws :
  (c ← @renderVisual sample_host (Clock three_oclock) 0%Z sample_target;
   @renderVisual sample_host (ProgressBar half_bar) 0%Z c) = Throw TypeError.
Proof. vm_compute. reflexivity. Qed.

End Examples.

(** * Further properties of the code *)

(** ** registry.ts: the registration loop *)

Module RegistryLoop.
Import RegistryFacts RegistryProperties.

Section WithCalls.
Context `{!JsCalls}.

Lemma ToString_primitive v : is_object v = false -> ToString v = Normal tt.
Proof. by destruct v. Qed.

Lemma ToString_inherited props :
  props !! "toString" = None -> ToString (JObj props) = Normal tt.
Proof.
  intros Hnone. unfold ToString, OrdinaryToPrimitive, method_result. by rewrite Hnone.
Qed.

Lemma try_method_not_callable o method :
  (forall f, method <> JFun f) -> try_method o method = Normal None.
Proof. intros Hmethod. destruct method; try done. by destruct (Hmethod ident). Qed.

Lemma ToString_no_method props method :
  props !! "toString" = Some method ->
  (forall f, method <> JFun f) ->
  (forall g, props !! "valueOf" <> Some (JFun g)) ->
  ToString (JObj props) = Throw TypeError.
Proof.
  intros HtoString Hmethod HvalueOf. unfold ToString, OrdinaryToPrimitive, method_result.
  rewrite HtoString, try_method_not_callable by done.
  cbn [mbind Completion_bind].
  destruct (props !! "valueOf") as [method'|]; [|done].
  rewrite try_method_not_callable; [done|].
  intros g ->. by apply (HvalueOf g).
Qed.

(** X1.  When registration throws.  Registration ends in an exception
    exactly when the list has a candidate that [validateSystem] rejects and
    whose warning cannot be built: the candidate is [null] or [undefined], so
    that reading its [id] throws, or the template literal of the warning
    cannot convert its [id] to a string ([ToString]).  Of the values that
    are modelled (there are no symbols), an [id] that is a primitive or a
    function converts, and so does an object without a [toString] of its
    own; an object whose own [toString] is not callable, and whose own
    [valueOf] is missing or not callable, does not: the conversion throws a
    [TypeError]. *)
Theorem register_throws_iff (systems : list JsVal) :
  ((exists e, register systems = Throw e) <->
   Exists
     (fun s =>
        validateSystem s = false /\
        (is_nullish s = true \/
         exists e,
           ToString (nullish_coalesce (prop s "id") (JStr "unknown")) = Throw e))
     systems) /\
  (forall v, is_object v = false -> ToString v = Normal tt) /\
  (forall f, ToString (JFun f) = Normal tt) /\
  (forall props, props !! "toString" = None -> ToString (JObj props) = Normal tt) /\
  (forall props method,
     props !! "toString" = Some method ->
     (forall f, method <> JFun f) ->
     (forall g, props !! "valueOf" <> Some (JFun g)) ->
     ToString (JObj props) = Throw TypeError).
Proof.
  split; [|split; [apply ToString_primitive|split; [done|split]]].
  - assert (forall s,
              passes s = false <->
              validateSystem s = false /\
              (is_nullish s = true \/
               exists e,
                 ToString (nullish_coalesce (prop s "id") (JStr "unknown")) =
                   Throw e)) as Hpasses.
    { intros s. unfold passes. destruct (validateSystem s); [by split; [|intros [? _]]|].
      simpl. destruct (is_nullish s); simpl; [by split; [auto|]|].
      destruct (ToString _) as [[]|e].
      - split; [done|]. by intros [_ [?|[? ?]]].
      - split; [|done]. intros _. split; [done|]. right. by exists e. }
    split.
    + intros [e He]. destruct (passes_dec systems) as [Hall|Hex].
      * destruct (register_refines systems Hall) as [log Hlog]. congruence.
      * eapply Exists_impl; [exact Hex|]. intros s. apply Hpasses.
    + intros Hex. apply register_throws.
      eapply Exists_impl; [exact Hex|]. intros s. apply Hpasses.
  - apply ToString_inherited.
  - apply ToString_no_method.
Qed.

Lemma register_step_inv st s st' :
  register_step st s = Normal st' ->
  (registry st' = registry st /\ exists w, console st' = console st ++ [w] /\
     forall id, w = DuplicateSystemID id -> id ∈ (registry st).*1) \/
  (registry st' = registry st ++ [(system_id s, s)] /\ console st' = console st).
Proof.
  unfold register_step, get_prop. destruct (validateSystem s); simpl.
  - destruct (Map_has (registry st) (system_id s)) eqn:Hhas; simpl.
    + intros [= <-]. left. split; [done|]. eexists. split; [done|].
      intros id [= <-]. by apply Map_has_true.
    + intros [= <-]. right. simpl. split; [|done]. apply Map_set_fresh.
      intros Hin%Map_has_true. congruence.
  - destruct (is_nullish s); simpl; [done|].
    destruct (ToString _) as [[]|e]; simpl; [|done].
    intros [= <-]. left. split; [done|]. eexists. split; [done|]. done.
Qed.

(** What the loop keeps, from any state: the registry and the warnings only
    grow at their ends, each candidate adds to one of them, and a duplicate
    warning names an id that is registered. *)
Lemma for_of_register_step_grows systems st st' :
  for_of register_step st systems = Normal st' ->
  registry st `prefix_of` registry st' /\
  console st `prefix_of` console st' /\
  length (console st') + length (registry st') =
    length (console st) + length (registry st) + length systems /\
  (forall id, DuplicateSystemID id ∈ console st' ->
     DuplicateSystemID id ∈ console st \/ id ∈ (registry st').*1).
Proof.
  revert st. induction systems as [|s systems IH]; intros st; simpl.
  - intros [= <-]. repeat split; [done | done | lia | by left].
  - destruct (register_step st s) as [st1|e] eqn:Hstep; simpl; [|done].
    intros Hrest. destruct (IH st1 Hrest) as (Hreg & Hlog & Hlen & Hdup).
    apply register_step_inv in Hstep
      as [(Hr & w & Hc & Hw)|(Hr & Hc)]; rewrite Hr, Hc in *.
    + repeat split.
      * done.
      * etrans; [|exact Hlog]. by apply prefix_app_r.
      * rewrite length_app in Hlen. simpl in Hlen. lia.
      * intros id Hid. destruct (Hdup id Hid) as [Hin|Hin]; [|by right].
        apply elem_of_app in Hin as [Hin|Hin%list_elem_of_singleton]; [by left|].
        right. destruct Hreg as [more ->]. rewrite fmap_app.
        apply elem_of_app. left. by apply Hw.
    + repeat split.
      * etrans; [|exact Hreg]. by apply prefix_app_r.
      * done.
      * rewrite length_app in Hlen. simpl in Hlen. lia.
      * done.
Qed.

(** X2.  When registration completes, every candidate of the list has been
    accepted or warned about, once: the warnings and the accepted providers
    add up to the candidates; and a duplicate warning names the id of an
    accepted provider. *)
Theorem register_accounts_for_every_candidate (systems : list JsVal) (st : State) :
  register systems = Normal st ->
  length (console st) + length (getAllSystems (registry st)) = length systems /\
  (forall id, DuplicateSystemID id ∈ console st ->
     exists p, p ∈ getAllSystems (registry st) /\ system_id p = id).
Proof.
  intros Hreg.
  destruct (for_of_register_step_grows systems (mkState [] []) st Hreg)
    as (_ & _ & Hlen & Hdup).
  split.
  - unfold getAllSystems, Map_values. rewrite length_fmap. simpl in Hlen. lia.
  - intros id Hid. destruct (Hdup id Hid) as [Hin|Hin]; [by apply elem_of_nil in Hin|].
    apply list_elem_of_fmap in Hin as ([k v] & -> & Hkv). exists v. split.
    + unfold getAllSystems, Map_values. by apply (list_elem_of_fmap_2 snd) in Hkv.
    + rewrite (register_normal_inv _ _ Hreg) in Hkv.
      by apply accepted_entries_valid in Hkv as (_ & ? & _).
Qed.

Lemma Map_get_app_l (m1 m2 : RegistryMap) k :
  k ∈ m1.*1 -> Map_get (m1 ++ m2) k = Map_get m1 k.
Proof.
  induction m1 as [|[k' v'] m1 IH]; simpl; [by intros ?%elem_of_nil|].
  intros Hk. destruct (decide (k' = k)) as [->|Hne].
  - by rewrite !bool_decide_eq_true_2.
  - rewrite !bool_decide_eq_false_2 by done. apply IH.
    apply elem_of_cons in Hk as [?|?]; [congruence | done].
Qed.

(** X3.  Candidates appended to the list leave what the list gave alone: the
    registration of [l1 ++ l2], when it completes, lists the providers
    accepted from [l1] first and in the same order, repeats the warnings for
    [l1] first, and returns for every id registered from [l1] the provider
    that [l1] alone gives. *)
Theorem register_app_keeps_earlier (l1 l2 : list JsVal) (st : State) :
  register (l1 ++ l2) = Normal st ->
  exists st1,
    register l1 = Normal st1 /\
    getAllSystems (registry st1) `prefix_of` getAllSystems (registry st) /\
    console st1 `prefix_of` console st /\
    (forall p, p ∈ getAllSystems (registry st1) ->
       getSystem (registry st) (system_id p) = p).
Proof.
  unfold register. rewrite for_of_app.
  destruct (for_of register_step (mkState [] []) l1) as [st1|e] eqn:Hl1; simpl; [|done].
  intros Hl2. exists st1. split; [done|].
  destruct (for_of_register_step_grows l2 st1 st Hl2) as (Hreg & Hlog & _).
  split; [|split; [done|]].
  - unfold getAllSystems, Map_values. destruct Hreg as [more ->].
    rewrite fmap_app. by apply prefix_app_r.
  - intros p Hp.
    destruct (getAllSystems_accepted l1 st1 p Hl1 Hp) as (_ & _ & Hget).
    unfold getSystem in *. destruct Hreg as [more ->].
    rewrite Map_get_app_l; [done|].
    unfold getAllSystems, Map_values in Hp.
    apply list_elem_of_fmap in Hp as ([k v] & -> & Hkv). simpl.
    rewrite (register_normal_inv l1 st1 Hl1) in Hkv |- *.
    pose proof (accepted_entries_valid _ _ _ _ Hkv) as (_ & -> & _).
    by apply (list_elem_of_fmap_2 fst) in Hkv.
Qed.

(** X4.  A lookup misses exactly when no valid candidate has the id: on the
    registry that a registration builds, [getSystem] returns [undefined] if
    and only if no valid candidate of the list has that id, and otherwise the
    first valid candidate that has it. *)
Theorem getSystem_miss_iff (systems : list JsVal) (st : State) (id : string) :
  register systems = Normal st ->
  (getSystem (registry st) id = JUndefined <->
   forall p, p ∈ systems -> validateSystem p = true -> system_id p <> id) /\
  getSystem (registry st) id = default JUndefined (first_valid_with_id systems id).
Proof.
  intros Hreg. rewrite (getSystem_accepted systems st id Hreg). split; [|done].
  split.
  - intros Hmiss p Hp Hv Hid.
    destruct (first_valid_with_id systems id) as [v|] eqn:Hfind; simpl in Hmiss.
    + apply first_valid_with_id_Some in Hfind as (_ & Hvv & _).
      apply validateSystem_not_nullish in Hvv. by subst v.
    + unfold first_valid_with_id in Hfind.
      apply list_elem_of_In in Hp. pose proof (find_none _ _ Hfind p Hp) as Hp'.
      simpl in Hp'. by rewrite Hv, bool_decide_eq_true_2 in Hp'.
  - intros Hno. by rewrite first_valid_with_id_None.
Qed.

End WithCalls.

Lemma register_accounts_for_every_candidate_witness :
  exists st,
    @register sample_calls [sample_standard; JNum 7; sample_malformed; sample_duplicate] = Normal st /\
    length (console st) + length (getAllSystems (registry st)) = 4.
Proof.
  eexists. split; [reflexivity|].
  apply (@register_accounts_for_every_candidate sample_calls
           [sample_standard; JNum 7; sample_malformed; sample_duplicate] _ eq_refl).
Defined.

Lemma register_app_keeps_earlier_witness :
  exists st1,
    @register sample_calls [sample_kiloseconds; sample_standard] = Normal st1 /\
    getAllSystems (registry st1) = [sample_kiloseconds; sample_standard].
Proof.
  destruct (@register_app_keeps_earlier sample_calls [sample_kiloseconds; sample_standard]
              [sample_duplicate; sample_holocene] _ eq_refl)
    as (st1 & Hreg & _).
  exists st1. split; [exact Hreg|].
  vm_compute in Hreg. inversion Hreg. reflexivity.
Defined.

Lemma getSystem_miss_iff_witness :
  exists st,
    @register sample_calls [sample_standard; sample_malformed] = Normal st /\
    getSystem (registry st) "kiloseconds" = JUndefined.
Proof.
  eexists. split; [reflexivity|].
  apply (@getSystem_miss_iff sample_calls [sample_standard; sample_malformed] _ "kiloseconds" eq_refl).
Defined.

End RegistryLoop.

(** ** renderer.ts: what a rendering shows and what it keeps *)

Module RendererMore.
Import DomFacts Renderer RendererSpec RendererFacts.

Lemma attr_set_set k v1 v2 attrs :
  attr_set k v2 (attr_set k v1 attrs) = attr_set k v2 attrs.
Proof.
  induction attrs as [|[k' v'] attrs IH]; simpl.
  - by rewrite bool_decide_eq_true_2.
  - destruct (decide (k' = k)) as [->|Hne].
    + rewrite bool_decide_eq_true_2 by done. simpl. by rewrite bool_decide_eq_true_2.
    + rewrite bool_decide_eq_false_2 by done. simpl.
      rewrite bool_decide_eq_false_2 by done. by rewrite IH.
Qed.

Lemma string_app_nil_r (s : string) : s +:+ "" = s.
Proof.
  induction s as [|c s IH]; [done|].
  change (String c s +:+ "") with (String c (s +:+ "")). by rewrite IH.
Qed.

Lemma string_app_assoc (s1 s2 s3 : string) : (s1 +:+ s2) +:+ s3 = s1 +:+ (s2 +:+ s3).
Proof.
  induction s1 as [|c s1 IH]; [done|].
  change ((String c s1 +:+ s2) +:+ s3) with (String c ((s1 +:+ s2) +:+ s3)).
  by rewrite IH.
Qed.

Lemma textContent_Elem tag attrs kids : textContent (Elem tag attrs kids) = texts kids.
Proof. simpl. induction kids as [|k kids IH]; [done|]. simpl. by rewrite IH. Qed.

Lemma texts_app ks1 ks2 : texts (ks1 ++ ks2) = texts ks1 +:+ texts ks2.
Proof.
  induction ks1 as [|k ks1 IH]; [done|].
  cbn [app texts foldr]. fold (texts (ks1 ++ ks2)). fold (texts ks1).
  by rewrite IH, string_app_assoc.
Qed.

Lemma texts_cons k ks : texts (k :: ks) = textContent k +:+ texts ks.
Proof. done. Qed.

Lemma texts_singleton k : texts [k] = textContent k.
Proof. cbn. apply string_app_nil_r. Qed.

Lemma textContent_new_element tag cls s : textContent (new_element tag cls s) = s.
Proof.
  unfold new_element, set_textContent, set_className, setAttribute, createElement.
  rewrite textContent_Elem. destruct (decide (s = "")) as [->|Hne].
  - by rewrite bool_decide_eq_true_2.
  - rewrite bool_decide_eq_false_2 by done. apply string_app_nil_r.
Qed.

Lemma texts_childNodes_new_element tag cls s :
  texts (childNodes_of (new_element tag cls s)) = s.
Proof. rewrite <- (textContent_new_element tag cls s) at 2. done. Qed.

Lemma texts_optional_node tag cls pre field :
  texts (optional_node (fun s => new_element tag cls (pre +:+ s)) field) =
    if field_painted field then pre +:+ default "" field else "".
Proof.
  unfold optional_node. destruct field as [s|]; [|done].
  destruct (field_painted (Some s)); [|done].
  by rewrite texts_singleton, textContent_new_element.
Qed.

Lemma texts_plain_node tag cls field :
  texts (optional_node (new_element tag cls) field) = default "" field.
Proof.
  pose proof (texts_optional_node tag cls "" field) as Htexts.
  change (fun s : string => new_element tag cls ("" +:+ s))
    with (new_element tag cls) in Htexts.
  rewrite Htexts. destruct field as [s|]; [|done]. simpl.
  destruct (decide (s = "")) as [->|Hne].
  - by rewrite bool_decide_eq_true_2.
  - by rewrite bool_decide_eq_false_2.
Qed.

Lemma texts_interleave sep ks :
  texts (interleave sep ks) = String.concat (textContent sep) (textContent <$> ks).
Proof.
  induction ks as [|k ks IH]; [done|].
  destruct ks as [|k' ks]; [apply texts_singleton|].
  change (interleave sep (k :: k' :: ks)) with (k :: sep :: interleave sep (k' :: ks)).
  change (texts (k :: sep :: interleave sep (k' :: ks)))
    with (textContent k +:+ textContent sep +:+ texts (interleave sep (k' :: ks))).
  by rewrite IH.
Qed.

Section WithHost.
Context `{!JsHost}.

Lemma render_over_render (d1 d2 : TimeDisplay) (container : Node) :
  render d2 (render d1 container) = render d2 container.
Proof.
  destruct container as [data|tag attrs kids].
  - by rewrite !render_Text.
  - rewrite !render_Elem. by rewrite attr_set_set.
Qed.

(** X5.  [render] replaces in full: rendering a display into a target that
    holds the rendering of any other display leaves what rendering it into
    the original target leaves.  It keeps the tag of the target and every
    attribute but [class]. *)
Theorem render_replaces (d1 d2 : TimeDisplay) (container : Node) :
  render d2 (render d1 container) = render d2 container /\
  (forall tag attrs kids,
     exists kids',
       render d2 (Elem tag attrs kids) =
         Elem tag (attr_set "class" ("display display--" +:+ display_type d2) attrs) kids' /\
       forall k, k <> "class" ->
         getAttribute k (render d2 (Elem tag attrs kids)) = attr_get k attrs).
Proof.
  split; [apply render_over_render|].
  intros tag attrs kids. rewrite render_Elem. eexists. split; [done|].
  intros k Hk. cbn [getAttribute]. by apply attr_get_set_ne.
Qed.

(** X6.  What a rendering reads as.  For a unified display the text of the
    target is the prefix, the value, the suffix, the label and the sublabel,
    one after the other, a field left out counting as empty.  For a split
    display it is the date, a blank and the era when there is one, the
    separator (" • " when left out), the time, a blank and the period when
    there is one.  For a segmented display it is the segments, each its value
    followed by its label, joined by the separator (":" when left out). *)
Theorem render_textContent (tag : string) (attrs : list (string * string))
    (kids : list Node) :
  (forall d : UnifiedDisplay,
     textContent (render (Unified d) (Elem tag attrs kids)) =
       default "" (unified_prefix d) +:+ unified_value d +:+
       default "" (unified_suffix d) +:+ default "" (unified_label d) +:+
       default "" (unified_sublabel d)) /\
  (forall d : SplitDisplay,
     textContent (render (Split d) (Elem tag attrs kids)) =
       date_formatted (split_date d) +:+ after_blank (date_era (split_date d)) +:+
       default " • " (split_separator d) +:+
       time_formatted (split_time d) +:+ after_blank (time_period (split_time d))) /\
  (forall d : SegmentedDisplay,
     textContent (render (Segmented d) (Elem tag attrs kids)) =
       String.concat (default ":" (segmented_separator d))
         ((fun seg => String_of (segment_value seg) +:+ segment_label seg) <$> segments d)).
Proof.
  split; [|split]; intros d; unfold render;
    cbn [clear_innerHTML set_className setAttribute].
  - rewrite renderUnified_Elem, textContent_Elem. cbn [app].
    rewrite texts_cons, !texts_app, textContent_Elem.
    rewrite !texts_app, texts_cons, textContent_new_element.
    rewrite !texts_plain_node. cbn [app texts foldr].
    by rewrite !string_app_assoc.
  - rewrite renderSplit_Elem, textContent_Elem. cbn [app].
    rewrite !texts_cons, !textContent_Elem, !texts_app.
    rewrite !texts_optional_node, !textContent_new_element.
    rewrite !texts_childNodes_new_element.
    fold (after_blank (date_era (split_date d))).
    fold (after_blank (time_period (split_time d))).
    cbn [texts foldr]. by rewrite !string_app_assoc, !string_app_nil_r.
  - rewrite renderSegmented_Elem, textContent_Elem. cbn [app].
    rewrite texts_singleton, textContent_Elem, texts_interleave.
    unfold segment_separator. rewrite textContent_new_element.
    rewrite <- list_fmap_compose. f_equal. apply list_fmap_ext. intros i seg _.
    unfold compose, segment_element.
    change (set_className "display__segment" (createElement "div"))
      with (Elem "div" [("class", "display__segment")] []).
    cbn [appendChild app]. rewrite textContent_Elem.
    change (texts [?a; ?b]) with (texts ([a] ++ [b])).
    by rewrite texts_app, !texts_singleton, !textContent_new_element.
Qed.

(** X7.  [render] paints neither the unit labels of a split display nor the
    sublabels of the segments: a display renders as the display without
    them. *)
Theorem render_ignores_unit_labels_and_sublabels (container : Node) :
  (forall date formatted period unitLabels separator,
     render (Split (mkSplitDisplay date (mkSplitTime formatted period unitLabels) separator))
       container =
     render (Split (mkSplitDisplay date (mkSplitTime formatted period None) separator))
       container) /\
  (forall segs separator,
     render (Segmented (mkSegmentedDisplay segs separator)) container =
     render
       (Segmented
          (mkSegmentedDisplay
             ((fun seg => mkSegment (segment_value seg) (segment_label seg) None) <$> segs)
             separator))
       container).
Proof.
  split; [done|]. intros segs separator.
  destruct container as [data|tag attrs kids]; [by rewrite !render_Text|].
  unfold render. cbn [clear_innerHTML set_className setAttribute display_type].
  rewrite !renderSegmented_Elem. cbn [segments].
  rewrite <- list_fmap_compose.
  by rewrite (list_fmap_ext (segment_element ∘ _) segment_element segs).
Qed.

End WithHost.
End RendererMore.

(** ** visual-renderer.ts: the ring, the last call, other shapes, [clearVisual] *)

Module VisualMore.
Import DomFacts VisualRenderer VisualSpec VisualSpecMore VisualFacts FloatFacts.
Section WithHost.
Context `{!JsHost}.

#[local] Open Scope float_scope.

Lemma renderVisual_each_snoc visual dates date container :
  renderVisual_each visual (dates ++ [date]) container =
    (c ← renderVisual_each visual dates container; renderVisual visual date c).
Proof.
  unfold renderVisual_each. rewrite for_of_app.
  destruct (for_of _ container dates) as [c|e]; [|done].
  cbn [mbind Completion_bind for_of]. by destruct (renderVisual visual date c).
Qed.

Lemma renderVisual_each_cons visual date dates container :
  renderVisual_each visual (date :: dates) container =
    (c ← renderVisual visual date container; renderVisual_each visual dates c).
Proof. done. Qed.

(** A bar after its calls: the width of the last one. *)
Lemma renderProgressBar_each visual dates date tag attrs ks :
  first_match "visual__svg" ks = None ->
  renderVisual_each (ProgressBar visual) (dates ++ [date]) (Elem tag attrs ks) =
    Normal (Elem tag attrs (ks ++ [bar_svg (bar_width visual date)])).
Proof.
  intros Hks. rewrite renderVisual_each_snoc. destruct dates as [|d dates].
  - by apply renderProgressBar_fresh.
  - rewrite renderVisual_each_cons. cbn [renderVisual].
    rewrite renderProgressBar_fresh by done. cbn [mbind Completion_bind].
    destruct (renderVisual_each_again (ProgressBar visual) dates tag attrs ks
                (bar_svg (bar_width visual d)) Hks) as (svg & Hrun & [w ->] & _).
    { by eexists. }
    rewrite Hrun. cbn [mbind Completion_bind].
    by apply renderProgressBar_again.
Qed.

(** A ring after its calls: the dash offset of the last one. *)
Lemma renderProgressRing_each visual dates date tag attrs ks :
  first_match "visual__svg" ks = None ->
  renderVisual_each (ProgressRing visual) (dates ++ [date]) (Elem tag attrs ks) =
    Normal (Elem tag attrs (ks ++ [ring_svg (ring_offset visual date)])).
Proof.
  intros Hks. rewrite renderVisual_each_snoc. destruct dates as [|d dates].
  - by apply renderProgressRing_fresh.
  - rewrite renderVisual_each_cons. cbn [renderVisual].
    rewrite renderProgressRing_fresh by done. cbn [mbind Completion_bind].
    destruct (renderVisual_each_again (ProgressRing visual) dates tag attrs ks
                (ring_svg (ring_offset visual d)) Hks) as (svg & Hrun & [o ->] & _).
    { by eexists. }
    rewrite Hrun. cbn [mbind Completion_bind].
    by apply renderProgressRing_again.
Qed.

(** X8.  On a target that had no scaffold, after any number of earlier calls
    for the progress ring, [renderVisual] completes and leaves the arc with
    the dash offset [String(circumference * (1 - Math.min(getValue(date) / max, 1)))]
    and the dash array [String(circumference)], for the circumference
    [2 * Math.PI * ((120 - 4) / 2)].  A quotient of 1 or more gives the offset
    0, the full ring; a quotient of 0 gives the circumference, the empty
    ring; there is no lower clamp. *)
Theorem progress_ring_offset (visual : ProgressRingVisual) (dates : list Date)
    (date : Date) (tag : string) (attrs : list (string * string)) (kids : list Node) :
  querySelector "visual__svg" (Elem tag attrs kids) = None ->
  exists c0 c' arc,
    renderVisual_each (ProgressRing visual) dates (Elem tag attrs kids) = Normal c0 /\
    renderVisual (ProgressRing visual) date c0 = Normal c' /\
    scaffold_node c' "visual__fill" = Some arc /\
    getAttribute "stroke-dashoffset" arc =
      Some (Number_toString
              (2 * Math_PI * ((VISUAL_SIZE - STROKE_WIDTH) / 2) *
               (1 - Math_min (ring_getValue visual date / ring_max visual) 1))) /\
    getAttribute "stroke-dasharray" arc =
      Some (Number_toString (2 * Math_PI * ((VISUAL_SIZE - STROKE_WIDTH) / 2))) /\
    (forall q, PrimFloat.leb 1 q = true ->
       2 * Math_PI * ((VISUAL_SIZE - STROKE_WIDTH) / 2) * (1 - Math_min q 1) = 0) /\
    (forall q, PrimFloat.ltb q 1 = true -> Math_min q 1 = q) /\
    2 * Math_PI * ((VISUAL_SIZE - STROKE_WIDTH) / 2) * (1 - Math_min (0 / 1000) 1) =
      2 * Math_PI * ((VISUAL_SIZE - STROKE_WIDTH) / 2).
Proof.
  rewrite querySelector_Elem. intros Hks.
  assert (exists c0,
            renderVisual_each (ProgressRing visual) dates (Elem tag attrs kids) = Normal c0 /\
            renderVisual (ProgressRing visual) date c0 =
              Normal (Elem tag attrs (kids ++ [ring_svg (ring_offset visual date)])))
    as (c0 & Hrun & Hcall).
  { pose proof (renderProgressRing_each visual dates date tag attrs kids Hks) as Heach.
    rewrite renderVisual_each_snoc in Heach.
    destruct (renderVisual_each (ProgressRing visual) dates (Elem tag attrs kids))
      as [c0|e]; [|done].
    by exists c0. }
  exists c0. eexists. eexists.
  split; [exact Hrun|]. split; [exact Hcall|].
  rewrite !scaffold_node_last by done.
  split; [vm_compute; reflexivity|]. split; [reflexivity|].
  split; [reflexivity|].
  split; [|split; [|by vm_compute]].
  - intros q Hq. rewrite Math_min_clamp by done. by vm_compute.
  - apply Math_min_below.
Qed.

(** A clock after its calls. *)
Lemma renderClock_each_cons visual date dates tag attrs ks :
  first_match "visual__svg" ks = None ->
  exists ht mt st,
    renderVisual_each (Clock visual) (date :: dates) (Elem tag attrs ks) =
      Normal (Elem tag attrs (ks ++ [clock_svg visual ht mt st])) /\
    (is_Some st <-> is_Some (second (getHands visual date))).
Proof.
  intros Hks.
  destruct (VisualProperties.renderClock_run visual date dates tag attrs ks Hks)
    as (ht1 & mt1 & st1 & ht & mt & st & Hcall & Hrun & Hst1 & Hst).
  exists ht, mt, st. split; [|by rewrite Hst].
  rewrite renderVisual_each_cons, Hcall. exact Hrun.
Qed.

(** X9.  A target shows the last call only.  On a target that had no
    scaffold, a run of calls leaves what its last call alone leaves: the
    width of a bar, the dash offset of a ring and the hands of a clock keep
    nothing of the earlier calls.  For a clock this asks that the hands have
    a second on the last call exactly when they had one on the first, which
    decides whether there is a second hand.  So a call repeated at the same
    instant changes nothing. *)
Theorem last_call_wins (visual : VisualDefinition) (dates : list Date) (date : Date)
    (tag : string) (attrs : list (string * string)) (kids : list Node) :
  querySelector "visual__svg" (Elem tag attrs kids) = None ->
  (steady visual dates date ->
   renderVisual_each visual (dates ++ [date]) (Elem tag attrs kids) =
     renderVisual visual date (Elem tag attrs kids)) /\
  renderVisual_each visual [date; date] (Elem tag attrs kids) =
    renderVisual visual date (Elem tag attrs kids).
Proof.
  rewrite querySelector_Elem. intros Hks.
  assert (forall dates,
            steady visual dates date ->
            renderVisual_each visual (dates ++ [date]) (Elem tag attrs kids) =
              renderVisual visual date (Elem tag attrs kids)) as Hlast.
  { clear dates. intros dates Hsteady. destruct visual as [v|v|v].
    - rewrite renderProgressBar_each by done. cbn [renderVisual].
      by rewrite renderProgressBar_fresh.
    - rewrite renderProgressRing_each by done. cbn [renderVisual].
      by rewrite renderProgressRing_fresh.
    - rewrite renderVisual_each_snoc.
      destruct dates as [|d dates]; [done|].
      destruct (renderClock_each_cons v d dates tag attrs kids Hks)
        as (ht & mt & st & -> & Hst).
      cbn [mbind Completion_bind renderVisual].
      rewrite renderClock_again, renderClock_fresh by done.
      cbn [steady hd] in Hsteady. rewrite <- Hst in Hsteady.
      destruct st as [t0|], (second (getHands v date)) as [s|]; try done.
      + destruct Hsteady as [Hsome _].
        by destruct Hsome as [? ?]; [eexists|].
      + destruct Hsteady as [_ Hsome].
        by destruct Hsome as [? ?]; [eexists|]. }
  split; [by apply Hlast|].
  apply (Hlast [date]). by destruct visual.
Qed.

Lemma clearVisual_fresh tag attrs ks :
  first_match "visual__svg" ks = None ->
  clearVisual (Elem tag attrs ks) = Elem tag attrs ks.
Proof.
  intros Hks. unfold clearVisual, querySelector_from.
  cbn [node_at mbind option_bind]. by rewrite querySelector_Elem, Hks.
Qed.

Lemma clearVisual_last tag attrs ks svg :
  first_match "visual__svg" ks = None ->
  has_class "visual__svg" svg = true ->
  clearVisual (Elem tag attrs (ks ++ [svg])) = Elem tag attrs ks.
Proof.
  intros Hks Hsvg. unfold clearVisual.
  rewrite querySelector_from_root_last by done. cbn [remove_at].
  by rewrite delete_middle, app_nil_r.
Qed.

Lemma rendered_shape_class visual svg :
  rendered visual svg -> has_class (shape_class visual) svg = true.
Proof.
  destruct visual as [v|v|v]; simpl.
  - by intros [w ->].
  - by intros [o ->].
  - by intros (ht & mt & st & ->).
Qed.

(** The target after any calls: as it was, or with one scaffold at the end. *)
Lemma renderVisual_each_shape visual dates tag attrs ks :
  first_match "visual__svg" ks = None ->
  renderVisual_each visual dates (Elem tag attrs ks) = Normal (Elem tag attrs ks) \/
  exists svg,
    renderVisual_each visual dates (Elem tag attrs ks) =
      Normal (Elem tag attrs (ks ++ [svg])) /\
    rendered visual svg.
Proof.
  intros Hks. destruct dates as [|d dates]; [by left|right].
  destruct (renderVisual_fresh visual d tag attrs ks Hks) as (svg1 & Hcall & Hsvg1 & _).
  destruct (renderVisual_each_again visual dates tag attrs ks svg1 Hks Hsvg1)
    as (svg & Hrun & Hsvg & _).
  exists svg. split; [|done]. by rewrite renderVisual_each_cons, Hcall.
Qed.

(** X10.  [clearVisual] undoes the renderer: on a target that had no
    scaffold, after any number of calls of [renderVisual] (none too),
    [clearVisual] leaves the target as it was before them; a call for any
    visual, of the same shape or another, then completes and builds the
    scaffold of that visual. *)
Theorem clearVisual_restores (visual : VisualDefinition) (dates : list Date)
    (tag : string) (attrs : list (string * string)) (kids : list Node) :
  querySelector "visual__svg" (Elem tag attrs kids) = None ->
  exists c,
    renderVisual_each visual dates (Elem tag attrs kids) = Normal c /\
    clearVisual c = Elem tag attrs kids /\
    forall (visual' : VisualDefinition) (date : Date),
      exists svg,
        renderVisual visual' date (clearVisual c) =
          Normal (Elem tag attrs (kids ++ [svg])) /\
        has_class (shape_class visual') svg = true /\
        scaffold visual' svg = scaffold visual' (built_svg visual' date).
Proof.
  rewrite querySelector_Elem. intros Hks.
  assert (exists c,
            renderVisual_each visual dates (Elem tag attrs kids) = Normal c /\
            clearVisual c = Elem tag attrs kids) as (c & Hrun & Hclear).
  { destruct (renderVisual_each_shape visual dates tag attrs kids Hks)
      as [Hrun|(svg & Hrun & Hsvg)].
    - eexists. split; [exact Hrun|]. by apply clearVisual_fresh.
    - eexists. split; [exact Hrun|].
      apply clearVisual_last; [done|]. by apply (rendered_has_class visual). }
  exists c. split; [done|]. split; [done|].
  intros visual' date. rewrite Hclear.
  destruct (renderVisual_fresh visual' date tag attrs kids Hks) as (svg & Hcall & Hsvg & Hsc).
  exists svg. split; [done|]. split; [|done]. by apply rendered_shape_class.
Qed.

(** *** A call on the scaffold of another shape *)

Lemma no_fill_among_hands ht mt st :
  first_match "visual__fill" (clock_hands ht mt st) = None.
Proof. destruct ht, mt, st as [[?|]|]; vm_compute; reflexivity. Qed.

Lemma renderProgressBar_on_clock bar date tag attrs ks v ht mt st :
  first_match "visual__svg" ks = None ->
  renderProgressBar bar date (Elem tag attrs (ks ++ [clock_svg v ht mt st])) =
    Throw TypeError.
Proof.
  intros Hks. unfold renderProgressBar.
  rewrite svg_of_found by (done || apply has_class_clock_svg).
  by rewrite query_hand, no_fill_among_hands.
Qed.

Lemma renderProgressRing_on_clock ring date tag attrs ks v ht mt st :
  first_match "visual__svg" ks = None ->
  renderProgressRing ring date (Elem tag attrs (ks ++ [clock_svg v ht mt st])) =
    Throw TypeError.
Proof.
  intros Hks. unfold renderProgressRing.
  rewrite svg_of_found by (done || apply has_class_clock_svg).
  by rewrite query_hand, no_fill_among_hands.
Qed.

Lemma renderClock_without_hands v date tag attrs ks svg :
  first_match "visual__svg" ks = None ->
  has_class "visual__svg" svg = true ->
  querySelector "visual__hand--hour" svg = None ->
  renderClock v date (Elem tag attrs (ks ++ [svg])) = Throw TypeError.
Proof.
  intros Hks Hsvg Hhour. unfold renderClock.
  rewrite svg_of_found by done. by rewrite querySelector_from_last, Hhour.
Qed.

Lemma renderProgressBar_on_ring bar date tag attrs ks o :
  first_match "visual__svg" ks = None ->
  renderProgressBar bar date (Elem tag attrs (ks ++ [ring_svg o])) =
    Normal (Elem tag attrs
              (ks ++ [update_at [1%nat] (setAttribute "width" (bar_width bar date))
                        (ring_svg o)])).
Proof.
  intros Hks. unfold renderProgressBar. rewrite svg_of_found by done.
  rewrite querySelector_from_last.
  change (querySelector "visual__fill" (ring_svg o)) with (Some [1%nat]).
  cbn [fmap option_fmap option_map deref mbind Completion_bind mret Completion_ret].
  by rewrite update_at_last.
Qed.

Lemma renderProgressRing_on_bar ring date tag attrs ks w :
  first_match "visual__svg" ks = None ->
  renderProgressRing ring date (Elem tag attrs (ks ++ [bar_svg w])) =
    Normal (Elem tag attrs
              (ks ++ [update_at [1%nat]
                        (setAttribute "stroke-dashoffset" (ring_offset ring date))
                        (bar_svg w)])).
Proof.
  intros Hks. unfold renderProgressRing. rewrite svg_of_found by done.
  rewrite querySelector_from_last.
  change (querySelector "visual__fill" (bar_svg w)) with (Some [1%nat]).
  cbn [fmap option_fmap option_map deref mbind Completion_bind mret Completion_ret].
  by rewrite update_at_last.
Qed.

(** X11.  A call on the scaffold of another shape.  The renderer looks for
    any [visual__svg] node and does not tell the shapes apart: on a target
    that a clock has drawn on, a call for a bar or a ring throws a
    [TypeError], for the scaffold has no fill; on a target that a bar or a
    ring has drawn on, a call for a clock throws a [TypeError], for the
    scaffold has no hands; a call for a bar on the scaffold of a ring, or for
    a ring on the scaffold of a bar, completes and leaves the scaffold of the
    first shape.  Nothing but [clearVisual] makes room for the new shape. *)
Theorem renderVisual_on_another_shape (visual visual' : VisualDefinition)
    (date : Date) (dates : list Date) (date' : Date)
    (tag : string) (attrs : list (string * string)) (kids : list Node) :
  querySelector "visual__svg" (Elem tag attrs kids) = None ->
  exists c,
    renderVisual_each visual (date :: dates) (Elem tag attrs kids) = Normal c /\
    (is_clock visual <> is_clock visual' ->
     renderVisual visual' date' c = Throw TypeError) /\
    (is_clock visual = false -> is_clock visual' = false ->
     exists svg,
       renderVisual visual' date' c = Normal (Elem tag attrs (kids ++ [svg])) /\
       has_class (shape_class visual) svg = true /\
       count_class "visual__svg" (Elem tag attrs (kids ++ [svg])) = 1%nat).
Proof.
  rewrite querySelector_Elem. intros Hks.
  destruct (renderVisual_each_shape visual (date :: dates) tag attrs kids Hks)
    as [Hrun|(svg & Hrun & Hsvg)].
  { exfalso. rewrite renderVisual_each_cons in Hrun.
    destruct (renderVisual_fresh visual date tag attrs kids Hks) as (svg1 & Hcall & Hsvg1 & _).
    rewrite Hcall in Hrun. cbn [mbind Completion_bind] in Hrun.
    destruct (renderVisual_each_again visual dates tag attrs kids svg1 Hks Hsvg1)
      as (svg & Hrun' & _).
    rewrite Hrun' in Hrun. injection Hrun as Hrun.
    apply (f_equal length) in Hrun. rewrite length_app in Hrun. simpl in Hrun. lia. }
  eexists. split; [exact Hrun|].
  destruct visual as [v|v|v], visual' as [v'|v'|v']; cbn [is_clock renderVisual];
    (split; [try done; intros _|try done; intros _ _]).
  - destruct Hsvg as [w ->]. exists (bar_svg (bar_width v' date')).
    split; [by apply renderProgressBar_again|]. split; [done|].
    by rewrite count_class_last.
  - destruct Hsvg as [w ->]. eexists.
    split; [by apply renderProgressRing_on_bar|]. split; [done|].
    by rewrite count_class_last.
  - destruct Hsvg as [w ->]. by apply renderClock_without_hands.
  - destruct Hsvg as [o ->]. eexists.
    split; [by apply renderProgressBar_on_ring|]. split; [done|].
    by rewrite count_class_last.
  - destruct Hsvg as [o ->]. exists (ring_svg (ring_offset v' date')).
    split; [by apply renderProgressRing_again|]. split; [done|].
    by rewrite count_class_last.
  - destruct Hsvg as [o ->]. by apply renderClock_without_hands.
  - destruct Hsvg as (ht & mt & st & ->). by apply renderProgressBar_on_clock.
  - destruct Hsvg as (ht & mt & st & ->). by apply renderProgressRing_on_clock.
Qed.

(** *** What the scaffold of a clock is made of *)

Lemma weight_marker cls visual i :
  weight cls (marker visual i) = if bool_decide (cls = "visual__marker") then 1%nat else 0%nat.
Proof.
  destruct (marker_shape visual i) as [attrs' ->].
  unfold weight, has_class. cbn [getAttribute attr_get].
  rewrite bool_decide_eq_true_2 by done. rewrite count_class_Elem. cbn [sum_list_with].
  change (class_tokens "visual__marker") with ["visual__marker"%string].
  by rewrite (bool_decide_ext _ (cls = "visual__marker"))
    by apply list_elem_of_singleton.
Qed.

Lemma sum_weight_markers cls visual (idxs : list nat) :
  sum_list_with (weight cls) (marker visual <$> idxs) =
    if bool_decide (cls = "visual__marker") then length idxs else 0%nat.
Proof.
  induction idxs as [|i idxs IH]; [by destruct (bool_decide _)|].
  rewrite fmap_cons. cbn [sum_list_with length].
  rewrite IH, weight_marker. by destruct (bool_decide _).
Qed.

Lemma count_class_appended cls tag attrs ks svg :
  count_class cls (Elem tag attrs (ks ++ [svg])) =
    (count_class cls (Elem tag attrs ks) + weight cls svg)%nat.
Proof.
  rewrite !count_class_weight, sum_list_with_app. cbn [sum_list_with]. lia.
Qed.

Lemma weight_clock_svg cls visual ht mt st :
  cls <> "visual__svg" -> cls <> "visual__svg--clock" ->
  weight cls (clock_svg visual ht mt st) =
    (weight cls clock_face +
     (if bool_decide (cls = "visual__marker") then divisions visual else 0) +
     sum_list_with (weight cls) (clock_hands ht mt st))%nat.
Proof.
  intros Hsvg Hclock. unfold clock_svg, clock_svg_attrs, weight at 1, has_class.
  cbn [getAttribute attr_get]. rewrite bool_decide_eq_true_2 by done.
  change (class_tokens "visual__svg visual__svg--clock")
    with ["visual__svg"%string; "visual__svg--clock"%string].
  rewrite bool_decide_eq_false_2
    by (rewrite !not_elem_of_cons; split_and!; [done..|apply not_elem_of_nil]).
  rewrite count_class_weight, sum_list_with_app. unfold clock_before.
  cbn [sum_list_with]. rewrite sum_weight_markers, length_seq. lia.
Qed.

(** X12.  What the scaffold of a clock is made of.  On a target that had no
    scaffold, after one call or more for a clock, the target has gained one
    face, one centre dot, as many markers as the clock has divisions (the
    loop runs for [i] from 0 up to [divisions], that excluded), and two hands
    or three: three exactly when the hands had a second on the first
    call. *)
Theorem clock_scaffold_census (visual : ClockVisual) (date : Date) (dates : list Date)
    (tag : string) (attrs : list (string * string)) (kids : list Node) :
  querySelector "visual__svg" (Elem tag attrs kids) = None ->
  exists cn,
    renderVisual_each (Clock visual) (date :: dates) (Elem tag attrs kids) = Normal cn /\
    count_class "visual__face" cn =
      (count_class "visual__face" (Elem tag attrs kids) + 1)%nat /\
    count_class "visual__center" cn =
      (count_class "visual__center" (Elem tag attrs kids) + 1)%nat /\
    count_class "visual__marker" cn =
      (count_class "visual__marker" (Elem tag attrs kids) + divisions visual)%nat /\
    count_class "visual__hand" cn =
      (count_class "visual__hand" (Elem tag attrs kids) +
       match second (getHands visual date) with Some _ => 3 | None => 2 end)%nat /\
    count_class "visual__hand--hour" cn =
      (count_class "visual__hand--hour" (Elem tag attrs kids) + 1)%nat /\
    count_class "visual__hand--minute" cn =
      (count_class "visual__hand--minute" (Elem tag attrs kids) + 1)%nat.
Proof.
  rewrite querySelector_Elem. intros Hks.
  destruct (renderClock_each_cons visual date dates tag attrs kids Hks)
    as (ht & mt & st & Hrun & Hst).
  eexists. split; [exact Hrun|].
  rewrite !count_class_appended, !weight_clock_svg by done.
  repeat split; f_equal.
  - destruct ht, mt, st as [[?|]|]; vm_compute; reflexivity.
  - destruct ht, mt, st as [[?|]|]; vm_compute; reflexivity.
  - rewrite bool_decide_eq_true_2 by done.
    replace (weight "visual__marker" clock_face) with 0%nat by (vm_compute; reflexivity).
    replace (sum_list_with (weight "visual__marker") (clock_hands ht mt st)) with 0%nat
      by (destruct ht, mt, st as [[?|]|]; vm_compute; reflexivity).
    lia.
  - destruct (second (getHands visual date)) as [s|], st as [t0|];
      try (by destruct Hst as [[? ?] _]; [eexists|]);
      try (by destruct Hst as [_ [? ?]]; [eexists|]);
      destruct ht, mt; try destruct t0; vm_compute; reflexivity.
  - destruct ht, mt, st as [[?|]|]; vm_compute; reflexivity.
  - destruct ht, mt, st as [[?|]|]; vm_compute; reflexivity.
Qed.

End WithHost.

Lemma progress_ring_offset_witness :
  exists c' arc,
    @renderVisual sample_host (ProgressRing overfull_ring) 0%Z sample_target = Normal c' /\
    scaffold_node c' "visual__fill" = Some arc /\
    getAttribute "stroke-dashoffset" arc = Some "0".
Proof.
  destruct (@progress_ring_offset sample_host overfull_ring [] 0%Z
              "div" [("id", "time-visual")] [] eq_refl)
    as (c0 & c' & arc & Hrun & Hcall & Harc & Hoffset & _).
  injection Hrun as <-.
  exists c', arc. split; [exact Hcall|]. split; [exact Harc|].
  rewrite Hoffset. vm_compute. reflexivity.
Defined.

Lemma last_call_wins_witness :
  @renderVisual_each sample_host (Clock three_oclock) ([1%Z; 2%Z] ++ [3%Z]) sample_target =
    @renderVisual sample_host (Clock three_oclock) 3%Z sample_target.
Proof.
  destruct (@last_call_wins sample_host (Clock three_oclock) [1%Z; 2%Z] 3%Z
              "div" [("id", "time-visual")] [] eq_refl) as [Hlast _].
  apply Hlast. simpl. split; intros Hsecond; exact Hsecond.
Defined.

Lemma clearVisual_restores_witness :
  exists c,
    @renderVisual_each sample_host (Clock three_oclock) [0%Z; 1%Z] sample_target = Normal c /\
    clearVisual c = sample_target.
Proof.
  destruct (@clearVisual_restores sample_host (Clock three_oclock) [0%Z; 1%Z]
              "div" [("id", "time-visual")] [] eq_refl) as (c & Hrun & Hclear & _).
  exists c. split; [exact Hrun | exact Hclear].
Defined.

Lemma renderVisual_on_another_shape_witness :
  exists c,
    @renderVisual_each sample_host (Clock three_oclock) [0%Z] sample_target = Normal c /\
    @renderVisual sample_host (ProgressBar half_bar) 1%Z c = Throw TypeError.
Proof.
  destruct (@renderVisual_on_another_shape sample_host (Clock three_oclock)
              (ProgressBar half_bar) 0%Z [] 1%Z "div" [("id", "time-visual")] [] eq_refl)
    as (c & Hrun & Hthrow & _).
  exists c. split; [exact Hrun|]. apply Hthrow. simpl. discriminate.
Defined.

Lemma clock_scaffold_census_witness :
  exists cn,
    @renderVisual_each sample_host (Clock three_oclock) [0%Z; 1%Z] sample_target =
      Normal cn /\
    count_class "visual__marker" cn = 12%nat /\
    count_class "visual__hand" cn = 2%nat.
Proof.
  destruct (@clock_scaffold_census sample_host three_oclock 0%Z [1%Z]
              "div" [("id", "time-visual")] [] eq_refl)
    as (cn & Hrun & _ & _ & Hmarker & Hhand & _).
  exists cn. split; [exact Hrun|]. rewrite Hmarker, Hhand.
  split; vm_compute; reflexivity.
Defined.

End VisualMore.

(** ** main.ts: the page between events *)

Module AppFacts.
Import RegistryFacts DomFacts Renderer VisualRenderer VisualSpec VisualFacts App.

Lemma Map_get_elem (m : RegistryMap) k :
  Map_get m k <> JUndefined -> Map_get m k ∈ Map_values m.
Proof.
  unfold Map_values. induction m as [|[k' v] m IH]; [done|]. simpl.
  destruct (bool_decide (k' = k)).
  - intros _. apply list_elem_of_here.
  - intros Hget. apply list_elem_of_further. by apply IH.
Qed.

Lemma getSystem_truthy_elem (r : RegistryMap) id :
  truthy (getSystem r id) = true -> getSystem r id ∈ getAllSystems r.
Proof.
  intros Htruthy. apply Map_get_elem. intros Hget.
  unfold getSystem in Htruthy. by rewrite Hget in Htruthy.
Qed.

Lemma getDefaultSystem_elem (r : RegistryMap) :
  getAllSystems r <> [] -> getDefaultSystem r ∈ getAllSystems r.
Proof.
  intros Hne. unfold getDefaultSystem, nullish_coalesce.
  destruct (is_nullish (Map_get r "standard")) eqn:Hnullish.
  - unfold getAllSystems in *. destruct (Map_values r) as [|v vs]; [done|].
    apply list_elem_of_here.
  - apply Map_get_elem. intros Hget. by rewrite Hget in Hnullish.
Qed.

Lemma tick_format_valid v :
  validateSystem v = true -> exists format, Main.tick_format v = Normal format.
Proof.
  intros (props & id & name & description & format & -> & _ & _ & _ & Hformat)
    %validateSystem_well_formed.
  exists format. unfold Main.tick_format, get_prop. cbn [is_nullish prop].
  by rewrite Hformat.
Qed.

Lemma validateSystem_truthy v : validateSystem v = true -> truthy v = true.
Proof. by intros (props & id & name & description & format & -> & _)%validateSystem_well_formed. Qed.

Lemma Map_get_lookup (m : RegistryMap) k :
  Map_get m k <> JUndefined -> (k, Map_get m k) ∈ m.
Proof.
  induction m as [|[k' v] m IH]; [done|]. simpl.
  destruct (decide (k' = k)) as [->|Hne].
  - rewrite bool_decide_eq_true_2 by done. intros _. apply list_elem_of_here.
  - rewrite bool_decide_eq_false_2 by done. intros Hget.
    apply list_elem_of_further. by apply IH.
Qed.

Lemma accepted_entries_ids taken systems :
  system_id <$> (accepted_entries taken systems).*2 = (accepted_entries taken systems).*1.
Proof.
  revert taken. induction systems as [|c systems IH]; intros taken; [done|].
  cbn [accepted_entries]. destruct (validateSystem c && _); [|apply IH].
  rewrite !fmap_cons. cbn [fst snd]. by rewrite IH.
Qed.

(** The count that [whole_number] reads off a number is that number. *)
Lemma SFcompare_Eq_finite m1 e1 y :
  SFcompare (S754_finite false m1 e1) y = Some Eq -> y = S754_finite false m1 e1.
Proof.
  destruct y as [s|s| |s m2 e2]; simpl; try done; try (by destruct s).
  destruct s; [done|].
  destruct (e1 ?= e2)%Z eqn:He; try done.
  apply Z.compare_eq in He as ->.
  destruct (Pos.compare_cont Eq m1 m2) eqn:Hm; try done.
  by apply Pos.compare_eq in Hm as ->.
Qed.

Lemma whole_number_exact x n : whole_number x = Some n -> number_of_nat n = x.
Proof.
  unfold whole_number. destruct (Prim2SF x) as [s|s| |s m e] eqn:Hx; try done.
  - destruct s; [done|]. intros [= <-].
    rewrite <- (FloatAxioms.SF2Prim_Prim2SF x), Hx. reflexivity.
  - destruct s; [done|]. destruct (e <=? 0)%Z; [|done].
    destruct (PrimFloat.eqb x _) eqn:Heq; [|done]. intros [= <-].
    rewrite FloatAxioms.eqb_spec in Heq. unfold SFeqb in Heq. rewrite Hx in Heq.
    destruct (SFcompare _ _) as [[| |]|] eqn:Hc; try done.
    apply SFcompare_Eq_finite in Hc.
    rewrite <- (FloatAxioms.SF2Prim_Prim2SF x), Hx, <- Hc.
    by rewrite FloatAxioms.SF2Prim_Prim2SF.
Qed.

(** *** The select element *)

Lemma first_where_app test ks ks' :
  first_where test (ks ++ ks') =
    match first_where test ks with
    | Some i => Some i
    | None => (fun j => length ks + j)%nat <$> first_where test ks'
    end.
Proof.
  induction ks as [|k ks IH]; cbn [app first_where length].
  - by destruct (first_where test ks').
  - destruct (test k); [done|]. rewrite IH.
    destruct (first_where test ks); [done|]. by destruct (first_where test ks').
Qed.

Lemma first_where_Some test ks i :
  first_where test ks = Some i -> exists kid, ks !! i = Some kid /\ test kid = true.
Proof.
  revert i. induction ks as [|k ks IH]; intros i; [done|]. cbn [first_where].
  destruct (test k) eqn:Hk.
  - intros [= <-]. by exists k.
  - destruct (first_where test ks) as [j|]; [|done]. intros [= <-]. by apply IH.
Qed.

Lemma first_where_elem test ks kid :
  kid ∈ ks -> test kid = true -> is_Some (first_where test ks).
Proof.
  intros Hkid Htest. induction ks as [|k ks IH]; [by apply elem_of_nil in Hkid|].
  cbn [first_where]. destruct (test k) eqn:Hk; [done|].
  apply elem_of_cons in Hkid as [->|Hkid]; [congruence|].
  destruct (IH Hkid) as [j ->]. by eexists.
Qed.

Lemma new_option_closed sys :
  new_option sys =
    Elem "option" [("value", system_id sys); ("title", system_description sys)]
      (if bool_decide (system_name sys = "") then [] else [Text (system_name sys)]).
Proof. reflexivity. Qed.

Lemma new_option_enabled sys : is_enabled_option (new_option sys) = true.
Proof. by rewrite new_option_closed. Qed.

Lemma new_option_value sys : option_value (new_option sys) = system_id sys.
Proof.
  rewrite new_option_closed. unfold option_value. cbn [getAttribute attr_get].
  by rewrite bool_decide_eq_true_2.
Qed.

Lemma new_option_is_option sys : is_element "option" (new_option sys) = true.
Proof. by rewrite new_option_closed. Qed.

Lemma dropdown_Elem list :
  dropdown list = true -> exists tag attrs kids, list = Elem tag attrs kids.
Proof. destruct list as [data|tag attrs kids]; [done|]. by exists tag, attrs, kids. Qed.

Lemma dropdown_append sys tag attrs kids :
  dropdown (Elem tag attrs (kids ++ [new_option sys])) = dropdown (Elem tag attrs kids).
Proof.
  unfold dropdown, has_attribute. cbn [is_element getAttribute childNodes_of].
  rewrite forallb_app. cbn [forallb]. rewrite new_option_closed.
  cbn [is_element getAttribute attr_get].
  rewrite (bool_decide_eq_false_2 ("option" = "optgroup")) by done.
  rewrite (bool_decide_eq_true_2 ("value" = "value")) by done.
  cbn [negb andb orb]. by rewrite !andb_true_r.
Qed.

Lemma append_option_selector option p :
  selector (append_option option p) = appendChild option (selector p).
Proof. unfold append_option. cbn zeta. by destruct (dropdown _). Qed.

Lemma append_option_keeps option p :
  visualContainer (append_option option p) = visualContainer p /\
  display (append_option option p) = display p /\
  currentSystem (append_option option p) = currentSystem p /\
  tickHandle (append_option option p) = tickHandle p /\
  intervals (append_option option p) = intervals p /\
  saved_system (append_option option p) = saved_system p.
Proof. unfold append_option. cbn zeta. by destruct (dropdown _). Qed.

(** In a drop-down list with a fitting selection, the option that is
    appended is selected when none was. *)
Lemma append_option_selected sys p :
  dropdown (selector p) = true ->
  selection_fits (selector p) (selected p) = true ->
  dropdown (selector (append_option (new_option sys) p)) = true /\
  selection_fits (selector (append_option (new_option sys) p))
    (selected (append_option (new_option sys) p)) = true /\
  selected (append_option (new_option sys) p) =
    match selected p with
    | Some i => Some i
    | None => Some (length (childNodes_of (selector p)))
    end.
Proof.
  intros Hdrop Hfits.
  destruct (dropdown_Elem _ Hdrop) as (tag & attrs & kids & Hsel).
  unfold append_option. cbn zeta. cbn [with_selector selector selected].
  rewrite Hsel in *. cbn [appendChild childNodes_of] in *.
  rewrite dropdown_append, Hdrop. cbn [with_selected with_selector selector selected].
  split; [by rewrite dropdown_append|].
  unfold selectedness_setting, selection_fits in *. cbn [childNodes_of] in *.
  destruct (selected p) as [i|].
  - split; [|done]. destruct (kids !! i) as [kid|] eqn:Hkid; [|done].
    by rewrite (lookup_app_l_Some _ _ _ _ Hkid).
  - apply bool_decide_eq_true_1 in Hfits.
    rewrite first_where_app, Hfits. cbn [first_where].
    rewrite new_option_enabled. cbn [fmap option_fmap option_map].
    rewrite Nat.add_0_r. split; [|done].
    rewrite list_lookup_middle by done. apply new_option_is_option.
Qed.

Lemma read_visual_case `{!Providers} visual date definition :
  read_visual visual date = Returns definition ->
  if has_case visual then exists typed, definition = Some typed else definition = None.
Proof.
  unfold read_visual, has_case.
  destruct (prop visual "type") as [| | | |type| |]; try by intros [= <-].
  destruct (bool_decide (type = "progress-bar")).
  { cbn [orb]. destruct (method_of visual "getValue") as [getValue| |]; [|done..].
    cbn [mbind Outcome_bind].
    destruct (call_getValue getValue visual date) as [value| |]; [|done..].
    cbn [mbind Outcome_bind].
    destruct (number_of (prop visual "max")) as [max| |]; [|done..].
    intros [= <-]. by eexists. }
  destruct (bool_decide (type = "progress-ring")).
  { cbn [orb]. destruct (method_of visual "getValue") as [getValue| |]; [|done..].
    cbn [mbind Outcome_bind].
    destruct (call_getValue getValue visual date) as [value| |]; [|done..].
    cbn [mbind Outcome_bind].
    destruct (number_of (prop visual "max")) as [max| |]; [|done..].
    intros [= <-]. by eexists. }
  destruct (bool_decide (type = "clock")).
  { cbn [orb]. destruct (method_of visual "getHands") as [getHands| |]; [|done..].
    cbn [mbind Outcome_bind].
    destruct (call_getHands getHands visual date) as [hands| |]; [|done..].
    cbn [mbind Outcome_bind].
    destruct (count_of (prop visual "divisions")) as [divisions| |]; [|done..].
    intros [= <-]. by eexists. }
  by intros [= <-].
Qed.

(** The scaffold goes by the case and the divisions, not by what the
    accessor returns: what fits the visual as read at one date fits it as
    read at another. *)
Lemma read_visual_rendered `{!JsHost} `{!Providers} visual date1 date2 v1 v2 svg :
  read_visual visual date1 = Returns (Some v1) ->
  read_visual visual date2 = Returns (Some v2) ->
  rendered v1 svg -> rendered v2 svg.
Proof.
  unfold read_visual.
  destruct (prop visual "type") as [| | | |type| |]; try done.
  destruct (bool_decide (type = "progress-bar")).
  { destruct (method_of visual "getValue") as [getValue| |]; [|done..].
    cbn [mbind Outcome_bind].
    destruct (call_getValue getValue visual date1) as [value1| |]; [|done..].
    destruct (call_getValue getValue visual date2) as [value2| |]; [|done..].
    cbn [mbind Outcome_bind].
    destruct (number_of (prop visual "max")) as [max| |]; [|done..].
    by intros [= <-] [= <-]. }
  destruct (bool_decide (type = "progress-ring")).
  { destruct (method_of visual "getValue") as [getValue| |]; [|done..].
    cbn [mbind Outcome_bind].
    destruct (call_getValue getValue visual date1) as [value1| |]; [|done..].
    destruct (call_getValue getValue visual date2) as [value2| |]; [|done..].
    cbn [mbind Outcome_bind].
    destruct (number_of (prop visual "max")) as [max| |]; [|done..].
    by intros [= <-] [= <-]. }
  destruct (bool_decide (type = "clock")); [|done].
  destruct (method_of visual "getHands") as [getHands| |]; [|done..].
  cbn [mbind Outcome_bind].
  destruct (call_getHands getHands visual date1) as [hands1| |]; [|done..].
  destruct (call_getHands getHands visual date2) as [hands2| |]; [|done..].
  cbn [mbind Outcome_bind].
  destruct (count_of (prop visual "divisions")) as [divisions| |]; [|done..].
  by intros [= <-] [= <-].
Qed.

Section WithHost.
Context `{!JsHost} `{!JsCalls} `{!Providers}.
Variable r : RegistryMap.
Hypothesis Hvalid : forall v, v ∈ getAllSystems r -> validateSystem v = true.
Hypothesis Hbehaved : forall v, v ∈ getAllSystems r -> well_behaved v.
Variables (tag : string) (attrs : list (string * string)) (ks : list Node).
Hypothesis Hks : first_match "visual__svg" ks = None.
Variable display0 : Node.

(** [tick] on a container that is as found or holds the scaffold of the
    current system. *)
Lemma tick_settles now p :
  currentSystem p ∈ getAllSystems r ->
  visualContainer p = Elem tag attrs ks \/
    fits (Elem tag attrs ks) (currentSystem p) (visualContainer p) ->
  exists format output container,
    Main.tick_format (currentSystem p) = Normal format /\
    call_format format (currentSystem p) now = Returns output /\
    tick now p =
      Returns (with_visualContainer container
                 (with_display (render output (display p)) p)) /\
    fits (Elem tag attrs ks) (currentSystem p) container.
Proof.
  intros Hcur Hcontainer.
  destruct (tick_format_valid _ (Hvalid _ Hcur)) as [format Hformat].
  destruct (Hbehaved _ Hcur) as (Hcall & Hvisual & _).
  destruct (Hcall format now Hformat) as [output Houtput].
  exists format, output. unfold tick. rewrite Hformat.
  cbn [of_completion mbind Outcome_bind]. rewrite Houtput. cbn [mbind Outcome_bind].
  destruct p as [sel val vc d href shown cur handle timers next saved].
  cbn [currentSystem visualContainer display with_display with_visualContainer] in *.
  unfold fits in *.
  destruct (truthy (prop cur "visual")) eqn:Htruthy; cbn [andb] in *.
  - destruct (Hvisual eq_refl now) as [definition Hread].
    pose proof (read_visual_case _ _ _ Hread) as Hcase.
    unfold renderVisual_of. rewrite Hread. cbn [mbind Outcome_bind].
    destruct (has_case (prop cur "visual")).
    + destruct Hcase as [typed ->].
      destruct Hcontainer as [->|(date0 & typed0 & svg & Hread0 & -> & Hsvg)].
      * destruct (renderVisual_fresh typed now tag attrs ks Hks) as (svg & -> & Hsvg & _).
        eexists. split; [done|]. split; [done|]. split; [done|].
        by exists now, typed, svg.
      * cbn [appendChild].
        pose proof (read_visual_rendered _ _ _ _ _ _ Hread0 Hread Hsvg) as Hsvg'.
        destruct (renderVisual_again typed now tag attrs ks svg Hks Hsvg')
          as (svg' & -> & Hsvg'' & _).
        eexists. split; [done|]. split; [done|]. split; [done|].
        by exists now, typed, svg'.
    + rewrite Hcase. exists vc. split; [done|]. split; [done|]. split; [done|].
      by destruct Hcontainer.
  - exists vc. split; [done|]. split; [done|]. split; [done|]. by destruct Hcontainer.
Qed.

Lemma updateLearnMoreLink_settles p :
  currentSystem p ∈ getAllSystems r ->
  exists href shown,
    updateLearnMoreLink p = Normal (with_learnMore href shown p) /\
    if truthy (prop (currentSystem p) "learnMoreUrl")
    then href = prop (currentSystem p) "learnMoreUrl" /\ shown = ""
    else shown = "none".
Proof.
  intros Hcur. destruct (Hbehaved _ Hcur) as (_ & _ & _ & Hurl).
  pose proof (validateSystem_not_nullish _ (Hvalid _ Hcur)) as Hnullish.
  unfold updateLearnMoreLink, get_prop.
  rewrite Hnullish. cbn [mbind Completion_bind].
  destruct (truthy (prop (currentSystem p) "learnMoreUrl")).
  - rewrite Hurl by done. by eexists _, _.
  - by eexists _, _.
Qed.

Lemma tick_keeps now p p' :
  tick now p = Returns p' ->
  currentSystem p' = currentSystem p /\ selector p' = selector p /\
  selected p' = selected p /\ saved_system p' = saved_system p /\
  intervals p' = intervals p /\ tickHandle p' = tickHandle p.
Proof.
  unfold tick. destruct (Main.tick_format (currentSystem p)) as [format|e]; [|done].
  cbn [of_completion mbind Outcome_bind].
  destruct (call_format format (currentSystem p) now) as [output| |]; [|done..].
  cbn [mbind Outcome_bind].
  destruct (truthy _).
  - destruct (renderVisual_of _ _ _) as [container| |]; [|done..].
    cbn [mbind Outcome_bind mret Outcome_ret]. by intros [= <-].
  - cbn [mret Outcome_ret]. by intros [= <-].
Qed.

(** The part that [switchSystem] and the other branch of [init] share: a
    tick, a new interval, the link. *)
Lemma start_settles now p sys :
  sys = currentSystem p ->
  currentSystem p ∈ getAllSystems r ->
  visualContainer p = Elem tag attrs ks \/
    fits (Elem tag attrs ks) (currentSystem p) (visualContainer p) ->
  intervals p = [] ->
  display p = display0 \/ (exists output, display p = render output display0) ->
  dropdown (selector p) = true ->
  exists p',
    (p1 ← tick now p;
     '(handle, p2) ← of_completion (setInterval (tick_delay sys) p1);
     let p3 := with_tickHandle (Some handle) p2 in
     of_completion (updateLearnMoreLink p3)) = Returns p' /\
    settled r (Elem tag attrs ks) display0 p' /\
    currentSystem p' = currentSystem p /\
    selector p' = selector p /\
    selected p' = selected p /\
    saved_system p' = saved_system p.
Proof.
  intros -> Hcur Hcontainer Hintervals Hdisplay Hdrop.
  destruct (tick_settles now p Hcur Hcontainer)
    as (format & output & container & Hformat & Houtput & -> & Hfits).
  cbn [mbind Outcome_bind].
  destruct (Hbehaved _ Hcur) as (_ & _ & Hdelay & _).
  unfold setInterval. rewrite Hdelay.
  cbn [mbind Completion_bind mret Completion_ret of_completion Outcome_bind].
  destruct p as [sel val vc d href shown cur handle timers next saved].
  cbn [currentSystem visualContainer display intervals with_display with_visualContainer
       with_intervals with_tickHandle next_handle selector] in *.
  subst timers.
  match goal with
  | |- exists p', of_completion (updateLearnMoreLink ?p) = _ /\ _ =>
      destruct (updateLearnMoreLink_settles p Hcur) as (href' & shown' & -> & Hlink)
  end.
  eexists. split; [done|].
  cbn [with_learnMore selector selected saved_system currentSystem visualContainer
       display intervals tickHandle next_handle learnMore_href learnMore_display] in *.
  split; [|done].
  split; [done|]. split; [by eexists|]. split; [done|].
  split; [|split; [|done]].
  - exists format, now, output. split; [done|]. split; [done|].
    destruct Hdisplay as [->|[output0 ->]]; [done|].
    apply RendererMore.render_over_render.
  - cbn [with_learnMore learnMore_href learnMore_display].
    by destruct (truthy (prop cur "learnMoreUrl")).
Qed.

Lemma switchSystem_settles id now p :
  truthy (getSystem r id) = true ->
  ready (Elem tag attrs ks) display0 p ->
  dropdown (selector p) = true ->
  exists p',
    switchSystem r id now p = Returns p' /\
    settled r (Elem tag attrs ks) display0 p' /\
    currentSystem p' = getSystem r id /\
    selector p' = selector p /\
    selected p' = selected p /\
    saved_system p' = Some id.
Proof.
  intros Htruthy (Hcontainer & Htimer & Hdisplay) Hdrop. unfold switchSystem.
  rewrite Htruthy. cbn [negb].
  destruct p as [sel val vc d href shown cur handle timers next saved].
  cbn [currentSystem visualContainer display intervals tickHandle with_visualContainer
       with_currentSystem selector] in *.
  assert (VisualClear.clearVisual vc = Elem tag attrs ks) as ->.
  { destruct Hcontainer as [->|(svg & -> & Hsvg)].
    - by apply VisualMore.clearVisual_fresh.
    - by apply VisualMore.clearVisual_last. }
  match goal with
  | |- exists p', (p1 ← tick now ?p0; _) = _ /\ _ =>
      assert (intervals p0 = [] /\ p0 =
                mkPage sel val (Elem tag attrs ks) d href shown (getSystem r id)
                  handle [] next saved) as [Hnone ->]
  end.
  { destruct Htimer as [[-> ->]|(h & delay & -> & ->)]; [done|].
    cbn. by rewrite decide_False by (intros Hne; by apply Hne). }
  destruct (start_settles now
              (mkPage sel val (Elem tag attrs ks) d href shown (getSystem r id)
                 handle [] next saved) (getSystem r id))
    as (p' & Hstart & Hsettled & Hcur & Hsel & Hval & Hsaved);
    [done|by apply getSystem_truthy_elem|by left|done|done|done|].
  destruct (tick now _) as [p1| |]; [|done..].
  cbn [mbind Outcome_bind] in *.
  destruct (of_completion (setInterval (tick_delay (getSystem r id)) p1))
    as [[handle' p2]| |]; [|done..].
  cbn [mbind Outcome_bind] in *.
  rewrite Hstart. cbn [mbind Outcome_bind mret Outcome_ret].
  eexists. split; [done|].
  destruct p' as [sel' val' vc' d' href' shown' cur' handle'' timers' next' saved'].
  by cbn in *.
Qed.

Lemma loaded_ready p :
  loaded r p ->
  visualContainer p = Elem tag attrs ks ->
  display p = display0 ->
  ready (Elem tag attrs ks) display0 p.
Proof.
  intros (_ & Hhandle & Htimers & _) Hcontainer Hdisplay.
  split; [by left|]. split; [by left|by left].
Qed.

Lemma settled_ready p :
  settled r (Elem tag attrs ks) display0 p -> ready (Elem tag attrs ks) display0 p.
Proof.
  intros (Hcur & (handle & Hhandle & Htimers) & Hfits &
          (format & now & output & _ & _ & Hdisplay) & _).
  split; [|split].
  - unfold fits in Hfits. destruct (truthy _ && _); [|by left].
    destruct Hfits as (date & typed & svg & _ & -> & Hsvg). right. exists svg.
    split; [done|]. by apply (rendered_has_class typed).
  - right. by eexists _, _.
  - right. by eexists.
Qed.

Lemma populateSelector_keeps p :
  visualContainer (populateSelector r p) = visualContainer p /\
  display (populateSelector r p) = display p /\
  currentSystem (populateSelector r p) = currentSystem p /\
  tickHandle (populateSelector r p) = tickHandle p /\
  intervals (populateSelector r p) = intervals p /\
  saved_system (populateSelector r p) = saved_system p.
Proof.
  unfold populateSelector. generalize (getAllSystems r). intros systems.
  revert p. induction systems as [|sys systems IH]; intros p; [done|].
  cbn [foldl].
  destruct (IH (append_option (new_option sys) p)) as (-> & -> & -> & -> & -> & ->).
  apply append_option_keeps.
Qed.

Lemma populateSelector_selector tag' attrs' kids' p :
  selector p = Elem tag' attrs' kids' ->
  selector (populateSelector r p) =
    Elem tag' attrs' (kids' ++ (new_option <$> getAllSystems r)).
Proof.
  unfold populateSelector. generalize (getAllSystems r). intros systems.
  revert p kids'. induction systems as [|sys systems IH]; intros p kids' Hsel.
  - by rewrite app_nil_r.
  - cbn [foldl]. rewrite (IH _ (kids' ++ [new_option sys])).
    + by rewrite <- app_assoc.
    + rewrite append_option_selector. by rewrite Hsel.
Qed.

(** The selection after [populateSelector]: the one that was there, or the
    first of the new options. *)
Lemma populateSelector_selected p :
  dropdown (selector p) = true ->
  selection_fits (selector p) (selected p) = true ->
  dropdown (selector (populateSelector r p)) = true /\
  selection_fits (selector (populateSelector r p)) (selected (populateSelector r p)) = true /\
  selected (populateSelector r p) =
    match selected p with
    | Some i => Some i
    | None =>
        match getAllSystems r with
        | [] => None
        | _ :: _ => Some (length (childNodes_of (selector p)))
        end
    end.
Proof.
  unfold populateSelector. generalize (getAllSystems r). intros systems.
  revert p. induction systems as [|sys systems IH]; intros p Hdrop Hfits.
  - cbn [foldl]. split; [done|]. split; [done|]. by destruct (selected p).
  - cbn [foldl].
    destruct (append_option_selected sys p Hdrop Hfits) as (Hdrop' & Hfits' & Hsel').
    destruct (IH _ Hdrop' Hfits') as (Hdrop'' & Hfits'' & Hsel'').
    split; [done|]. split; [done|]. rewrite Hsel'', Hsel'. by destruct (selected p).
Qed.

(** [init] on the page as the module finds it. *)
Lemma init_settles now p :
  getAllSystems r <> [] ->
  loaded r p ->
  visualContainer p = Elem tag attrs ks ->
  display p = display0 ->
  exists p',
    init r now p = Returns p' /\
    settled r (Elem tag attrs ks) display0 p' /\
    selector p' = selector (populateSelector r p) /\
    match saved_system p with
    | Some saved =>
        if truthy (JStr saved) && truthy (getSystem r saved)
        then currentSystem p' = getSystem r saved /\
             selected p' = set_select_value saved (selector (populateSelector r p)) /\
             saved_system p' = Some saved
        else currentSystem p' = getDefaultSystem r /\
             selected p' = selected (populateSelector r p) /\
             saved_system p' = saved_system p
    | None => currentSystem p' = getDefaultSystem r /\
              selected p' = selected (populateSelector r p) /\
              saved_system p' = saved_system p
    end.
Proof.
  intros Hne Hloaded Hcontainer Hdisplay.
  pose proof (loaded_ready p Hloaded Hcontainer Hdisplay) as Hready.
  destruct Hloaded as (Hcur & Hhandle & Htimers & Hdrop & Hselection & _).
  destruct (populateSelector_keeps p) as (Hvc & Hd & Hc & Hh & Hi & Hs).
  destruct (populateSelector_selected p Hdrop Hselection) as (Hdrop' & _).
  assert (exists p',
            (p1 ← tick now (populateSelector r p);
             '(handle, p2) ← of_completion (setInterval (tick_delay (currentSystem p1)) p1);
             let p3 := with_tickHandle (Some handle) p2 in
             of_completion (updateLearnMoreLink p3)) = Returns p' /\
            settled r (Elem tag attrs ks) display0 p' /\
            selector p' = selector (populateSelector r p) /\
            currentSystem p' = getDefaultSystem r /\
            selected p' = selected (populateSelector r p) /\
            saved_system p' = saved_system p)
    as (p' & Hother & Hsettled & Hsel' & Hcur' & Hval' & Hsaved').
  { destruct (start_settles now (populateSelector r p) (currentSystem p))
      as (p' & Hstart & Hsettled & Hcur' & Hsel' & Hval' & Hsaved').
    - by rewrite Hc.
    - rewrite Hc, Hcur. by apply getDefaultSystem_elem.
    - left. by rewrite Hvc.
    - by rewrite Hi.
    - left. by rewrite Hd.
    - done.
    - exists p'. rewrite Hcur', Hc, Hcur, Hsaved', Hs.
      split; [|done]. rewrite <- Hstart.
      destruct (tick now (populateSelector r p)) as [p1| |] eqn:Htick; [|done..].
      cbn [mbind Outcome_bind].
      destruct (tick_keeps now _ _ Htick) as (-> & _). by rewrite Hc. }
  unfold init. cbn zeta. rewrite Hs.
  destruct (saved_system p) as [saved|]; [|by exists p'].
  destruct (truthy (JStr saved) && truthy (getSystem r saved)) eqn:Hsaved; [|by exists p'].
  apply andb_true_iff in Hsaved as [_ Htruthy].
  unfold set_selector_value. rewrite Hdrop'. cbn [mbind Outcome_bind].
  destruct (switchSystem_settles saved now
              (with_selected (set_select_value saved (selector (populateSelector r p)))
                 (populateSelector r p)) Htruthy)
    as (p'' & Hswitch & Hsettled'' & Hcur'' & Hsel'' & Hval'' & Hsaved'').
  { split; [left|split; [left|left]]; cbn [with_selected visualContainer display
      tickHandle intervals]; by rewrite ?Hvc, ?Hd, ?Hh, ?Hi. }
  { done. }
  exists p''. by rewrite Hswitch.
Qed.

Lemma dispatch_settles e p :
  settled r (Elem tag attrs ks) display0 p ->
  exists p',
    dispatch r p e = Returns p' /\
    settled r (Elem tag attrs ks) display0 p' /\
    selector p' = selector p.
Proof.
  intros Hsettled. destruct e as [choice now|handle now]; cbn [dispatch].
  - pose proof Hsettled as (_ & _ & _ & _ & _ & Hdrop). rewrite Hdrop. cbn [negb].
    destruct (offered p choice); [|by exists p].
    destruct (truthy (getSystem r (selector_value (with_selected (Some choice) p))))
      eqn:Htruthy.
    + destruct (switchSystem_settles _ now (with_selected (Some choice) p) Htruthy)
        as (p' & Hswitch & Hsettled' & _ & Hsel & _).
      { by apply settled_ready in Hsettled. }
      { done. }
      by exists p'.
    + unfold switchSystem. rewrite Htruthy. cbn [negb mret Outcome_ret].
      eexists. split; [done|]. split; [|done]. by destruct p.
  - destruct (bool_decide _); [|by exists p].
    destruct Hsettled
      as (Hcur & Htimer & Hfits & (format0 & now0 & output0 & Hformat0 & Houtput0 & Hdisplay)
          & Hlink & Hdrop).
    destruct (tick_settles now p Hcur (or_intror Hfits))
      as (format & output & container & Hformat & Houtput & Htick & Hfits').
    eexists. split; [exact Htick|].
    destruct p as [sel val vc d href shown cur handle' timers next saved].
    cbn in *. split; [|done].
    split; [done|]. split; [done|]. split; [done|]. split; [|done].
    exists format, now, output. split; [done|]. split; [done|]. rewrite Hdisplay.
    apply RendererMore.render_over_render.
Qed.

Lemma run_settles events p :
  settled r (Elem tag attrs ks) display0 p ->
  exists p',
    run r events p = Returns p' /\
    settled r (Elem tag attrs ks) display0 p' /\
    selector p' = selector p.
Proof.
  revert p. induction events as [|e events IH]; intros p Hsettled.
  - by exists p.
  - destruct (dispatch_settles e p Hsettled) as (p1 & Hdispatch & Hsettled1 & Hsel1).
    destruct (IH p1 Hsettled1) as (p' & Hrun & Hsettled' & Hsel').
    exists p'. cbn [run]. rewrite Hdispatch.
    cbn [mbind Outcome_bind]. by rewrite Hrun, Hsel', Hsel1.
Qed.

End WithHost.
End AppFacts.

Module AppProperties.
Import RegistryFacts DomFacts Renderer VisualRenderer VisualSpec App AppFacts.
Section WithHost.
Context `{!JsHost} `{!JsCalls} `{!Providers}.

Lemma registered_valid systems st :
  register systems = Normal st ->
  forall v, v ∈ getAllSystems (registry st) -> validateSystem v = true.
Proof.
  intros Hreg v Hv.
  by destruct (RegistryProperties.getAllSystems_accepted systems st v Hreg Hv).
Qed.

Lemma registered_lookup systems st id :
  register systems = Normal st ->
  truthy (getSystem (registry st) id) = true ->
  getSystem (registry st) id ∈ getAllSystems (registry st) /\
  system_id (getSystem (registry st) id) = id.
Proof.
  intros Hreg Htruthy. split; [by apply getSystem_truthy_elem|].
  assert (Map_get (registry st) id <> JUndefined) as Hget.
  { intros Hget. unfold getSystem in Htruthy. by rewrite Hget in Htruthy. }
  apply Map_get_lookup in Hget. unfold getSystem.
  rewrite (register_normal_inv _ _ Hreg) in Hget |- *.
  by apply accepted_entries_valid in Hget as (_ & Hid & _).
Qed.

Lemma omap_value_new_option (systems : list JsVal) :
  omap (getAttribute "value") (new_option <$> systems) = system_id <$> systems.
Proof.
  induction systems as [|sys systems IH]; [done|].
  rewrite !fmap_cons. cbn [omap list_omap]. rewrite new_option_closed at 1.
  cbn [getAttribute attr_get]. rewrite bool_decide_eq_true_2 by done.
  f_equal. apply IH.
Qed.

Lemma registered_ids systems st :
  register systems = Normal st ->
  system_id <$> getAllSystems (registry st) = (registry st).*1.
Proof.
  intros Hreg. rewrite (register_normal_inv _ _ Hreg). apply accepted_entries_ids.
Qed.

(** The value of the selector once [select.value = id] has run on a list
    that has an option of that value. *)
Lemma set_select_value_found id tag attrs kids option :
  option ∈ kids ->
  is_element "option" option = true ->
  option_value option = id ->
  select_value (Elem tag attrs kids) (set_select_value id (Elem tag attrs kids)) = id.
Proof.
  intros Helem Hoption Hvalue. unfold set_select_value. cbn [childNodes_of].
  destruct (first_where_elem
              (fun kid => is_element "option" kid && bool_decide (option_value kid = id))
              kids option Helem) as [j Hj].
  { rewrite Hoption. by apply bool_decide_eq_true_2. }
  rewrite Hj. apply first_where_Some in Hj as (kid & Hkid & Htest).
  unfold select_value. cbn [childNodes_of]. rewrite Hkid.
  apply andb_true_iff in Htest as [_ Htest]. by apply bool_decide_eq_true_1 in Htest.
Qed.

(** X13.  The page settles, for providers that keep to their types.  For a
    registry that registration has filled with one provider or more, each of
    them well behaved ([format] returns a display; a [visual] of one of the
    three types has its accessor and its number, and the accessor returns;
    [tickInterval] converts to a number and [learnMoreUrl] to a string), on
    the page as the module finds it (a drop-down list, no interval set, a
    visual container without a scaffold), [init] returns, and so does every
    later event, the choice of an option or an interval coming due, whatever
    the order; after each of them the current system is a registered
    provider; one interval is set, the one of [tickHandle], with the delay
    [currentSystem.tickInterval ?? 1000]; the visual container holds the
    scaffold of the visual of the current system when that has one of the
    three types, and is as it was found otherwise; the display holds the
    rendering of what [format] of the current system returned; the link is
    shown with [learnMoreUrl] of the current system when it has one and
    hidden otherwise.  With an empty registry [init] throws a [TypeError]. *)
Theorem page_settles (systems : list JsVal) (st : State) (now : Date)
    (events : list Event) (p : Page) :
  register systems = Normal st ->
  loaded (registry st) p ->
  (getAllSystems (registry st) <> [] ->
   (forall sys, sys ∈ getAllSystems (registry st) -> well_behaved sys) ->
   exists p1 p',
     init (registry st) now p = Returns p1 /\
     run (registry st) events p1 = Returns p' /\
     settled (registry st) (visualContainer p) (display p) p') /\
  (getAllSystems (registry st) = [] ->
   init (registry st) now p = Throws TypeError).
Proof.
  intros Hreg Hloaded. split.
  - intros Hne Hbehaved.
    pose proof Hloaded as (_ & _ & _ & _ & _ & (tag & attrs & ks & Hcontainer) & Hfresh).
    rewrite Hcontainer, querySelector_Elem in Hfresh.
    destruct (init_settles (registry st) (registered_valid systems st Hreg) Hbehaved
                tag attrs ks Hfresh (display p) now p Hne Hloaded Hcontainer eq_refl)
      as (p1 & Hinit & Hsettled & _).
    destruct (run_settles (registry st) (registered_valid systems st Hreg) Hbehaved
                tag attrs ks Hfresh (display p) events p1 Hsettled)
      as (p' & Hrun & Hsettled' & _).
    exists p1, p'. by rewrite Hcontainer.
  - intros Hnone. destruct Hloaded as (Hcur & _).
    assert (registry st = []) as Hempty.
    { unfold getAllSystems, Map_values in Hnone. by apply fmap_nil_inv in Hnone. }
    rewrite Hempty in *. unfold init, populateSelector.
    cbn [getAllSystems Map_values fmap list_fmap foldl].
    assert (tick now p = Throws TypeError) as Htick.
    { unfold tick. by rewrite Hcur. }
    destruct (saved_system p) as [saved|]; cbn [getSystem Map_get truthy andb];
      rewrite ?andb_false_r; by rewrite Htick.
Qed.

(** X14.  The preference comes back.  On the page as the module finds it,
    with the id [id] in the local storage and well-behaved providers: when
    [id] is not empty and names a registered provider, [init] returns with
    that provider as the current system, the selector showing [id], which is
    the value of one of its options, and [id] kept in the storage; when [id]
    is empty or names no registered provider, [init] returns with the default
    system and leaves the storage as it is, and the selector shows what the
    insertion of the options left selected: the option that was selected
    before, or, when none was, the first registered provider.  So the
    provider of the empty id, which [validateSystem] accepts, is never
    restored. *)
Theorem saved_system_restored (systems : list JsVal) (st : State) (id : string)
    (now : Date) (p : Page) :
  register systems = Normal st ->
  loaded (registry st) p ->
  (forall sys, sys ∈ getAllSystems (registry st) -> well_behaved sys) ->
  saved_system p = Some id ->
  (truthy (getSystem (registry st) id) = true -> id <> "" ->
   exists p1,
     init (registry st) now p = Returns p1 /\
     currentSystem p1 = getSystem (registry st) id /\
     system_id (currentSystem p1) = id /\
     selector_value p1 = id /\
     id ∈ option_values p1 /\
     saved_system p1 = Some id) /\
  (getAllSystems (registry st) <> [] ->
   id = "" \/ truthy (getSystem (registry st) id) = false ->
   exists p1,
     init (registry st) now p = Returns p1 /\
     currentSystem p1 = getDefaultSystem (registry st) /\
     saved_system p1 = Some id /\
     (selected p <> None -> selector_value p1 = selector_value p) /\
     (selected p = None ->
      exists sys, head (getAllSystems (registry st)) = Some sys /\
                  selector_value p1 = system_id sys)).
Proof.
  intros Hreg Hloaded Hbehaved Hsaved.
  pose proof Hloaded
    as (_ & _ & _ & Hdrop & Hselection & (tag & attrs & ks & Hcontainer) & Hfresh).
  destruct (dropdown_Elem _ Hdrop) as (stag & sattrs & skids & Hsel).
  rewrite Hcontainer, querySelector_Elem in Hfresh.
  pose proof (populateSelector_selector (registry st) stag sattrs skids p Hsel) as Hoptions.
  assert (getAllSystems (registry st) <> [] ->
          exists p1,
            init (registry st) now p = Returns p1 /\
            selector p1 = selector (populateSelector (registry st) p) /\
            if truthy (JStr id) && truthy (getSystem (registry st) id)
            then currentSystem p1 = getSystem (registry st) id /\
                 selected p1 =
                   set_select_value id (selector (populateSelector (registry st) p)) /\
                 saved_system p1 = Some id
            else currentSystem p1 = getDefaultSystem (registry st) /\
                 selected p1 = selected (populateSelector (registry st) p) /\
                 saved_system p1 = Some id)
    as Hinit.
  { intros Hne.
    destruct (init_settles (registry st) (registered_valid systems st Hreg) Hbehaved
                tag attrs ks Hfresh (display p) now p Hne Hloaded Hcontainer eq_refl)
      as (p1 & Hinit & _ & Hsel1 & Hcases).
    exists p1. split; [done|]. split; [done|]. rewrite Hsaved in Hcases.
    by destruct (truthy (JStr id) && truthy (getSystem (registry st) id)). }
  split.
  - intros Htruthy Hid.
    destruct (registered_lookup systems st id Hreg Htruthy) as [Helem Hsys].
    destruct Hinit as (p1 & Hinit & Hsel1 & Hcases).
    { intros Hnone. rewrite Hnone in Helem. by apply elem_of_nil in Helem. }
    rewrite Htruthy in Hcases. cbn [truthy] in Hcases.
    rewrite bool_decide_eq_false_2 in Hcases by done. cbn [negb andb] in Hcases.
    destruct Hcases as (Hcur & Hval & Hsaved1).
    exists p1. split; [done|]. split; [done|]. split; [by rewrite Hcur|].
    split; [|split; [|done]].
    + unfold selector_value. rewrite Hval, Hsel1, Hoptions.
      apply (set_select_value_found id stag sattrs _
               (new_option (getSystem (registry st) id))).
      * apply elem_of_app. right. by apply list_elem_of_fmap_2.
      * apply new_option_is_option.
      * by rewrite new_option_value.
    + unfold option_values. rewrite Hsel1, Hoptions.
      cbn [childNodes_of]. rewrite omap_app, omap_value_new_option.
      apply elem_of_app. right. rewrite <- Hsys at 1. by apply list_elem_of_fmap_2.
  - intros Hne Hcase. destruct (Hinit Hne) as (p1 & Hinit1 & Hsel1 & Hcases).
    exists p1. split; [done|].
    assert (currentSystem p1 = getDefaultSystem (registry st) /\
            selected p1 = selected (populateSelector (registry st) p) /\
            saved_system p1 = Some id) as (Hcur & Hval & Hsaved1).
    { destruct Hcase as [->|Hfalsy]; [done|].
      by rewrite Hfalsy, andb_false_r in Hcases. }
    split; [done|]. split; [done|].
    destruct (populateSelector_selected (registry st) p Hdrop Hselection)
      as (_ & _ & Hselected).
    unfold selector_value. rewrite Hval, Hsel1, Hselected, Hoptions, Hsel.
    unfold select_value. cbn [childNodes_of].
    rewrite Hsel in Hselection. unfold selection_fits in Hselection.
    cbn [childNodes_of] in Hselection. split.
    + destruct (selected p) as [i|]; [intros _|done].
      destruct (skids !! i) as [kid|] eqn:Hkid; [|done].
      by rewrite (lookup_app_l_Some _ _ _ _ Hkid).
    + intros ->. destruct (getAllSystems (registry st)) as [|sys rest]; [done|].
      exists sys. split; [done|]. rewrite fmap_cons.
      rewrite list_lookup_middle by done. apply new_option_value.
Qed.

(** X15.  The choice of an option.  On a page that [init] and any events
    have left, with well-behaved providers, let the user pick the option at
    the child [choice] of the selector.  When the list offers it (an option
    that is not disabled, in a list that is not disabled, other than the
    selected one), the listener sees its value: if the value names a
    registered provider, the event returns, that provider is the current
    system afterwards, its id is the value, the selector shows it and it is
    in the local storage; if it names none, nothing changes but the
    selection: the current system, the interval, the display, the visual and
    the storage stay.  What the list does not offer is no event. *)
Theorem change_event (systems : list JsVal) (st : State) (now : Date)
    (events : list Event) (p : Page) (choice : nat) (now' : Date) :
  register systems = Normal st ->
  getAllSystems (registry st) <> [] ->
  loaded (registry st) p ->
  (forall sys, sys ∈ getAllSystems (registry st) -> well_behaved sys) ->
  exists p1 p',
    init (registry st) now p = Returns p1 /\
    run (registry st) events p1 = Returns p' /\
    (offered p' choice = true ->
     truthy (getSystem (registry st) (select_value (selector p') (Some choice))) = true ->
     exists p'',
       dispatch (registry st) p' (Change choice now') = Returns p'' /\
       currentSystem p'' = getSystem (registry st) (select_value (selector p') (Some choice)) /\
       system_id (currentSystem p'') = select_value (selector p') (Some choice) /\
       selector_value p'' = select_value (selector p') (Some choice) /\
       saved_system p'' = Some (select_value (selector p') (Some choice))) /\
    (offered p' choice = true ->
     truthy (getSystem (registry st) (select_value (selector p') (Some choice))) = false ->
     dispatch (registry st) p' (Change choice now') =
       Returns (with_selected (Some choice) p')) /\
    (offered p' choice = false ->
     dispatch (registry st) p' (Change choice now') = Returns p').
Proof.
  intros Hreg Hne Hloaded Hbehaved.
  pose proof Hloaded as (_ & _ & _ & _ & _ & (tag & attrs & ks & Hcontainer) & Hfresh).
  rewrite Hcontainer, querySelector_Elem in Hfresh.
  destruct (init_settles (registry st) (registered_valid systems st Hreg) Hbehaved
              tag attrs ks Hfresh (display p) now p Hne Hloaded Hcontainer eq_refl)
    as (p1 & Hinit & Hsettled & _).
  destruct (run_settles (registry st) (registered_valid systems st Hreg) Hbehaved
              tag attrs ks Hfresh (display p) events p1 Hsettled)
    as (p' & Hrun & Hsettled' & _).
  pose proof Hsettled' as (_ & _ & _ & _ & _ & Hdrop).
  exists p1, p'. split; [done|]. split; [done|].
  cbn [dispatch]. rewrite Hdrop. cbn [negb].
  split; [|split].
  - intros -> Htruthy.
    destruct (switchSystem_settles (registry st) (registered_valid systems st Hreg)
                Hbehaved tag attrs ks Hfresh (display p)
                (select_value (selector p') (Some choice)) now'
                (with_selected (Some choice) p') Htruthy)
      as (p'' & Hswitch & _ & Hcur & Hsel'' & Hval & Hsaved).
    { by apply (settled_ready (registry st)) in Hsettled'. }
    { done. }
    exists p''. split; [done|]. split; [done|].
    split; [|split; [|done]].
    + rewrite Hcur. by destruct (registered_lookup systems st _ Hreg Htruthy).
    + unfold selector_value. by rewrite Hsel'', Hval.
  - intros -> Hfalsy. unfold switchSystem, selector_value.
    cbn [with_selected selector selected]. by rewrite Hfalsy.
  - by intros ->.
Qed.

(** X16.  The options of the selector.  For a registry that registration
    has filled, [populateSelector] appends one option for each registered
    provider, in the order of registration, behind the options that were
    there: its value is the id, its text the name and its title the
    description of the provider.  No two of the new options have the same
    value, and the value of each names its provider in the registry, so
    choosing it selects that provider. *)
Theorem populateSelector_options (systems : list JsVal) (st : State) (p : Page)
    (tag : string) (attrs : list (string * string)) (kids : list Node) :
  register systems = Normal st ->
  selector p = Elem tag attrs kids ->
  selector (populateSelector (registry st) p) =
    Elem tag attrs (kids ++ (new_option <$> getAllSystems (registry st))) /\
  option_values (populateSelector (registry st) p) =
    option_values p ++ (system_id <$> getAllSystems (registry st)) /\
  NoDup (system_id <$> getAllSystems (registry st)) /\
  forall sys,
    sys ∈ getAllSystems (registry st) ->
    getAttribute "value" (new_option sys) = Some (system_id sys) /\
    getAttribute "title" (new_option sys) = Some (system_description sys) /\
    DomMore.textContent (new_option sys) = system_name sys /\
    getSystem (registry st) (system_id sys) = sys.
Proof.
  intros Hreg Hsel.
  pose proof (populateSelector_selector (registry st) tag attrs kids p Hsel) as Hoptions.
  split; [done|]. split; [|split].
  - unfold option_values. rewrite Hoptions, Hsel. cbn [childNodes_of].
    by rewrite omap_app, omap_value_new_option.
  - rewrite (registered_ids systems st Hreg), (register_normal_inv _ _ Hreg).
    apply accepted_entries_NoDup.
  - intros sys Hsys. rewrite new_option_closed. split; [done|]. split; [done|].
    split.
    + rewrite RendererMore.textContent_Elem.
      destruct (decide (system_name sys = "")) as [Hname|Hname].
      * by rewrite bool_decide_eq_true_2.
      * rewrite bool_decide_eq_false_2 by done.
        apply RendererMore.texts_singleton.
    + by destruct (RegistryProperties.getAllSystems_accepted systems st sys Hreg Hsys)
        as (_ & _ & Hget).
Qed.

End WithHost.

(** The sample providers are well behaved, and the sample page is as the
    module finds it. *)
Ltac sample_behaves :=
  let sys := fresh "sys" in
  let Hsys := fresh "Hsys" in
  intros sys Hsys; change (sys ∈ sample_systems) in Hsys;
  repeat (apply elem_of_cons in Hsys as [->|Hsys]);
  [..|by apply elem_of_nil in Hsys];
  (split;
   [intros format now Hformat; vm_compute in Hformat; injection Hformat as <-;
    eexists; reflexivity
   |split;
    [intros _ now; eexists; vm_compute; reflexivity
    |split; [vm_compute; reflexivity|intros _; vm_compute; reflexivity]]]).

Ltac sample_loaded :=
  repeat split; try reflexivity; by eexists _, _, _.

Lemma page_settles_witness :
  exists p1 p',
    @init sample_host sample_calls sample_providers sample_registry 0%Z (sample_page None) =
      Returns p1 /\
    @run sample_host sample_calls sample_providers sample_registry sample_events p1 =
      Returns p' /\
    @settled sample_host sample_providers sample_registry sample_target
      (Elem "div" [("id", "time-display")] []) p'.
Proof.
  assert (@register sample_calls sample_systems = Normal (mkState sample_registry []))
    as Hreg by (vm_compute; reflexivity).
  assert (@loaded sample_registry (sample_page None)) as Hloaded by sample_loaded.
  destruct (@page_settles sample_host sample_calls sample_providers sample_systems
              (mkState sample_registry []) 0%Z sample_events (sample_page None)
              Hreg Hloaded) as [Hsettles _].
  apply Hsettles; [simpl; discriminate|sample_behaves].
Defined.

Lemma saved_system_restored_witness :
  exists p1,
    @init sample_host sample_calls sample_providers sample_registry 0%Z
      (sample_page (Some "kiloseconds")) = Returns p1 /\
    currentSystem p1 = sample_bar_system /\
    selector_value p1 = "kiloseconds".
Proof.
  assert (@register sample_calls sample_systems = Normal (mkState sample_registry []))
    as Hreg by (vm_compute; reflexivity).
  assert (@loaded sample_registry (sample_page (Some "kiloseconds"))) as Hloaded
    by sample_loaded.
  destruct (@saved_system_restored sample_host sample_calls sample_providers sample_systems
              (mkState sample_registry []) "kiloseconds" 0%Z
              (sample_page (Some "kiloseconds")) Hreg Hloaded ltac:(sample_behaves) eq_refl)
    as [Hrestore _].
  destruct Hrestore as (p1 & Hinit & Hcur & _ & Hval & _);
    [vm_compute; reflexivity|discriminate|].
  exists p1. split; [exact Hinit|]. split; [|exact Hval].
  rewrite Hcur. reflexivity.
Defined.

Lemma change_event_witness :
  exists p1 p' p'',
    @init sample_host sample_calls sample_providers sample_registry 0%Z (sample_page None) =
      Returns p1 /\
    @run sample_host sample_calls sample_providers sample_registry [Due 1 1%Z] p1 =
      Returns p' /\
    @dispatch sample_host sample_calls sample_providers sample_registry p' (Change 2 2%Z) =
      Returns p'' /\
    selector_value p'' = "kiloseconds" /\
    saved_system p'' = Some "kiloseconds".
Proof.
  assert (@register sample_calls sample_systems = Normal (mkState sample_registry []))
    as Hreg by (vm_compute; reflexivity).
  assert (@loaded sample_registry (sample_page None)) as Hloaded by sample_loaded.
  destruct (@change_event sample_host sample_calls sample_providers sample_systems
              (mkState sample_registry []) 0%Z [Due 1 1%Z] (sample_page None)
              2%nat 2%Z Hreg ltac:(simpl; discriminate) Hloaded ltac:(sample_behaves))
    as (p1 & p' & Hinit & Hrun & Hknown & _).
  assert (selector p' =
            Elem "select" [("id", "system-selector")]
              (new_option <$> sample_systems) /\ selected p' = Some 0%nat) as [Hsel Hnone].
  { vm_compute in Hinit. injection Hinit as <-.
    vm_compute in Hrun. injection Hrun as <-. split; reflexivity. }
  assert (select_value (selector p') (Some 2%nat) = "kiloseconds") as Hvalue
    by (rewrite Hsel; reflexivity).
  rewrite Hvalue in Hknown.
  destruct Hknown as (p'' & Hdispatch & _ & _ & Hshown & Hsaved).
  { unfold offered. rewrite Hsel, Hnone. reflexivity. }
  { vm_compute. reflexivity. }
  exists p1, p', p''. split; [exact Hinit|]. split; [exact Hrun|].
  split; [exact Hdispatch|]. split; [exact Hshown | exact Hsaved].
Defined.

Lemma populateSelector_options_witness :
  option_values (populateSelector sample_registry (sample_page None)) =
    ["standard"; "epoch-seconds"; "kiloseconds"].
Proof.
  assert (@register sample_calls sample_systems = Normal (mkState sample_registry []))
    as Hreg by (vm_compute; reflexivity).
  destruct (@populateSelector_options sample_calls sample_systems
              (mkState sample_registry [])
              (sample_page None) "select" [("id", "system-selector")] [] Hreg eq_refl)
    as (_ & Hvalues & _).
  simpl registry in Hvalues. rewrite Hvalues. vm_compute. reflexivity.
Defined.

End AppProperties.

(** ** The page on sample providers *)

Module AppExamples.
Import App.

(** The page loads on the three sample providers, and the selector, which
    was empty, shows the first of them. *)
Example init_selects_first_option :
  exists p1,
    @init sample_host sample_calls sample_providers sample_registry 0%Z (sample_page None) =
      Returns p1 /\
    selector_value p1 = "standard" /\
    option_values p1 = ["standard"; "epoch-seconds"; "kiloseconds"] /\
    system_id (currentSystem p1) = "standard".
Proof. eexists. split; [vm_compute; reflexivity|]. vm_compute. done. Qed.

(** With no preference saved the selector is left on its first option,
    also when the default system is another one. *)
Example init_selector_not_on_default :
  exists p1,
    @init sample_host sample_calls sample_providers
      [("kiloseconds", sample_bar_system); ("standard", sample_clock_system)] 0%Z
      (sample_page_of sample_clock_system) = Returns p1 /\
    system_id (currentSystem p1) = "standard" /\
    selector_value p1 = "kiloseconds".
Proof. eexists. split; [vm_compute; reflexivity|]. vm_compute. done. Qed.

(** [visual: 1] is truthy and has no [type]: the tick draws nothing. *)
Example tick_visual_number :
  exists p1,
    @tick sample_host sample_providers 0%Z (sample_page_of (sample_with "visual" (JNum 1))) =
      Returns p1 /\
    visualContainer p1 = sample_target.
Proof. eexists. split; [vm_compute; reflexivity|]. reflexivity. Qed.

(** [visual: {type: 'clock'}] has no [getHands] to call. *)
Example tick_clock_without_getHands :
  @tick sample_host sample_providers 0%Z
    (sample_page_of (sample_with "visual" (JObj (list_to_map [("type", JStr "clock")])))) =
    Throws TypeError.
Proof. vm_compute. reflexivity. Qed.

(** What [format] throws, the tick throws. *)
Example tick_format_throws :
  @tick sample_host sample_providers 0%Z (sample_page_of (sample_with "format" (JFun 20))) =
    Throws (Thrown 0).
Proof. vm_compute. reflexivity. Qed.

(** A clock whose [divisions] is no number is past what is modelled. *)
Example tick_clock_without_divisions :
  @tick sample_host sample_providers 0%Z
    (sample_page_of
       (sample_with "visual"
          (JObj (list_to_map [("type", JStr "clock"); ("getHands", JFun 10)])))) =
    Beyond.
Proof. vm_compute. reflexivity. Qed.

(** A [learnMoreUrl] that has no string ends [updateLearnMoreLink]. *)
Example updateLearnMoreLink_unprintable :
  @updateLearnMoreLink sample_calls
    (sample_page_of
       (sample_with "learnMoreUrl" (JObj (list_to_map [("toString", JNum 5)])))) =
    Throw TypeError.
Proof. vm_compute. reflexivity. Qed.

(** A [tickInterval] that has no number ends [setInterval]. *)
Example setInterval_no_number :
  @setInterval sample_calls
    (tick_delay
       (sample_with "tickInterval"
          (JObj (list_to_map [("valueOf", JNull); ("toString", JNull)]))))
    (sample_page None) =
    Throw TypeError.
Proof. vm_compute. reflexivity. Qed.

End AppExamples.
(** ** systems/decimal-french.ts: numerals and the calendar *)

Module DecimalFrenchFacts.
Import DecimalFrench.

#[local] Open Scope Z_scope.

Lemma while_at_least_closed fuel value numeral result num :
  0 < value -> 0 <= num -> (Z.to_nat num <= fuel)%nat ->
  while_at_least fuel value numeral result num =
    (result +:+ repeat_string (Z.to_nat (num / value)) numeral, num mod value).
Proof.
  intros Hvalue. revert result num.
  induction fuel as [|fuel IH]; intros result num Hnum Hfuel.
  - assert (num = 0) as -> by lia. cbn [while_at_least].
    rewrite Z.div_0_l, Z.mod_0_l by lia. cbn [Z.to_nat repeat_string].
    by rewrite RendererMore.string_app_nil_r.
  - cbn [while_at_least]. destruct (Z.leb_spec value num) as [Hle|Hlt].
    + rewrite IH by lia.
      assert (num / value = (num - value) / value + 1) as ->.
      { replace num with ((num - value) + 1 * value) at 1 by lia.
        apply Z_div_plus_full. lia. }
      assert (num mod value = (num - value) mod value) as ->.
      { replace num with ((num - value) + 1 * value) at 1 by lia.
        apply Z_mod_plus_full. }
      assert (0 <= (num - value) / value) by (apply Z.div_pos; lia).
      rewrite Z2Nat.inj_add by lia. rewrite Nat.add_1_r. cbn [repeat_string].
      by rewrite RendererMore.string_app_assoc.
    + rewrite Z.div_small, Z.mod_small by lia. cbn [Z.to_nat repeat_string].
      by rewrite RendererMore.string_app_nil_r.
Qed.

Lemma foldl_while_closed fuel entries result num :
  Forall (fun entry : Z * string => 0 < entry.1) entries ->
  0 <= num -> (Z.to_nat num <= fuel)%nat ->
  foldl (fun st entry => while_at_least fuel entry.1 entry.2 st.1 st.2)
    (result, num) entries =
  foldl take_entry (result, num) entries.
Proof.
  intros Hentries. revert result num.
  induction Hentries as [|[value numeral] entries Hvalue _ IH]; intros result num Hnum Hfuel;
    [done|].
  cbn [foldl fst snd] in *. rewrite while_at_least_closed by done.
  unfold take_entry at 2. cbn [fst snd].
  pose proof (Z.mod_pos_bound num value Hvalue).
  pose proof (Z.mod_le num value Hnum Hvalue).
  apply IH; lia.
Qed.

Lemma foldl_take_entry_prefix entries result num :
  foldl take_entry (result, num) entries =
    (result +:+ (foldl take_entry ("", num) entries).1,
     (foldl take_entry ("", num) entries).2).
Proof.
  revert result num. induction entries as [|[value numeral] entries IH]; intros result num.
  - cbn [foldl fst snd]. by rewrite RendererMore.string_app_nil_r.
  - cbn [foldl]. unfold take_entry at 2 4 6. cbn [fst snd].
    rewrite (IH (result +:+ _)), (IH ("" +:+ _)). cbn [fst snd].
    by rewrite RendererMore.string_app_assoc.
Qed.

Lemma lookup_positive : Forall (fun entry : Z * string => 0 < entry.1) lookup.
Proof. unfold lookup. repeat (constructor; [done|]). constructor. Qed.

Lemma toRomanNumeral_closed num :
  0 <= num -> toRomanNumeral num = (foldl take_entry ("", num) lookup).1.
Proof.
  intros Hnum. unfold toRomanNumeral.
  by rewrite foldl_while_closed by (apply lookup_positive || lia).
Qed.

Lemma take_entry_thousands num :
  take_entry ("", num) (1000, "M") =
    (repeat_string (Z.to_nat (num / 1000)) "M", num mod 1000).
Proof. reflexivity. Qed.

Lemma toRomanNumeral_thousands num :
  0 <= num ->
  toRomanNumeral num =
    repeat_string (Z.to_nat (num / 1000)) "M" +:+ toRomanNumeral (num mod 1000).
Proof.
  intros Hnum. pose proof (Z.mod_pos_bound num 1000 eq_refl) as Hrest.
  rewrite !toRomanNumeral_closed by lia.
  change lookup with ((1000, "M") :: tail lookup). generalize (tail lookup).
  intros entries. cbn [foldl]. rewrite !take_entry_thousands.
  rewrite Z.mod_mod by lia. rewrite (Z.div_small (num mod 1000)) by lia.
  cbn [Z.to_nat repeat_string].
  by rewrite foldl_take_entry_prefix.
Qed.

Lemma roman_digit_le c : roman_digit c <= 1000.
Proof. destruct c as [[] [] [] [] [] [] [] []]; by vm_compute. Qed.

Lemma roman_value_top c s :
  roman_digit c = 1000 -> roman_value (String c s) = roman_value s + 1000.
Proof.
  intros Hc. destruct s as [|c' s]; cbn [roman_value]; [by rewrite Hc|].
  rewrite Hc. pose proof (roman_digit_le c').
  by destruct (Z.ltb_spec 1000 (roman_digit c')); [lia|].
Qed.

Lemma roman_value_thousands n s :
  roman_value (repeat_string n "M" +:+ s) = 1000 * Z.of_nat n + roman_value s.
Proof.
  induction n as [|n IH].
  - change (repeat_string 0 "M" +:+ s) with s. lia.
  - cbn [repeat_string]. rewrite RendererMore.string_app_assoc.
    etrans; [by apply (roman_value_top _ (repeat_string n "M" +:+ s))|].
    rewrite IH. lia.
Qed.

Lemma roman_below_1000 :
  forallb (fun r => roman_value (toRomanNumeral r) =? r) (Z.of_nat <$> seq 0 1000) = true.
Proof. vm_compute. reflexivity. Qed.

Lemma roman_small r : 0 <= r < 1000 -> roman_value (toRomanNumeral r) = r.
Proof.
  intros Hr. pose proof roman_below_1000 as Hall.
  rewrite forallb_forall in Hall. apply Z.eqb_eq, Hall, list_elem_of_In.
  apply list_elem_of_fmap. exists (Z.to_nat r). split; [lia|].
  apply elem_of_seq. lia.
Qed.

Lemma toRomanNumeral_nonpositive num : num <= 0 -> toRomanNumeral num = "".
Proof.
  intros Hnum. unfold toRomanNumeral.
  by replace (Z.to_nat num) with 0%nat by lia.
Qed.

Lemma roman_value_toRomanNumeral num :
  roman_value (toRomanNumeral num) = Z.max 0 num.
Proof.
  destruct (Z.le_gt_cases num 0) as [Hle|Hgt].
  - rewrite toRomanNumeral_nonpositive by done. cbn [roman_value]. lia.
  - rewrite toRomanNumeral_thousands, roman_value_thousands by lia.
    pose proof (Z.mod_pos_bound num 1000 eq_refl).
    rewrite roman_small by lia.
    assert (0 <= num / 1000) by (apply Z.div_pos; lia).
    rewrite Z2Nat.id by lia.
    pose proof (Z.div_mod num 1000). lia.
Qed.

(** X17.  The numeral of a year.  [toRomanNumeral] returns a numeral that
    stands for its argument: read as a Roman numeral, a digit before a larger
    one taken off, its value is the argument when that is positive.  For 0
    and below it returns the empty string.  So two positive years never get
    the same numeral. *)
Theorem toRomanNumeral_round_trip (num : Z) :
  roman_value (toRomanNumeral num) = Z.max 0 num /\
  (num <= 0 -> toRomanNumeral num = "") /\
  (forall num', 0 < num -> 0 < num' ->
     toRomanNumeral num = toRomanNumeral num' -> num = num').
Proof.
  split; [apply roman_value_toRomanNumeral|]. split; [apply toRomanNumeral_nonpositive|].
  intros num' Hnum Hnum' Hsame.
  pose proof (roman_value_toRomanNumeral num) as Hvalue.
  rewrite Hsame, roman_value_toRomanNumeral in Hvalue. lia.
Qed.

Lemma days_in_year_cases y : days_in_year y = 365 \/ days_in_year y = 366.
Proof. unfold days_in_year. destruct (isRepublicanLeapYear y); auto. Qed.

Lemma count_years_total fuel remainingDays y :
  0 <= remainingDays -> (Z.to_nat remainingDays < fuel)%nat ->
  exists rest n,
    count_years fuel remainingDays y = Some (rest, y + Z.of_nat n) /\
    remainingDays = days_of_years n y + rest /\
    0 <= rest < days_in_year (y + Z.of_nat n).
Proof.
  revert remainingDays y.
  induction fuel as [|fuel IH]; intros remainingDays y Hdays Hfuel; [lia|].
  cbn [count_years]. fold (days_in_year y).
  destruct (Z.ltb_spec remainingDays (days_in_year y)) as [Hlt|Hge].
  - exists remainingDays, 0%nat. rewrite Z.add_0_r. cbn [days_of_years].
    split; [done|]. lia.
  - pose proof (days_in_year_cases y).
    destruct (IH (remainingDays - days_in_year y) (y + 1)) as (rest & n & Hcount & Hsum & Hrest);
      [lia..|].
    exists rest, (S n). replace (y + Z.of_nat (S n)) with (y + 1 + Z.of_nat n) by lia.
    split; [done|]. cbn [days_of_years]. split; [lia|done].
Qed.

Lemma gregorianToRepublican_ranges daysSinceEpoch :
  exists rep,
    gregorianToRepublican daysSinceEpoch = Some rep /\
    if daysSinceEpoch <? 0 then rep = mkRepublican 0 0 1 false
    else
      1 <= year rep /\
      daysSinceEpoch = days_before (year rep) + day_of_year rep /\
      0 <= day_of_year rep < days_in_year (year rep) /\
      if isComplementary rep
      then month rep = -1 /\ 0 <= day rep < days_in_year (year rep) - 360
      else 0 <= month rep < 12 /\ 1 <= day rep <= 30.
Proof.
  unfold gregorianToRepublican.
  destruct (Z.ltb_spec daysSinceEpoch 0) as [Hlt|Hge]; [by eexists|].
  destruct (count_years_total (S (Z.to_nat daysSinceEpoch)) daysSinceEpoch 1)
    as (rest & n & -> & Hsum & Hrest); [lia..|].
  assert (days_before (1 + Z.of_nat n) = days_of_years n 1) as Hbefore.
  { unfold days_before. by replace (Z.to_nat (1 + Z.of_nat n - 1)) with n by lia. }
  destruct (Z.leb_spec 360 rest) as [Hle|Hlt].
  - eexists. split; [done|]. unfold day_of_year. cbn [year month day isComplementary].
    rewrite Hbefore. lia.
  - eexists. split; [done|]. unfold day_of_year. cbn [year month day isComplementary].
    rewrite Hbefore, Z.rem_mod_nonneg by lia.
    pose proof (Z.div_mod rest 30). pose proof (Z.mod_pos_bound rest 30 eq_refl).
    assert (0 <= rest / 30) by (apply Z.div_pos; lia).
    assert (rest / 30 < 12) by (apply Z.div_lt_upper_bound; lia).
    lia.
Qed.

(** X18.  The calendar.  For every count of days since the epoch,
    [gregorianToRepublican] returns: the loop over the years ends.  Before
    the epoch it returns the placeholder, year 0.  From the epoch on the year
    is 1 or more, and the days of the years before it and the day of the year
    add up to the count; a day of a month has a month from 0 to 11 and a day
    from 1 to 30; a complementary day has the month -1 and a day from 0 to 4,
    or to 5 in a leap year. *)
Theorem gregorianToRepublican_calendar (daysSinceEpoch : Z) :
  exists rep,
    gregorianToRepublican daysSinceEpoch = Some rep /\
    if daysSinceEpoch <? 0 then rep = mkRepublican 0 0 1 false
    else
      1 <= year rep /\
      daysSinceEpoch = days_before (year rep) + day_of_year rep /\
      0 <= day_of_year rep < days_in_year (year rep) /\
      if isComplementary rep
      then month rep = -1 /\
           0 <= day rep < (if isRepublicanLeapYear (year rep) then 6 else 5)
      else 0 <= month rep < 12 /\ 1 <= day rep <= 30.
Proof.
  destruct (gregorianToRepublican_ranges daysSinceEpoch) as (rep & Hrep & Hranges).
  exists rep. split; [done|].
  destruct (daysSinceEpoch <? 0); [done|].
  destruct Hranges as (Hyear & Hsum & Hday & Hcases).
  split; [done|]. split; [done|]. split; [done|].
  destruct (isComplementary rep); [|done].
  unfold days_in_year in Hcases. destruct (isRepublicanLeapYear (year rep)); lia.
Qed.

(** X19.  Two counts of days from the epoch on never get the same date: the
    date tells the count. *)
Theorem gregorianToRepublican_injective (daysSinceEpoch daysSinceEpoch' : Z) :
  0 <= daysSinceEpoch -> 0 <= daysSinceEpoch' ->
  gregorianToRepublican daysSinceEpoch = gregorianToRepublican daysSinceEpoch' ->
  daysSinceEpoch = daysSinceEpoch'.
Proof.
  intros Hdays Hdays' Hsame.
  destruct (gregorianToRepublican_ranges daysSinceEpoch) as (rep & Hrep & Hranges).
  destruct (gregorianToRepublican_ranges daysSinceEpoch') as (rep' & Hrep' & Hranges').
  destruct (Z.ltb_spec daysSinceEpoch 0); [lia|].
  destruct (Z.ltb_spec daysSinceEpoch' 0); [lia|].
  assert (rep = rep') as <- by congruence.
  destruct Hranges as (_ & -> & _), Hranges' as (_ & -> & _). done.
Qed.

Lemma gregorianToRepublican_injective_witness :
  gregorianToRepublican 364 <> gregorianToRepublican 365.
Proof.
  intros Hsame.
  apply (gregorianToRepublican_injective 364 365) in Hsame; [discriminate Hsame|lia|lia].
Defined.

Lemma index_below {A} (xs : list A) i :
  0 <= i < Z.of_nat (length xs) -> is_Some (index xs i).
Proof.
  intros Hi. unfold index. destruct (Z.ltb_spec i 0); [lia|].
  apply lookup_lt_is_Some. lia.
Qed.

(** X20.  The date that [format] shows.  For every count of days since the
    epoch the date string names the day: a complementary day reads as one of
    the six names of [COMPLEMENTARY], so the fallback after [??] is never
    used; any other day reads as its number, a blank and one of the twelve
    names of [MONTHS], never [undefined].  The numeral of the era stands for
    the year.  Before the epoch the date reads [1 Vendémiaire] and the era
    [An] with a blank and no numeral behind it. *)
Theorem dateStr_names_the_day (daysSinceEpoch : Z) :
  exists rep,
    gregorianToRepublican daysSinceEpoch = Some rep /\
    (if isComplementary rep
     then index COMPLEMENTARY (day rep) = Some (dateStr rep)
     else exists name,
            index MONTHS (month rep) = Some name /\
            dateStr rep = pretty (day rep) +:+ " " +:+ name) /\
    era rep = "An " +:+ toRomanNumeral (year rep) /\
    roman_value (toRomanNumeral (year rep)) = year rep /\
    (daysSinceEpoch < 0 -> dateStr rep = "1 Vendémiaire" /\ era rep = "An ").
Proof.
  destruct (gregorianToRepublican_ranges daysSinceEpoch) as (rep & Hrep & Hranges).
  exists rep. split; [done|].
  destruct (Z.ltb_spec daysSinceEpoch 0) as [Hlt|Hge].
  - subst rep. cbn [isComplementary]. split; [by eexists|]. split; [done|].
    split; [done|]. intros _. split; by vm_compute.
  - destruct Hranges as (Hyear & _ & _ & Hcases).
    split; [|split; [done|split; [|lia]]].
    + unfold dateStr. destruct (isComplementary rep).
      * destruct Hcases as [_ Hday].
        destruct (index_below COMPLEMENTARY (day rep)) as [name Hname].
        { pose proof (days_in_year_cases (year rep)). cbn [COMPLEMENTARY length]. lia. }
        by rewrite Hname.
      * destruct Hcases as [Hmonth _].
        destruct (index_below MONTHS (month rep)) as [name Hname].
        { cbn [MONTHS length]. lia. }
        exists name. by rewrite Hname.
    + rewrite roman_value_toRomanNumeral. lia.
Qed.

End DecimalFrenchFacts.

(** ** systems/standard.ts: the hands of the clock *)

Module StandardFacts.
Import VisualRenderer.

Lemma all_hands_within :
  forallb
    (fun h =>
       forallb
         (fun m =>
            forallb
              (fun s =>
                 Standard.hands_within 12 (Standard.getHands h m s) &&
                 PrimFloat.leb (-90)
                   (hourAngle (Standard.visual (fun _ => (h, m, s)))
                      (Standard.getHands h m s)) &&
                 PrimFloat.ltb
                   (hourAngle (Standard.visual (fun _ => (h, m, s)))
                      (Standard.getHands h m s)) 270)
              (seq 0 60))
         (seq 0 60))
    (seq 0 24) = true.
Proof. vm_compute. reflexivity. Qed.

(** X21.  The hands of the standard clock.  For every time of day, an hour
    below 24 and a minute and a second below 60, the hands that [getHands]
    returns are within what the renderer takes: the hour at 0 or more and
    below the 12 divisions, the minute and the second at 0 or more and below
    100; there is always a second; the hour hand is drawn at an angle from
    -90 degrees on and below 270.  Twelve hours later the hands are the
    same. *)
Theorem standard_hands_within (local_time : Date -> nat * nat * nat) (date : Date)
    (h m s : nat) :
  local_time date = (h, m, s) ->
  (h < 24)%nat -> (m < 60)%nat -> (s < 60)%nat ->
  Standard.hands_within (number_of_nat (divisions (Standard.visual local_time)))
    (getHands (Standard.visual local_time) date) = true /\
  is_Some (second (getHands (Standard.visual local_time) date)) /\
  PrimFloat.leb (-90)
    (hourAngle (Standard.visual local_time)
       (getHands (Standard.visual local_time) date)) = true /\
  PrimFloat.ltb
    (hourAngle (Standard.visual local_time)
       (getHands (Standard.visual local_time) date)) 270 = true /\
  Standard.getHands (h + 12) m s = Standard.getHands h m s.
Proof.
  intros Hlocal Hh Hm Hs. cbn [Standard.visual getHands divisions]. rewrite Hlocal.

  pose proof all_hands_within as Hall.
  rewrite forallb_forall in Hall.
  specialize (Hall h). rewrite forallb_forall in Hall.
  specialize (Hall ltac:(apply list_elem_of_In, elem_of_seq; lia) m).
  rewrite forallb_forall in Hall.
  specialize (Hall ltac:(apply list_elem_of_In, elem_of_seq; lia) s
                ltac:(apply list_elem_of_In, elem_of_seq; lia)).
  apply andb_true_iff in Hall as [Hall Hupper].
  apply andb_true_iff in Hall as [Hwithin Hlower].
  split; [exact Hwithin|]. split; [by eexists|]. split; [exact Hlower|].
  split; [exact Hupper|]. unfold Standard.getHands.
  by replace ((h + 12) mod 12)%nat with (h mod 12)%nat
    by (symmetry; apply (Nat.Div0.mod_add h 1 12)).
Qed.

Lemma standard_hands_within_witness :
  Standard.hands_within 12
    (getHands (Standard.visual (fun _ => (15, 30, 45)%nat)) 0%Z) = true.
Proof.
  destruct (standard_hands_within (fun _ => (15, 30, 45)%nat) 0%Z 15 30 45 eq_refl)
    as [Hwithin _]; [lia..|].
  exact Hwithin.
Defined.

End StandardFacts.
